(** * PaymentMaker: the row-to-service extraction pipeline

    A shallow embedding of [paymentmaker/core/data_processor.py],
    [paymentmaker/core/models.py] and of the cell edits of
    [paymentmaker/gui/modern_ui.py], with the properties of the
    specification stated and proved (or refuted) over it.

    Python values are embedded as follows.
    - [str] is a list of Unicode code points ([pystr]); literals are written
      [u "..."], the UTF-8 decoding of the source text.
    - A Python [dict] is an association list in insertion order
      ([locations], [CITY_CORRECTIONS]): the order decides the ties of the
      stable sort.
    - A method of [DataProcessor] that appends to [self.errors] or
      [self.warnings], or that can raise, is a function from the instance
      state to an outcome ([Ok v] or [Raise e]) and the new instance state.
    - [re], [decimal.Decimal] and the character tables of [str] are library
      code; the parts the program uses are written out in [Text], [Re] and
      [Dec]. *)

From Stdlib Require Import List NArith ZArith Bool String Ascii Lia Sorted.
From Stdlib Require Import Permutation.
From Stdlib Require Import DecimalString.
Import ListNotations.

Set Implicit Arguments.

(* ================================================================== *)
(** ** Python strings *)

Module Text.

Local Open Scope N_scope.

(** A Python [str]: the sequence of its code points. *)
Definition pystr := list N.

Fixpoint bytes_of (s : string) : list N :=
  match s with
  | EmptyString => []
  | String a r => N_of_ascii a :: bytes_of r
  end.

(** UTF-8 decoding of well-formed text (one to four bytes per code point). *)
Fixpoint utf8_decode (bs : list N) : pystr :=
  match bs with
  | [] => []
  | b0 :: r0 =>
    if b0 <? 128 then b0 :: utf8_decode r0 else
    match r0 with
    | [] => [b0]
    | b1 :: r1 =>
      if b0 <? 224 then
        N.lor (N.shiftl (N.land b0 31) 6) (N.land b1 63) :: utf8_decode r1
      else
      match r1 with
      | [] => [b0]
      | b2 :: r2 =>
        if b0 <? 240 then
          N.lor (N.shiftl (N.land b0 15) 12)
                (N.lor (N.shiftl (N.land b1 63) 6) (N.land b2 63))
            :: utf8_decode r2
        else
        match r2 with
        | [] => [b0]
        | b3 :: r3 =>
          N.lor (N.shiftl (N.land b0 7) 18)
                (N.lor (N.shiftl (N.land b1 63) 12)
                       (N.lor (N.shiftl (N.land b2 63) 6) (N.land b3 63)))
            :: utf8_decode r3
        end
      end
    end
  end.

(** The string literal ["..."] of the Python source. *)
Definition u (s : string) : pystr := utf8_decode (bytes_of s).

Definition between (lo hi c : N) : bool := (lo <=? c) && (c <=? hi).

Fixpoint str_eqb (a b : pystr) : bool :=
  match a, b with
  | [], [] => true
  | x :: a', y :: b' => (x =? y) && str_eqb a' b'
  | _, _ => false
  end.

(** [str.isspace] of one character; this is also the class [\s] of [re] on
    [str] patterns.  The table is the whole of Unicode's. *)
Definition isspace (c : N) : bool :=
  between 9 13 c || between 28 32 c || (c =? 133) || (c =? 160)
  || (c =? 5760) || between 8192 8202 c || (c =? 8232) || (c =? 8233)
  || (c =? 8239) || (c =? 8287) || (c =? 12288).

(** Whether [c] is in one of the runs [rs], which are in ascending
    order. *)
Fixpoint in_ranges (c : N) (rs : list (N * N)) : bool :=
  match rs with
  | [] => false
  | (lo, hi) :: rs' =>
    if c <? lo then false else if c <=? hi then true else in_ranges c rs'
  end.

(** The runs of the alphanumeric characters (Unicode 14.0, the table of
    Python 3.11), first and last code point of each. *)
Definition alnum_ranges : list (N * N) :=
  [
    (48, 57); (65, 90); (97, 122); (170, 170); (178, 179); (181, 181);
    (185, 186); (188, 190); (192, 214); (216, 246); (248, 705); (710, 721);
    (736, 740); (748, 748); (750, 750); (880, 884); (886, 887); (890, 893);
    (895, 895); (902, 902); (904, 906); (908, 908); (910, 929); (931, 1013);
    (1015, 1153); (1162, 1327); (1329, 1366); (1369, 1369); (1376, 1416); (1488, 1514);
    (1519, 1522); (1568, 1610); (1632, 1641); (1646, 1647); (1649, 1747); (1749, 1749);
    (1765, 1766); (1774, 1788); (1791, 1791); (1808, 1808); (1810, 1839); (1869, 1957);
    (1969, 1969); (1984, 2026); (2036, 2037); (2042, 2042); (2048, 2069); (2074, 2074);
    (2084, 2084); (2088, 2088); (2112, 2136); (2144, 2154); (2160, 2183); (2185, 2190);
    (2208, 2249); (2308, 2361); (2365, 2365); (2384, 2384); (2392, 2401); (2406, 2415);
    (2417, 2432); (2437, 2444); (2447, 2448); (2451, 2472); (2474, 2480); (2482, 2482);
    (2486, 2489); (2493, 2493); (2510, 2510); (2524, 2525); (2527, 2529); (2534, 2545);
    (2548, 2553); (2556, 2556); (2565, 2570); (2575, 2576); (2579, 2600); (2602, 2608);
    (2610, 2611); (2613, 2614); (2616, 2617); (2649, 2652); (2654, 2654); (2662, 2671);
    (2674, 2676); (2693, 2701); (2703, 2705); (2707, 2728); (2730, 2736); (2738, 2739);
    (2741, 2745); (2749, 2749); (2768, 2768); (2784, 2785); (2790, 2799); (2809, 2809);
    (2821, 2828); (2831, 2832); (2835, 2856); (2858, 2864); (2866, 2867); (2869, 2873);
    (2877, 2877); (2908, 2909); (2911, 2913); (2918, 2927); (2929, 2935); (2947, 2947);
    (2949, 2954); (2958, 2960); (2962, 2965); (2969, 2970); (2972, 2972); (2974, 2975);
    (2979, 2980); (2984, 2986); (2990, 3001); (3024, 3024); (3046, 3058); (3077, 3084);
    (3086, 3088); (3090, 3112); (3114, 3129); (3133, 3133); (3160, 3162); (3165, 3165);
    (3168, 3169); (3174, 3183); (3192, 3198); (3200, 3200); (3205, 3212); (3214, 3216);
    (3218, 3240); (3242, 3251); (3253, 3257); (3261, 3261); (3293, 3294); (3296, 3297);
    (3302, 3311); (3313, 3314); (3332, 3340); (3342, 3344); (3346, 3386); (3389, 3389);
    (3406, 3406); (3412, 3414); (3416, 3425); (3430, 3448); (3450, 3455); (3461, 3478);
    (3482, 3505); (3507, 3515); (3517, 3517); (3520, 3526); (3558, 3567); (3585, 3632);
    (3634, 3635); (3648, 3654); (3664, 3673); (3713, 3714); (3716, 3716); (3718, 3722);
    (3724, 3747); (3749, 3749); (3751, 3760); (3762, 3763); (3773, 3773); (3776, 3780);
    (3782, 3782); (3792, 3801); (3804, 3807); (3840, 3840); (3872, 3891); (3904, 3911);
    (3913, 3948); (3976, 3980); (4096, 4138); (4159, 4169); (4176, 4181); (4186, 4189);
    (4193, 4193); (4197, 4198); (4206, 4208); (4213, 4225); (4238, 4238); (4240, 4249);
    (4256, 4293); (4295, 4295); (4301, 4301); (4304, 4346); (4348, 4680); (4682, 4685);
    (4688, 4694); (4696, 4696); (4698, 4701); (4704, 4744); (4746, 4749); (4752, 4784);
    (4786, 4789); (4792, 4798); (4800, 4800); (4802, 4805); (4808, 4822); (4824, 4880);
    (4882, 4885); (4888, 4954); (4969, 4988); (4992, 5007); (5024, 5109); (5112, 5117);
    (5121, 5740); (5743, 5759); (5761, 5786); (5792, 5866); (5870, 5880); (5888, 5905);
    (5919, 5937); (5952, 5969); (5984, 5996); (5998, 6000); (6016, 6067); (6103, 6103);
    (6108, 6108); (6112, 6121); (6128, 6137); (6160, 6169); (6176, 6264); (6272, 6276);
    (6279, 6312); (6314, 6314); (6320, 6389); (6400, 6430); (6470, 6509); (6512, 6516);
    (6528, 6571); (6576, 6601); (6608, 6618); (6656, 6678); (6688, 6740); (6784, 6793);
    (6800, 6809); (6823, 6823); (6917, 6963); (6981, 6988); (6992, 7001); (7043, 7072);
    (7086, 7141); (7168, 7203); (7232, 7241); (7245, 7293); (7296, 7304); (7312, 7354);
    (7357, 7359); (7401, 7404); (7406, 7411); (7413, 7414); (7418, 7418); (7424, 7615);
    (7680, 7957); (7960, 7965); (7968, 8005); (8008, 8013); (8016, 8023); (8025, 8025);
    (8027, 8027); (8029, 8029); (8031, 8061); (8064, 8116); (8118, 8124); (8126, 8126);
    (8130, 8132); (8134, 8140); (8144, 8147); (8150, 8155); (8160, 8172); (8178, 8180);
    (8182, 8188); (8304, 8305); (8308, 8313); (8319, 8329); (8336, 8348); (8450, 8450);
    (8455, 8455); (8458, 8467); (8469, 8469); (8473, 8477); (8484, 8484); (8486, 8486);
    (8488, 8488); (8490, 8493); (8495, 8505); (8508, 8511); (8517, 8521); (8526, 8526);
    (8528, 8585); (9312, 9371); (9450, 9471); (10102, 10131); (11264, 11492); (11499, 11502);
    (11506, 11507); (11517, 11517); (11520, 11557); (11559, 11559); (11565, 11565); (11568, 11623);
    (11631, 11631); (11648, 11670); (11680, 11686); (11688, 11694); (11696, 11702); (11704, 11710);
    (11712, 11718); (11720, 11726); (11728, 11734); (11736, 11742); (11823, 11823); (12293, 12295);
    (12321, 12329); (12337, 12341); (12344, 12348); (12353, 12438); (12445, 12447); (12449, 12538);
    (12540, 12543); (12549, 12591); (12593, 12686); (12690, 12693); (12704, 12735); (12784, 12799);
    (12832, 12841); (12872, 12879); (12881, 12895); (12928, 12937); (12977, 12991); (13312, 19903);
    (19968, 42124); (42192, 42237); (42240, 42508); (42512, 42539); (42560, 42606); (42623, 42653);
    (42656, 42735); (42775, 42783); (42786, 42888); (42891, 42954); (42960, 42961); (42963, 42963);
    (42965, 42969); (42994, 43009); (43011, 43013); (43015, 43018); (43020, 43042); (43056, 43061);
    (43072, 43123); (43138, 43187); (43216, 43225); (43250, 43255); (43259, 43259); (43261, 43262);
    (43264, 43301); (43312, 43334); (43360, 43388); (43396, 43442); (43471, 43481); (43488, 43492);
    (43494, 43518); (43520, 43560); (43584, 43586); (43588, 43595); (43600, 43609); (43616, 43638);
    (43642, 43642); (43646, 43695); (43697, 43697); (43701, 43702); (43705, 43709); (43712, 43712);
    (43714, 43714); (43739, 43741); (43744, 43754); (43762, 43764); (43777, 43782); (43785, 43790);
    (43793, 43798); (43808, 43814); (43816, 43822); (43824, 43866); (43868, 43881); (43888, 44002);
    (44016, 44025); (44032, 55203); (55216, 55238); (55243, 55291); (63744, 64109); (64112, 64217);
    (64256, 64262); (64275, 64279); (64285, 64285); (64287, 64296); (64298, 64310); (64312, 64316);
    (64318, 64318); (64320, 64321); (64323, 64324); (64326, 64433); (64467, 64829); (64848, 64911);
    (64914, 64967); (65008, 65019); (65136, 65140); (65142, 65276); (65296, 65305); (65313, 65338);
    (65345, 65370); (65382, 65470); (65474, 65479); (65482, 65487); (65490, 65495); (65498, 65500);
    (65536, 65547); (65549, 65574); (65576, 65594); (65596, 65597); (65599, 65613); (65616, 65629);
    (65664, 65786); (65799, 65843); (65856, 65912); (65930, 65931); (66176, 66204); (66208, 66256);
    (66273, 66299); (66304, 66339); (66349, 66378); (66384, 66421); (66432, 66461); (66464, 66499);
    (66504, 66511); (66513, 66517); (66560, 66717); (66720, 66729); (66736, 66771); (66776, 66811);
    (66816, 66855); (66864, 66915); (66928, 66938); (66940, 66954); (66956, 66962); (66964, 66965);
    (66967, 66977); (66979, 66993); (66995, 67001); (67003, 67004); (67072, 67382); (67392, 67413);
    (67424, 67431); (67456, 67461); (67463, 67504); (67506, 67514); (67584, 67589); (67592, 67592);
    (67594, 67637); (67639, 67640); (67644, 67644); (67647, 67669); (67672, 67702); (67705, 67742);
    (67751, 67759); (67808, 67826); (67828, 67829); (67835, 67867); (67872, 67897); (67968, 68023);
    (68028, 68047); (68050, 68096); (68112, 68115); (68117, 68119); (68121, 68149); (68160, 68168);
    (68192, 68222); (68224, 68255); (68288, 68295); (68297, 68324); (68331, 68335); (68352, 68405);
    (68416, 68437); (68440, 68466); (68472, 68497); (68521, 68527); (68608, 68680); (68736, 68786);
    (68800, 68850); (68858, 68899); (68912, 68921); (69216, 69246); (69248, 69289); (69296, 69297);
    (69376, 69415); (69424, 69445); (69457, 69460); (69488, 69505); (69552, 69579); (69600, 69622);
    (69635, 69687); (69714, 69743); (69745, 69746); (69749, 69749); (69763, 69807); (69840, 69864);
    (69872, 69881); (69891, 69926); (69942, 69951); (69956, 69956); (69959, 69959); (69968, 70002);
    (70006, 70006); (70019, 70066); (70081, 70084); (70096, 70106); (70108, 70108); (70113, 70132);
    (70144, 70161); (70163, 70187); (70272, 70278); (70280, 70280); (70282, 70285); (70287, 70301);
    (70303, 70312); (70320, 70366); (70384, 70393); (70405, 70412); (70415, 70416); (70419, 70440);
    (70442, 70448); (70450, 70451); (70453, 70457); (70461, 70461); (70480, 70480); (70493, 70497);
    (70656, 70708); (70727, 70730); (70736, 70745); (70751, 70753); (70784, 70831); (70852, 70853);
    (70855, 70855); (70864, 70873); (71040, 71086); (71128, 71131); (71168, 71215); (71236, 71236);
    (71248, 71257); (71296, 71338); (71352, 71352); (71360, 71369); (71424, 71450); (71472, 71483);
    (71488, 71494); (71680, 71723); (71840, 71922); (71935, 71942); (71945, 71945); (71948, 71955);
    (71957, 71958); (71960, 71983); (71999, 71999); (72001, 72001); (72016, 72025); (72096, 72103);
    (72106, 72144); (72161, 72161); (72163, 72163); (72192, 72192); (72203, 72242); (72250, 72250);
    (72272, 72272); (72284, 72329); (72349, 72349); (72368, 72440); (72704, 72712); (72714, 72750);
    (72768, 72768); (72784, 72812); (72818, 72847); (72960, 72966); (72968, 72969); (72971, 73008);
    (73030, 73030); (73040, 73049); (73056, 73061); (73063, 73064); (73066, 73097); (73112, 73112);
    (73120, 73129); (73440, 73458); (73648, 73648); (73664, 73684); (73728, 74649); (74752, 74862);
    (74880, 75075); (77712, 77808); (77824, 78894); (82944, 83526); (92160, 92728); (92736, 92766);
    (92768, 92777); (92784, 92862); (92864, 92873); (92880, 92909); (92928, 92975); (92992, 92995);
    (93008, 93017); (93019, 93025); (93027, 93047); (93053, 93071); (93760, 93846); (93952, 94026);
    (94032, 94032); (94099, 94111); (94176, 94177); (94179, 94179); (94208, 100343); (100352, 101589);
    (101632, 101640); (110576, 110579); (110581, 110587); (110589, 110590); (110592, 110882); (110928, 110930);
    (110948, 110951); (110960, 111355); (113664, 113770); (113776, 113788); (113792, 113800); (113808, 113817);
    (119520, 119539); (119648, 119672); (119808, 119892); (119894, 119964); (119966, 119967); (119970, 119970);
    (119973, 119974); (119977, 119980); (119982, 119993); (119995, 119995); (119997, 120003); (120005, 120069);
    (120071, 120074); (120077, 120084); (120086, 120092); (120094, 120121); (120123, 120126); (120128, 120132);
    (120134, 120134); (120138, 120144); (120146, 120485); (120488, 120512); (120514, 120538); (120540, 120570);
    (120572, 120596); (120598, 120628); (120630, 120654); (120656, 120686); (120688, 120712); (120714, 120744);
    (120746, 120770); (120772, 120779); (120782, 120831); (122624, 122654); (123136, 123180); (123191, 123197);
    (123200, 123209); (123214, 123214); (123536, 123565); (123584, 123627); (123632, 123641); (124896, 124902);
    (124904, 124907); (124909, 124910); (124912, 124926); (124928, 125124); (125127, 125135); (125184, 125251);
    (125259, 125259); (125264, 125273); (126065, 126123); (126125, 126127); (126129, 126132); (126209, 126253);
    (126255, 126269); (126464, 126467); (126469, 126495); (126497, 126498); (126500, 126500); (126503, 126503);
    (126505, 126514); (126516, 126519); (126521, 126521); (126523, 126523); (126530, 126530); (126535, 126535);
    (126537, 126537); (126539, 126539); (126541, 126543); (126545, 126546); (126548, 126548); (126551, 126551);
    (126553, 126553); (126555, 126555); (126557, 126557); (126559, 126559); (126561, 126562); (126564, 126564);
    (126567, 126570); (126572, 126578); (126580, 126583); (126585, 126588); (126590, 126590); (126592, 126601);
    (126603, 126619); (126625, 126627); (126629, 126633); (126635, 126651); (127232, 127244); (130032, 130041);
    (131072, 173791); (173824, 177976); (177984, 178205); (178208, 183969); (183984, 191456); (194560, 195101);
    (196608, 201546) ].

(** [str.isalnum] of one character. *)
Definition isalnum (c : N) : bool := in_ranges c alnum_ranges.

(** The class [\w] of [re]: alphanumeric or underscore. *)
Definition isword (c : N) : bool := isalnum c || (c =? 95).

(** The lower-case mapping of one character, on Basic Latin, Latin-1 and
    the Cyrillic block (U+0000..U+00FF, U+0400..U+04FF); a code point of
    another block is left as it is. *)
Definition lower_char (c : N) : N :=
  if between 65 90 c then c + 32
  else if between 192 222 c && negb (c =? 215) then c + 32
  else if between 1024 1039 c then c + 80
  else if between 1040 1071 c then c + 32
  else if (between 1120 1153 c || between 1162 1215 c || between 1232 1279 c)
          && N.even c then c + 1
  else if c =? 1216 then 1231
  else if between 1217 1230 c && N.odd c then c + 1
  else c.

(** [s.lower()] *)
Definition lower (s : pystr) : pystr := map lower_char s.

(** The lower-case characters that [re] takes for one another under
    IGNORECASE because they have the same upper case, each with the first
    of its group (the table of [re._casefix]). *)
Definition case_groups : list (N * N) :=
  [
    (305, 105); (383, 115); (953, 837); (956, 181); (963, 962); (976, 946);
    (977, 952); (981, 966); (982, 960); (1008, 954); (1009, 961); (1013, 949);
    (7296, 1074); (7297, 1076); (7298, 1086); (7299, 1089); (7300, 1090); (7301, 1090);
    (7302, 1098); (7303, 1123); (7835, 7777); (8126, 837); (8147, 912); (8163, 944);
    (42571, 7304); (64262, 64261) ].

(** The first of the group of [c], [c] itself when it is in none. *)
Definition case_fix (c : N) : N :=
  match find (fun g => fst g =? c) case_groups with
  | Some g => snd g
  | None => c
  end.

Fixpoint lstrip_by (p : N -> bool) (s : pystr) : pystr :=
  match s with
  | [] => []
  | c :: s' => if p c then lstrip_by p s' else s
  end.

Definition strip_by (p : N -> bool) (s : pystr) : pystr :=
  rev (lstrip_by p (rev (lstrip_by p s))).

(** [s.strip()] *)
Definition strip (s : pystr) : pystr := strip_by isspace s.

(** [s.strip(chars)] *)
Definition strip_chars (chars : pystr) (s : pystr) : pystr :=
  strip_by (fun c => existsb (N.eqb c) chars) s.

Fixpoint is_prefix (p s : pystr) : bool :=
  match p, s with
  | [], _ => true
  | x :: p', y :: s' => (x =? y) && is_prefix p' s'
  | _ :: _, [] => false
  end.

(** [sub in s] *)
Fixpoint contains (sub s : pystr) : bool :=
  is_prefix sub s ||
  match s with
  | [] => false
  | _ :: s' => contains sub s'
  end.

(** [s.split(sep)] for a non-empty separator.  [skip] counts the characters
    of a separator just found that are still to be passed over, [cur] is the
    piece being read, reversed. *)
Fixpoint split_aux (sep : pystr) (skip : nat) (cur : pystr) (s : pystr)
  : list pystr :=
  match s with
  | [] => [rev cur]
  | c :: s' =>
    match skip with
    | S k => split_aux sep k cur s'
    | O =>
      if is_prefix sep s
      then rev cur :: split_aux sep (List.length sep - 1) [] s'
      else split_aux sep O (c :: cur) s'
    end
  end.

Definition split (sep : pystr) (s : pystr) : list pystr :=
  split_aux sep O [] s.

(** [s.replace(old, new)] where [old] is one character. *)
Definition replace_char (old : N) (new : pystr) (s : pystr) : pystr :=
  flat_map (fun c => if c =? old then new else [c]) s.

(** [sep.join(parts)] *)
Fixpoint join (sep : pystr) (parts : list pystr) : pystr :=
  match parts with
  | [] => []
  | [p] => p
  | p :: ps => p ++ sep ++ join sep ps
  end.

(** [str(n)] of an [int]. *)
Definition str_of_Z (z : Z) : pystr :=
  bytes_of (NilZero.string_of_int (Z.to_int z)).

End Text.
Import Text.

(* ================================================================== *)
(** ** Regular expressions: the part of [re] the program uses

    The patterns of the program are built from literals, [.], character
    sets, [\s], [^], [$], [\b], concatenation, alternation, greedy [*] and
    [+] over one character, and at most one capturing group, which every
    match goes through.  A pattern is therefore kept as the expression
    before the group, the group and the expression after it.  Matching is
    the backtracking search of [re]: the leftmost start position, the
    alternatives from left to right, the longest repetition first. *)

Module Re.

Local Open Scope N_scope.

Inductive citem : Type :=
| CChar (c : N)            (* one character *)
| CRange (lo hi : N)       (* lo-hi *)
| CSpace.                  (* \s *)

Definition charset := list citem.

Inductive atom : Type :=
| ALit (c : N)             (* a literal character *)
| AAny                     (* . *)
| ASet (cs : charset).     (* [...] and \s *)

Inductive regex : Type :=
| Empty
| Atom (a : atom)
| Bol                      (* ^ *)
| Eol                      (* $ *)
| WordB                    (* \b *)
| Seq (r1 r2 : regex)
| Alt (r1 r2 : regex)
| Rep (min : nat) (a : atom).   (* a* is Rep 0 a, a+ is Rep 1 a *)

Record pattern : Type := Pattern {
  pre : regex;     (* before the group *)
  grp : regex;     (* group 1 *)
  post : regex     (* after the group *)
}.

Definition range (lo hi : N) : list N :=
  map (fun k => lo + N.of_nat k) (seq 0 (N.to_nat (hi + 1 - lo))).

Section Matching.

(** [ic] is the flag [re.IGNORECASE]. *)
Variable ic : bool.

(** With IGNORECASE a character of the pattern stands for every character
    whose lower case is its own lower case or in the same group of
    [case_groups]: the members of a set are lower-cased, and their groups
    added, when the pattern is compiled, and the subject character is
    lower-cased when it is tried. *)
Definition same_letter (c x : N) : bool :=
  case_fix (lower_char c) =? case_fix (lower_char x).

Definition citem_matches (it : citem) (c : N) : bool :=
  match it with
  | CChar x => if ic then same_letter c x else c =? x
  | CRange lo hi =>
    if ic then existsb (same_letter c) (range lo hi)
    else between lo hi c
  | CSpace => isspace c
  end.

Definition atom_matches (a : atom) (c : N) : bool :=
  match a with
  | ALit x => if ic then same_letter c x else c =? x
  | AAny => negb (c =? 10)
  | ASet cs => existsb (fun it => citem_matches it c) cs
  end.

Definition word_before (prev : option N) : bool :=
  match prev with Some c => isword c | None => false end.

Definition word_here (s : pystr) : bool :=
  match s with c :: _ => isword c | [] => false end.

Section Backtracking.

Variable R : Type.

(** A continuation takes the character before the current position (none at
    the start of the subject) and the rest of the subject. *)
Definition cont := option N -> pystr -> option R.

(** Greedy repetition of one character: as many as possible, then one less
    each time the continuation fails, never less than [min]. *)
Fixpoint rep_greedy (a : atom) (min : nat) (prev : option N) (s : pystr)
    (k : cont) : option R :=
  let stop := match min with O => k prev s | S _ => None end in
  match s with
  | [] => stop
  | c :: s' =>
    if atom_matches a c then
      match rep_greedy a (Nat.pred min) (Some c) s' k with
      | Some r => Some r
      | None => stop
      end
    else stop
  end.

Fixpoint rx_match (r : regex) (prev : option N) (s : pystr) (k : cont)
  : option R :=
  match r with
  | Empty => k prev s
  | Atom a =>
    match s with
    | c :: s' => if atom_matches a c then k (Some c) s' else None
    | [] => None
    end
  | Bol => match prev with None => k prev s | Some _ => None end
  | Eol =>
    match s with
    | [] => k prev s
    | [c] => if c =? 10 then k prev s else None
    | _ => None
    end
  | WordB => if xorb (word_before prev) (word_here s) then k prev s else None
  | Seq r1 r2 => rx_match r1 prev s (fun p' s' => rx_match r2 p' s' k)
  | Alt r1 r2 =>
    match rx_match r1 prev s k with
    | Some x => Some x
    | None => rx_match r2 prev s k
    end
  | Rep min a => rep_greedy a min prev s k
  end.

End Backtracking.

(** A match of the whole pattern at the current position; the value is the
    text of group 1. *)
Definition match_at (p : pattern) (prev : option N) (s : pystr)
  : option pystr :=
  rx_match (pre p) prev s (fun p1 s1 =>
    rx_match (grp p) p1 s1 (fun p2 s2 =>
      rx_match (post p) p2 s2 (fun _ _ =>
        Some (firstn (List.length s1 - List.length s2) s1)))).

Fixpoint search_from (p : pattern) (prev : option N) (s : pystr)
  : option pystr :=
  match match_at p prev s with
  | Some g => Some g
  | None =>
    match s with
    | [] => None
    | c :: s' => search_from p (Some c) s'
    end
  end.

End Matching.

(** [re.search(p, s, flags)]: [None] when there is no match, otherwise
    [match.group(1)] of the leftmost match. *)
Definition search (p : pattern) (s : pystr) (ignorecase : bool)
  : option pystr :=
  search_from ignorecase p None s.

(** The expression that a text without metacharacters stands for. *)
Fixpoint lit (s : pystr) : regex :=
  match s with
  | [] => Empty
  | [c] => Atom (ALit c)
  | c :: s' => Seq (Atom (ALit c)) (lit s')
  end.

(** The expression that an abbreviation of the correction dictionary stands
    for when it is pasted into a pattern: its only metacharacter is the
    period, which matches any character but a newline. *)
Fixpoint of_abbr (s : pystr) : regex :=
  match s with
  | [] => Empty
  | c :: s' => Seq (Atom (if c =? 46 then AAny else ALit c)) (of_abbr s')
  end.

Definition space : atom := ASet [CSpace].

Fixpoint alts (rs : list regex) : regex :=
  match rs with
  | [] => Empty
  | [r] => r
  | r :: rs' => Alt r (alts rs')
  end.

Fixpoint seqs (rs : list regex) : regex :=
  match rs with
  | [] => Empty
  | [r] => r
  | r :: rs' => Seq r (seqs rs')
  end.

End Re.

(* ================================================================== *)
(** ** Decimal numbers: [decimal.Decimal] built from a string

    A [Decimal] keeps the sign, the digits and the exponent it was written
    with: [Decimal("1234.50")] has the coefficient 123450 and the exponent
    -2, and no rounding takes place.  The constructor follows the grammar of
    the library's reference implementation; the digits are the ASCII ones and
    the exponent is unbounded. *)

Module Dec.

Local Open Scope N_scope.

Inductive Decimal : Type :=
| Finite (sign : bool) (coeff : N) (exp : Z)   (* (-1)^sign * coeff * 10^exp *)
| Infinity (sign : bool)
| NaN (sign : bool) (signaling : bool) (payload : N).

(** [Decimal("0.00")] *)
Definition zero_00 : Decimal := Finite false 0 (-2).

(** [d < 0] for a number or an infinity. *)
Definition is_negative (d : Decimal) : bool :=
  match d with
  | Finite s c _ => s && negb (c =? 0)
  | Infinity s => s
  | NaN _ _ _ => false
  end.

(** [d.is_signed()]: [d] carries a minus sign, whatever it is (a number,
    zero included, an infinity or a NaN). *)
Definition is_signed (d : Decimal) : bool :=
  match d with
  | Finite s _ _ => s
  | Infinity s => s
  | NaN s _ _ => s
  end.

(** The number of digits after the decimal point that [d] is written with. *)
Definition decimal_places (d : Decimal) : Z :=
  match d with
  | Finite _ _ e => Z.max 0 (- e)
  | _ => 0%Z
  end.

Definition is_digit (c : N) : bool := between 48 57 c.

(** The longest run of digits at the start of [s], and what follows it. *)
Fixpoint take_digits (s : pystr) : pystr * pystr :=
  match s with
  | [] => ([], [])
  | c :: s' =>
    if is_digit c
    then let (ds, rest) := take_digits s' in (c :: ds, rest)
    else ([], s)
  end.

Definition digits_value (ds : pystr) : N :=
  fold_left (fun acc d => acc * 10 + (d - 48)) ds 0.

(** An optional sign: [true] for a minus. *)
Definition take_sign (s : pystr) : bool * pystr :=
  match s with
  | c :: r => if c =? 45 then (true, r) else if c =? 43 then (false, r)
              else (false, s)
  | [] => (false, s)
  end.

(** The exponent after the letter E: a signed run of digits up to the end. *)
Definition parse_exponent (s : pystr) : option Z :=
  let (neg, r) := take_sign s in
  let (ds, rest) := take_digits r in
  match ds, rest with
  | _ :: _, [] =>
    let v := Z.of_N (digits_value ds) in Some (if neg then (- v)%Z else v)
  | _, _ => None
  end.

(** The first of the ten decimal digits of each script (Unicode 14.0, the
    table of Python 3.11). *)
Definition decimal_zeros : list N :=
  [
    48; 1632; 1776; 1984; 2406; 2534; 2662; 2790; 2918; 3046;
    3174; 3302; 3430; 3558; 3664; 3792; 3872; 4160; 4240; 6112;
    6160; 6470; 6608; 6784; 6800; 6992; 7088; 7232; 7248; 42528;
    43216; 43264; 43472; 43504; 43600; 44016; 65296; 66720; 68912; 69734;
    69872; 69942; 70096; 70384; 70736; 70864; 71248; 71360; 71472; 71904;
    72016; 72784; 73040; 73120; 92768; 92864; 93008; 120782; 120792; 120802;
    120812; 120822; 123200; 123632; 125264; 130032 ].

(** The value of a decimal digit of any script, which the C function
    [Py_UNICODE_TODECIMAL] gives. *)
Definition to_decimal (c : N) : option N :=
  match find (fun z => between z (z + 9) c) decimal_zeros with
  | Some z => Some (c - z)
  | None => None
  end.

(** The text as the library reads it: an ASCII character stays, another
    whitespace character counts as a space, another decimal digit as the
    ASCII digit of its value, and with any other character the text is no
    number. *)
Fixpoint as_ascii (s : pystr) : option pystr :=
  match s with
  | [] => Some []
  | c :: s' =>
    match as_ascii s' with
    | None => None
    | Some r =>
      if (0 <? c) && (c <=? 127) then Some (c :: r)
      else if isspace c then Some (32 :: r)
      else
        match to_decimal c with
        | Some d => Some (48 + d :: r)
        | None => None
        end
    end
  end.

(** What the library makes of a text: a number, or one of its two
    refusals. *)
Inductive conversion : Type :=
| Number (d : Decimal)
| Syntax      (* the text is not written as a number *)
| Limits.     (* the number is written, and is beyond the limits *)

(** The limits of a number that is read exactly (a 64-bit build): no
    exponent below [MIN_ETINY], no adjusted exponent, which is the exponent
    plus the count of the digits less one, above [MAX_EMAX]. *)
Definition MAX_EMAX : Z := 999999999999999999.
Definition MIN_ETINY : Z := -1999999999999999997.

(** The count of the digits of a coefficient as it is written: those from
    the first that is not zero, one for a coefficient of zeros. *)
Definition count_digits (ds : pystr) : Z :=
  match lstrip_by (fun c => c =? 48) ds with
  | [] => 1%Z
  | l => Z.of_nat (List.length l)
  end.

Definition in_limits (digits exp : Z) : bool :=
  ((MIN_ETINY <=? exp) && (exp + digits - 1 <=? MAX_EMAX))%Z.

(** A number: digits with an optional fraction and an optional exponent, at
    least one digit in all.  A number written without exponent is within
    the limits, which only a text of 10^18 characters could reach. *)
Definition parse_number (sign : bool) (s : pystr) : conversion :=
  let (ip, r1) := take_digits s in
  let (fp, r2) :=
    match r1 with
    | c :: r => if c =? 46 then take_digits r else ([], r1)
    | [] => ([], r1)
    end in
  match ip ++ fp with
  | [] => Syntax
  | _ :: _ =>
    let coeff := digits_value (ip ++ fp) in
    let places := Z.of_nat (List.length fp) in
    match r2 with
    | [] => Number (Finite sign coeff (- places))
    | c :: r3 =>
      if lower_char c =? 101 then
        match parse_exponent r3 with
        | Some e =>
          if in_limits (count_digits (ip ++ fp)) (e - places)
          then Number (Finite sign coeff (e - places))
          else Limits
        | None => Syntax
        end
      else Syntax
    end
  end.

(** [NaN] or [sNaN] with optional diagnostic digits. *)
Definition parse_nan (sign : bool) (s : pystr) : option Decimal :=
  let l := lower s in
  let (signaling, r) :=
    match l with
    | c :: r => if c =? 115 then (true, r) else (false, l)
    | [] => (false, l)
    end in
  if is_prefix (u "nan") r then
    let (ds, rest) := take_digits (skipn 3 r) in
    match rest with
    | [] => Some (NaN sign signaling (digits_value ds))
    | _ :: _ => None
    end
  else None.

(** The conversion of a text: the whitespace at its two ends and every
    underscore are dropped first. *)
Definition convert (s : pystr) : conversion :=
  match as_ascii (filter (fun c => negb (c =? 95)) (strip s)) with
  | None => Syntax
  | Some v =>
    let (sign, r) := take_sign v in
    match parse_number sign r with
    | Syntax =>
      if str_eqb (lower r) (u "inf") || str_eqb (lower r) (u "infinity")
      then Number (Infinity sign)
      else
        match parse_nan sign r with
        | Some d => Number d
        | None => Syntax
        end
    | c => c
    end
  end.

(** [Decimal(s)]: [None] stands for the exception [InvalidOperation]. *)
Definition of_str (s : pystr) : option Decimal :=
  match convert s with
  | Number d => Some d
  | _ => None
  end.

(** [str(e)] of the exception that a text which is not written as a number
    raises, and of the one that a number beyond the limits raises. *)
Definition conversion_error : pystr :=
  u "[<class 'decimal.ConversionSyntax'>]".

Definition limits_error : pystr :=
  u "[<class 'decimal.InvalidOperation'>]".

(** [str(e)] of the exception that [Decimal(s)] raises. *)
Definition error_text (s : pystr) : pystr :=
  match convert s with
  | Limits => limits_error
  | _ => conversion_error
  end.

End Dec.

(* ================================================================== *)
(** ** models.py *)

Module Models.

(** [datetime.datetime], to the second. *)
Record datetime : Type := Datetime {
  year : Z; month : Z; day : Z; hour : Z; minute : Z; second : Z
}.

(** A number in two digits, as [%d] and [%m] print it. *)
Definition pad2 (n : Z) : pystr :=
  if (n <? 10)%Z then u "0" ++ str_of_Z n else str_of_Z n.

(** [d.strftime("%d.%m.%Y")], for a year of four digits. *)
Definition strftime_dmY (d : datetime) : pystr :=
  pad2 (day d) ++ u "." ++ pad2 (month d) ++ u "." ++ str_of_Z (year d).

(** The dataclass [TransportService].  [_description] is no field of the
    dataclass: it is the instance attribute that the table model of the
    user interface sets when the description cell is edited, absent until
    then. *)
Record TransportService : Type := Build_TransportService {
  date : datetime;
  driver_name : pystr;
  car_number : pystr;
  route : list pystr;
  quantity : Z;
  unit : pystr;
  price : Dec.Decimal;
  amount : Dec.Decimal;
  _description : option pystr
}.

(** The constructor call of [_process_row]: [quantity] and [unit] take their
    defaults. *)
Definition new_TransportService (date : datetime) (driver_name car_number : pystr)
    (route : list pystr) (price amount : Dec.Decimal) : TransportService :=
  Build_TransportService date driver_name car_number route 1 (u "шт.")
                         price amount None.

(** The property [TransportService.description]. *)
Definition description (self : TransportService) : pystr :=
  let date_str := strftime_dmY (date self) in
  let route_str := join (u " - ") (route self) in
  u "Транспортные услуги " ++ date_str ++ u " водит. " ++ driver_name self
    ++ u ", " ++ u "а/м Газель " ++ car_number self ++ u ", маршрут "
    ++ route_str.

(** The dataclass [ProcessingResult]; [data] defaults to [None], the two
    lists to empty lists. *)
Record ProcessingResult : Type := Build_ProcessingResult {
  success : bool;
  message : pystr;
  data : option (list TransportService);
  errors : list pystr;
  warnings : list pystr
}.

End Models.

(* ================================================================== *)
(** ** What the program reads: cells, tables, files, the clock *)

Module Frame.

Import Models.

(** The value of one cell of the table.  [CNa] is a missing value ([None],
    NaN, NaT), the values [pd.isna] answers for.  A float and a datetime
    carry the text [str()] gives for them, which the library formats. *)
Inductive cell : Type :=
| CNa
| CStr (s : pystr)
| CInt (z : Z)
| CBool (b : bool)
| CFloat (nonzero : bool) (text : pystr)
| CDatetime (d : datetime) (text : pystr).

(** [pd.isna(c)] *)
Definition isna (c : cell) : bool :=
  match c with CNa => true | _ => false end.

(** [bool(c)], the truth value [not c] negates. *)
Definition truthy (c : cell) : bool :=
  match c with
  | CNa => false
  | CStr s => match s with [] => false | _ :: _ => true end
  | CInt z => negb (z =? 0)%Z
  | CBool b => b
  | CFloat nonzero _ => nonzero
  | CDatetime _ _ => true
  end.

(** [str(c)]; the program takes it of no missing value, each extractor
    asking [pd.isna] first. *)
Definition str (c : cell) : pystr :=
  match c with
  | CNa => u "None"
  | CStr s => s
  | CInt z => str_of_Z z
  | CBool b => if b then u "True" else u "False"
  | CFloat _ text => text
  | CDatetime _ text => text
  end.

(** A row label of the table, as [iterrows] yields it.  The loader numbers
    the rows unless a file has more fields in its rows than in its header,
    whose first column then labels the rows.  For an integer label
    [index + 1] is the next integer; for a label of another numeric type (a
    float, say) it is a number too, [next] being its text in a message; for
    any other label (a string, a date) it raises [TypeError], with the
    message given. *)
Inductive index : Type :=
| IInt (z : Z)
| INum (next : pystr)
| IOther (type_error : pystr).

(** A column label: a string, or a value of another type. *)
Inductive label : Type :=
| LStr (s : pystr)
| LOther.

(** A data frame: the column labels, which the loader keeps distinct, and
    the rows, each with its label and its cells in column order. *)
Record DataFrame : Type := Build_DataFrame {
  columns : list label;
  rows : list (index * list cell)
}.

Definition label_is (col : pystr) (l : label) : bool :=
  match l with LStr s => str_eqb s col | LOther => false end.

(** [col in df.columns] *)
Definition has_column (col : pystr) (cols : list label) : bool :=
  existsb (label_is col) cols.

(** [row.get(col)]: the cell under the column [col], [None] without one. *)
Fixpoint row_get (cols : list label) (cells : list cell) (col : pystr)
  : cell :=
  match cols, cells with
  | l :: cols', c :: cells' =>
    if label_is col l then c else row_get cols' cells' col
  | _, _ => CNa
  end.

(** [df.rename(columns={old: new}, inplace=True)] *)
Definition rename (old new : pystr) (cols : list label) : list label :=
  map (fun l => if label_is old l then LStr new else l) cols.

(** The world outside the program: what each reader of the loader makes of
    a path ([None] when it raises), the reading of the clock, and the
    library's [datetime.strptime] ([None] when it raises [ValueError]). *)
Record Env : Type := Build_Env {
  read_excel : pystr -> option DataFrame;
  read_csv : pystr -> pystr -> option DataFrame;
  now : datetime;
  strptime : pystr -> pystr -> option datetime
}.

End Frame.

(* ================================================================== *)
(** ** data_processor.py *)

Module DataProcessor.

Import Models Frame.

(** The attributes of an instance. *)
Record self_ : Type := Build_self {
  errors : list pystr;
  warnings : list pystr
}.

(** [DataProcessor()] *)
Definition __init__ : self_ := Build_self [] [].

(** An exception, with the text [str(e)] gives. *)
Inductive exn : Type := Exception (text : pystr).

Definition str_exn (e : exn) : pystr := match e with Exception t => t end.

Inductive outcome (A : Type) : Type :=
| Ok (a : A)
| Raise (e : exn).
Arguments Ok {A} a.
Arguments Raise {A} e.

(** A method body: from the instance to its outcome and the instance
    after it. *)
Definition M (A : Type) : Type := self_ -> outcome A * self_.

Definition ret {A} (a : A) : M A := fun s => (Ok a, s).

Definition raise {A} (e : exn) : M A := fun s => (Raise e, s).

Definition bind {A B} (m : M A) (f : A -> M B) : M B :=
  fun s =>
    match m s with
    | (Ok a, s') => f a s'
    | (Raise e, s') => (Raise e, s')
    end.

(** [try: m except Exception as e: h e] *)
Definition try_except {A} (m : M A) (h : exn -> M A) : M A :=
  fun s =>
    match m s with
    | (Ok a, s') => (Ok a, s')
    | (Raise e, s') => h e s'
    end.

Notation "x <- m ;; k" := (bind m (fun x => k))
  (at level 61, m at next level, right associativity).
Notation "m ;;; k" := (bind m (fun _ => k))
  (at level 61, right associativity).

(** [self.warnings.append(msg)] *)
Definition warn (msg : pystr) : M Datatypes.unit :=
  fun s => (Ok tt, Build_self (errors s) (warnings s ++ [msg])).

(** [self.errors.append(msg)] *)
Definition error (msg : pystr) : M Datatypes.unit :=
  fun s => (Ok tt, Build_self (errors s ++ [msg]) (warnings s)).

(** The text of [{index + 1}] in a message. *)
Definition row_number (row_index : index) : M pystr :=
  match row_index with
  | IInt z => ret (str_of_Z (z + 1))
  | INum next => ret next
  | IOther type_error => raise (Exception type_error)
  end.

(** [self.warnings.append(f"Строка {row_index + 1}: {what}")]: the message
    is built, and may raise, before anything is appended. *)
Definition warn_row (row_index : index) (what : pystr) : M Datatypes.unit :=
  n <- row_number row_index ;;
  warn (u "Строка " ++ n ++ u ": " ++ what).

(** The class attribute [CITY_CORRECTIONS], in the order it is written. *)
Definition CITY_CORRECTIONS : list (pystr * pystr) :=
  [ (u "о", u "Одинцово");
    (u "иево", u "Сергиев Посад");
    (u "иево-посадск", u "Сергиев Посад");
    (u "с. посад", u "Сергиев Посад");
    (u "с.посад", u "Сергиев Посад");
    (u "серг посад", u "Сергиев Посад");
    (u "серг. посад", u "Сергиев Посад");
    (u "сергиево", u "Сергиев Посад");
    (u "сергиев", u "Сергиев Посад");
    (u "киржачск", u "Киржач") ].

(** *** The loader and the structure check *)

Definition encodings : list pystr :=
  [u "utf-8"; u "cp1251"; u "latin1"; u "ISO-8859-1"].

Fixpoint first_csv (env : Env) (file_path : pystr) (encs : list pystr)
  : option DataFrame :=
  match encs with
  | [] => None
  | encoding :: encs' =>
    match read_csv env file_path encoding with
    | Some df => Some df
    | None => first_csv env file_path encs'
    end
  end.

Definition _load_data (env : Env) (file_path : pystr) : M (option DataFrame) :=
  match read_excel env file_path with
  | Some df => ret (Some df)
  | None =>
    match first_csv env file_path encodings with
    | Some df => ret (Some df)
    | None =>
      error (u "Не удалось загрузить файл ни в одном из поддерживаемых форматов") ;;;
      ret None
    end
  end.

Definition required_columns : list pystr :=
  [u "Дата"; u "Водитель"; u "Авто"; u "Адрес выгрузки"; u "Сумма за рейсы"].

(** The first column whose label is a string that contains [col], both in
    lower case. *)
Fixpoint find_partial (col : pystr) (cols : list label) : option pystr :=
  match cols with
  | [] => None
  | LStr actual_col :: cols' =>
    if contains (lower col) (lower actual_col) then Some actual_col
    else find_partial col cols'
  | LOther :: cols' => find_partial col cols'
  end.

(** The loop over the required columns: the labels after the renamings and
    the columns that were not found. *)
Fixpoint check_columns (required : list pystr) (cols : list label)
    (missing_columns : list pystr) : list label * list pystr :=
  match required with
  | [] => (cols, missing_columns)
  | col :: required' =>
    if has_column col cols then check_columns required' cols missing_columns
    else
      match find_partial col cols with
      | Some actual_col =>
        check_columns required' (rename actual_col col cols) missing_columns
      | None => check_columns required' cols (missing_columns ++ [col])
      end
  end.

(** The frame is renamed in place: the value is the answer and the frame
    after the call. *)
Definition _validate_structure (df : DataFrame) : M (bool * DataFrame) :=
  let (cols, missing_columns) := check_columns required_columns (columns df) [] in
  let df' := Build_DataFrame cols (rows df) in
  match missing_columns with
  | _ :: _ =>
    error (u "Отсутствуют необходимые колонки: " ++ join (u ", ") missing_columns) ;;;
    ret (false, df')
  | [] => ret (true, df')
  end.

(** *** The field extractors *)

Definition date_formats : list pystr :=
  [u "%d.%m.%Y"; u "%Y-%m-%d"; u "%d/%m/%Y"].

(** The loop over the formats: the first one [strptime] accepts. *)
Fixpoint first_format (env : Env) (text : pystr) (fmts : list pystr)
  : option datetime :=
  match fmts with
  | [] => None
  | fmt :: fmts' =>
    match strptime env text fmt with
    | Some d => Some d
    | None => first_format env text fmts'
    end
  end.

Definition _parse_date (env : Env) (date_str : cell) (row_index : index)
  : M (option datetime) :=
  if isna date_str then
    warn_row row_index (u "пустая дата") ;;;
    ret (Some (now env))
  else
    try_except
      match date_str with
      | CDatetime d _ => ret (Some d)
      | _ =>
        match first_format env (str date_str) date_formats with
        | Some d => ret (Some d)
        | None =>
          warn_row row_index
            (u "не удалось распознать дату '" ++ str date_str ++ u "'") ;;;
          ret (Some (now env))
        end
      end
      (fun e =>
         warn_row row_index (u "ошибка при парсинге даты: " ++ str_exn e) ;;;
         ret (Some (now env))).

Definition _extract_driver_name (driver_info : cell) (row_index : index)
  : M pystr :=
  if isna driver_info then
    warn_row row_index (u "водитель не указан") ;;;
    ret (u "НЕ УКАЗАН")
  else
    let driver_str := str driver_info in
    if contains (u ",") driver_str then
      ret (strip (hd [] (split (u ",") driver_str)))
    else
      warn_row row_index (u "не удалось извлечь имя водителя") ;;;
      ret driver_str.

(** [Газель\s+([А-Я0-9]+)] *)
Definition car_pattern : Re.pattern :=
  Re.Pattern (Re.Seq (Re.lit (u "Газель")) (Re.Rep 1 Re.space))
             (Re.Rep 1 (Re.ASet [Re.CRange 1040 1071; Re.CRange 48 57]))
             Re.Empty.

Definition _extract_car_number (car_info : cell) (row_index : index)
  : M pystr :=
  if isna car_info then
    warn_row row_index (u "автомобиль не указан") ;;;
    ret (u "НЕ УКАЗАН")
  else
    let car_str := str car_info in
    match Re.search car_pattern car_str false with
    | Some group1 => ret group1
    | None =>
      warn_row row_index (u "не удалось извлечь номер автомобиля") ;;;
      ret (u "НЕ УКАЗАН")
    end.

(** *** The address parser *)

(** The dictionary [locations]: city to priority, in insertion order. *)
Definition locations_t : Type := list (pystr * Z).

(** [locations.get(city)]; [None] when [city not in locations]. *)
Fixpoint dict_get (city : pystr) (locations : locations_t) : option Z :=
  match locations with
  | [] => None
  | (k, v) :: rest => if str_eqb k city then Some v else dict_get city rest
  end.

(** [locations[city] = priority]: a key that is there keeps its place. *)
Fixpoint dict_set (city : pystr) (priority : Z) (locations : locations_t)
  : locations_t :=
  match locations with
  | [] => [(city, priority)]
  | (k, v) :: rest =>
    if str_eqb k city then (k, priority) :: rest
    else (k, v) :: dict_set city priority rest
  end.

(** [rf'\b{abbr}\b'] *)
Definition abbr_pattern (abbr : pystr) : Re.pattern :=
  Re.Pattern Re.Empty (Re.seqs [Re.WordB; Re.of_abbr abbr; Re.WordB]) Re.Empty.

(** [[А-Яа-я\-]] *)
Definition cyrillic : Re.atom :=
  Re.ASet [Re.CRange 1040 1071; Re.CRange 1072 1103; Re.CChar 45].

(** The list [patterns], in its order:
    - [(?:го\s+|г\.\s*|город\s+|городской округ\s+)([А-Яа-я\-]+)]
    - [(?:^|\s)(Волоколамск|Одинцово|Сергиев\s*Посад|Киржач|Аленино)(?:\s|$|,)]
    - [([А-Яа-я\-]+)(?:\s+(?:муниципальный округ|район|го))]
    - [(?:с\.|д\.|п\.|село|деревня|поселок)\s*([А-Яа-я\-]+)] *)
Definition patterns : list Re.pattern :=
  [ Re.Pattern
      (Re.alts [ Re.Seq (Re.lit (u "го")) (Re.Rep 1 Re.space);
                 Re.Seq (Re.lit (u "г.")) (Re.Rep 0 Re.space);
                 Re.Seq (Re.lit (u "город")) (Re.Rep 1 Re.space);
                 Re.Seq (Re.lit (u "городской округ")) (Re.Rep 1 Re.space) ])
      (Re.Rep 1 cyrillic)
      Re.Empty;
    Re.Pattern
      (Re.Alt Re.Bol (Re.Atom Re.space))
      (Re.alts [ Re.lit (u "Волоколамск");
                 Re.lit (u "Одинцово");
                 Re.seqs [Re.lit (u "Сергиев"); Re.Rep 0 Re.space;
                          Re.lit (u "Посад")];
                 Re.lit (u "Киржач");
                 Re.lit (u "Аленино") ])
      (Re.alts [Re.Atom Re.space; Re.Eol; Re.Atom (Re.ALit 44)]);
    Re.Pattern
      Re.Empty
      (Re.Rep 1 cyrillic)
      (Re.Seq (Re.Rep 1 Re.space)
              (Re.alts [ Re.lit (u "муниципальный округ");
                         Re.lit (u "район");
                         Re.lit (u "го") ]));
    Re.Pattern
      (Re.Seq (Re.alts [ Re.lit (u "с."); Re.lit (u "д."); Re.lit (u "п.");
                         Re.lit (u "село"); Re.lit (u "деревня");
                         Re.lit (u "поселок") ])
              (Re.Rep 0 Re.space))
      (Re.Rep 1 cyrillic)
      Re.Empty ].

(** [([А-Яа-я]+)\s+обл] *)
Definition region_pattern : Re.pattern :=
  Re.Pattern Re.Empty
             (Re.Rep 1 (Re.ASet [Re.CRange 1040 1071; Re.CRange 1072 1103]))
             (Re.Seq (Re.Rep 1 Re.space) (Re.lit (u "обл"))).

(** [enumerate(l)] *)
Definition enumerate {A} (l : list A) : list (nat * A) :=
  combine (seq 0 (List.length l)) l.

(** The body of the loop over [CITY_CORRECTIONS.items()]. *)
Definition correction_step (address : pystr) (locations : locations_t)
    (item : pystr * pystr) : locations_t :=
  let (abbr, full_city) := item in
  match Re.search (abbr_pattern abbr) (lower address) false with
  | Some _ => dict_set full_city 3 locations
  | None => locations
  end.

(** The body of the loop over [enumerate(patterns)]. *)
Definition pattern_step (address : pystr) (locations : locations_t)
    (item : nat * Re.pattern) : locations_t :=
  let (i, pattern) := item in
  match Re.search pattern address true with
  | Some group1 =>
    let city := strip group1 in
    if negb (str_eqb (lower city) (u "дмитров")) then
      let priority := (3 - Z.of_nat i)%Z in
      match dict_get city locations with
      | None => dict_set city priority locations
      | Some p =>
        if (p <? priority)%Z then dict_set city priority locations
        else locations
      end
    else locations
  | None => locations
  end.

(** The region of a line, which nothing reads afterwards. *)
Definition region_of (address : pystr) : pystr :=
  match Re.search region_pattern address false with
  | Some group1 => group1
  | None => u "Московская"
  end.

(** The body of the loop over the lines of the address. *)
Definition address_step (locations : locations_t) (address : pystr)
  : locations_t :=
  let address := strip address in
  match address with
  | [] => locations
  | _ :: _ =>
    let locations :=
      fold_left (correction_step address) CITY_CORRECTIONS locations in
    let locations :=
      fold_left (pattern_step address) (enumerate patterns) locations in
    let region := region_of address in
    locations
  end.

(** The place of [x] in a list sorted by descending priority: before the
    first entry whose priority is not greater. *)
Fixpoint insert_desc (x : pystr * Z) (l : locations_t) : locations_t :=
  match l with
  | [] => [x]
  | y :: l' =>
    if (snd x <? snd y)%Z then y :: insert_desc x l' else x :: l
  end.

(** [sorted(items, key=lambda x: x[1], reverse=True)]: a stable sort, so
    entries of equal priority keep the order of the dictionary. *)
Definition sorted_desc (l : locations_t) : locations_t :=
  fold_right insert_desc [] l.

(** What the sort establishes: the priorities never increase along the
    list. *)
Definition desc (l : locations_t) : Prop :=
  StronglySorted (fun a b : pystr * Z => (snd b <= snd a)%Z) l.

(** The lines of the address: the text without the double quotes at its
    two ends (code point 34), split at the newlines (code point 10). *)
Definition address_lines (address_text : pystr) : list pystr :=
  split [10%N] (strip_chars [34%N] address_text).

(** The dictionary [locations] when the loop over the lines is over. *)
Definition locations_of (address_text : pystr) : locations_t :=
  fold_left address_step (address_lines address_text) [].

Definition _parse_addresses (address_text : pystr) : list pystr :=
  map fst (sorted_desc (locations_of address_text)).

(** [locations[:3]] *)
Definition top3 (locations : list pystr) : list pystr := firstn 3 locations.

Definition unknown_route : list pystr := [u "Дмитров"; u "Неизвестный пункт"].

Definition _extract_route (address_text : cell) (row_index : index)
  : M (list pystr) :=
  if isna address_text || negb (truthy address_text) then
    warn_row row_index (u "адрес не указан") ;;;
    ret unknown_route
  else
    let locations := _parse_addresses (str address_text) in
    match locations with
    | [] =>
      warn_row row_index (u "не удалось извлечь маршрут") ;;;
      ret unknown_route
    | _ :: _ =>
      let route := [u "Дмитров"] in
      let route := route ++ top3 locations in
      ret route
    end.

(** *** The amount parser *)

(** [str(amount_str).replace(',', '.').replace(' ', '')] *)
Definition clean_amount (amount_str : cell) : pystr :=
  replace_char 32 [] (replace_char 44 (u ".") (str amount_str)).

Definition _parse_amount (amount_str : cell) (row_index : index)
  : M Dec.Decimal :=
  if isna amount_str then
    warn_row row_index (u "сумма не указана") ;;;
    ret Dec.zero_00
  else
    try_except
      match Dec.of_str (clean_amount amount_str) with
      | Some d => ret d
      | None => raise (Exception (Dec.error_text (clean_amount amount_str)))
      end
      (fun e =>
         warn_row row_index
           (u "не удалось преобразовать сумму: " ++ str_exn e) ;;;
         ret Dec.zero_00).

(** *** Rows, the table, the file *)

Definition _process_row (env : Env) (cols : list label) (row : list cell)
    (index : index) : M (option TransportService) :=
  date <- _parse_date env (row_get cols row (u "Дата")) index ;;
  match date with
  | None => ret None
  | Some date =>
    driver_name <- _extract_driver_name (row_get cols row (u "Водитель")) index ;;
    car_number <- _extract_car_number (row_get cols row (u "Авто")) index ;;
    route <- _extract_route (row_get cols row (u "Адрес выгрузки")) index ;;
    amount <- _parse_amount (row_get cols row (u "Сумма за рейсы")) index ;;
    ret (Some (new_TransportService date driver_name car_number route
                                    amount amount))
  end.

(** The loop of [_process_data] over [df.iterrows()], [services] being the
    list built so far. *)
Fixpoint process_rows (env : Env) (cols : list label)
    (rs : list (index * list cell)) (services : list TransportService)
  : M (list TransportService) :=
  match rs with
  | [] => ret services
  | (index, row) :: rs' =>
    services' <-
      try_except
        (service <- _process_row env cols row index ;;
         match service with
         | Some service => ret (services ++ [service])
         | None => ret services
         end)
        (fun e =>
           n <- row_number index ;;
           warn (u "Ошибка в строке " ++ n ++ u ": " ++ str_exn e) ;;;
           ret services) ;;
    process_rows env cols rs' services'
  end.

Definition _process_data (env : Env) (df : DataFrame)
  : M (list TransportService) :=
  process_rows env (columns df) (rows df) [].

(** [process_file]: the two lists of the instance are set to new empty
    lists, and every exception of the body ends in a result.  A result
    holds the list the instance holds at that moment; the instance gets new
    lists at the next call, so a result already returned never changes. *)
Definition process_file (env : Env) (file_path : pystr)
  : self_ -> ProcessingResult * self_ :=
  fun self0 =>
    let self := Build_self [] [] in
    let body : M ProcessingResult :=
      df <- _load_data env file_path ;;
      match df with
      | None =>
        fun self =>
          (Ok (Build_ProcessingResult false (u "Не удалось загрузить файл")
                 None (errors self) []), self)
      | Some df =>
        ok_df <- _validate_structure df ;;
        let (ok, df) := ok_df : bool * DataFrame in
        if negb ok then
          fun self =>
            (Ok (Build_ProcessingResult false (u "Неверная структура файла")
                   None (errors self) []), self)
        else
          services <- _process_data env df ;;
          fun self =>
            (Ok (Build_ProcessingResult true
                   (u "Обработано "
                      ++ str_of_Z (Z.of_nat (List.length services))
                      ++ u " записей")
                   (Some services) [] (warnings self)), self)
      end in
    match body self with
    | (Ok result, self') => (result, self')
    | (Raise e, self') =>
      let self'' := Build_self (errors self' ++ [str_exn e]) (warnings self') in
      (Build_ProcessingResult false (u "Критическая ошибка: " ++ str_exn e)
         None (errors self'') [], self'')
    end.

End DataProcessor.

(* ================================================================== *)
(** ** gui/modern_ui.py: the edit of a description cell *)

Module ModernUI.

Import Models.

(** [[s.strip() for s in route_str.split("-")]] *)
Definition route_of_text (route_str : pystr) : list pystr :=
  map strip (split (u "-") route_str).

(** The branch [col == 1] of [ModernTableModel.setData] on the service of
    the edited row, [value] being [str(value)]. *)
Definition setData_description (service : TransportService) (value : pystr)
  : TransportService :=
  let service :=
    Build_TransportService (date service) (driver_name service)
      (car_number service) (route service) (quantity service) (unit service)
      (price service) (amount service) (Some value) in
  if contains (u "маршрут") value then
    let parts := split (u "маршрут") value in
    if (1 <? List.length parts)%nat then
      let route_str := strip (nth 1 parts []) in
      match route_str with
      | _ :: _ =>
        Build_TransportService (date service) (driver_name service)
          (car_number service) (route_of_text route_str) (quantity service)
          (unit service) (price service) (amount service)
          (_description service)
      | [] => service
      end
    else service
  else service.

(** The branch [col == 1] of [ModernTableModel.data] for the edit role:
    the text the description cell offers for the edit.  (For the display
    role the cell shows a shorter text of four lines, built from the date,
    the driver, the vehicle and the route as well.) *)
Definition data_description (service : TransportService) : pystr :=
  description service.

End ModernUI.

(* ================================================================== *)
(** ** The pattern loop as the specification words it *)

Module Worded.

Import DataProcessor.

(** Only the first pattern that matches the line contributes: the loop
    stops at the first match. *)
Fixpoint first_match_only (address : pystr) (locations : locations_t)
    (items : list (nat * Re.pattern)) : locations_t :=
  match items with
  | [] => locations
  | (i, pattern) :: rest =>
    match Re.search pattern address true with
    | Some _ => pattern_step address locations (i, pattern)
    | None => first_match_only address locations rest
    end
  end.

End Worded.

(* ================================================================== *)
(** ** Sample inputs *)

Module Sample.

Import Models Frame DataProcessor.

Definition header : list label :=
  [LStr (u "Дата"); LStr (u "Водитель"); LStr (u "Авто");
   LStr (u "Адрес выгрузки"); LStr (u "Сумма за рейсы")].

Definition trip (date driver car address amount : string) : list cell :=
  [CStr (u date); CStr (u driver); CStr (u car); CStr (u address);
   CStr (u amount)].

Definition row_klin : list cell :=
  trip "15.03.2024" "Иванов И.И., вод. удост. 5001" "Газель А123ВС"
       "Московская обл, г. Клин, д. Борки" "1 234,50".

Definition row_refund : list cell :=
  trip "15.03.2024" "Петров П.П., вод. удост. 5002" "Газель В456ЕК"
       "г. Клин" "-100".

Definition trips : DataFrame :=
  Build_DataFrame header [(IInt 0, row_klin); (IInt 1, row_refund)].

(** A row without an amount. *)
Definition row_gap : list cell :=
  [CStr (u "15.03.2024"); CStr (u "Иванов И.И., вод. удост. 5001");
   CStr (u "Газель А123ВС"); CStr (u "г. Клин"); CNa].

Definition gaps : DataFrame :=
  Build_DataFrame header [(IInt 0, row_gap)].

Definition march15 : datetime := Datetime 2024 3 15 0 0 0.

(** A world with two readable files, [trips.csv] and [gaps.csv], both in
    UTF-8. *)
Definition env : Env :=
  Build_Env
    (fun _ => None)
    (fun file_path encoding =>
       if str_eqb encoding (u "utf-8") then
         if str_eqb file_path (u "trips.csv") then Some trips
         else if str_eqb file_path (u "gaps.csv") then Some gaps
         else None
       else None)
    (Datetime 2026 1 12 9 30 0)
    (fun text fmt =>
       if str_eqb text (u "15.03.2024") && str_eqb fmt (u "%d.%m.%Y")
       then Some march15 else None).

Definition service_klin : TransportService :=
  new_TransportService march15 (u "Иванов И.И.") (u "А123ВС")
    [u "Дмитров"; u "Клин"; u "Борки"]
    (Dec.Finite false 123450 (-2)) (Dec.Finite false 123450 (-2)).

Definition service_refund : TransportService :=
  new_TransportService march15 (u "Петров П.П.") (u "В456ЕК")
    [u "Дмитров"; u "Клин"]
    (Dec.Finite true 100 0) (Dec.Finite true 100 0).

End Sample.

(* ================================================================== *)
(** ** What a match consists of *)

Module Lang.

Import Re.

(** The texts an expression can consume, whatever surrounds them: [^], [$]
    and [\b] consume nothing. *)
Fixpoint lang (ic : bool) (r : regex) (m : pystr) : Prop :=
  match r with
  | Empty | Bol | Eol | WordB => m = []
  | Atom a => exists c, m = [c] /\ atom_matches ic a c = true
  | Seq r1 r2 => exists m1 m2, m = m1 ++ m2 /\ lang ic r1 m1 /\ lang ic r2 m2
  | Alt r1 r2 => lang ic r1 m \/ lang ic r2 m
  | Rep min a =>
    (min <= List.length m)%nat
    /\ Forall (fun c => atom_matches ic a c = true) m
  end.

(** An upper-case Cyrillic letter of the basic alphabet or an ASCII digit:
    the set [[А-Я0-9]]. *)
Definition is_plate_char (c : N) : bool :=
  between 1040 1071 c || between 48 57 c.

End Lang.

(* ================================================================== *)
(** ** What the dictionary [locations] keeps *)

Module Inv.

Import DataProcessor.

(** An entry as the address parser records them: a city that is not empty
    and not the origin, with a priority from 0 to 3. *)
Definition good_entry (kv : pystr * Z) : Prop :=
  fst kv <> [] /\ lower (fst kv) <> u "дмитров" /\ (0 <= snd kv <= 3)%Z.

(** No city is recorded twice and every entry is as above. *)
Definition good (locations : locations_t) : Prop :=
  NoDup (map fst locations) /\ Forall good_entry locations.

End Inv.

(* ================================================================== *)
(** ** What a method leaves in the instance, and what a row gives *)

Module Effect.

Import Models Frame DataProcessor.

(** From [self] to [self']: the errors are as they were and at most [n]
    warnings were appended. *)
Definition appends (n : nat) (self self' : self_) : Prop :=
  errors self' = errors self
  /\ exists ws, warnings self' = warnings self ++ ws
                /\ (List.length ws <= n)%nat.

(** The label is a row number. *)
Definition numbered (row : index * list cell) : Prop :=
  exists z, fst row = IInt z.

(** The service [_process_row] builds from a row, on a new instance. *)
Definition row_service (env : Env) (cols : list label)
    (row : index * list cell) : option TransportService :=
  match fst (_process_row env cols (snd row) (fst row) __init__) with
  | Ok service => service
  | Raise _ => None
  end.

End Effect.

(* ================================================================== *)
(** ** Decimal arithmetic in the default context

    Sums and products of [Decimal] values are rounded to the 28 digits of
    the default context, half to even, with the exponent limits of that
    context; the signals the context traps ([InvalidOperation] and
    [Overflow] here) are exceptions, the others pass unnoticed.  The
    operations follow the library's reference implementation. *)

Module DecArith.

Import Dec.

Local Open Scope Z_scope.

Definition prec : Z := 28.
Definition Emax : Z := 999999.
Definition Emin : Z := -999999.
Definition Etiny : Z := Emin - prec + 1.
Definition Etop : Z := Emax - prec + 1.

(** The exceptions an operation can raise. *)
Inductive signal : Type := InvalidOperation | Overflow.

Inductive result (A : Type) : Type :=
| Value (a : A)
| Trap (s : signal).
Arguments Value {A} a.
Arguments Trap {A} s.

(** [len(str(c))], the number of decimal digits of a coefficient. *)
Fixpoint ndigits_fuel (fuel : nat) (c : N) : Z :=
  match fuel with
  | O => 1
  | S f => if (c <? 10)%N then 1 else 1 + ndigits_fuel f (c / 10)%N
  end.

Definition ndigits (c : N) : Z := ndigits_fuel (N.to_nat (N.size c)) c.

Definition pow10 (k : Z) : N := Z.to_N (10 ^ k).

(** [_fix] of the finite number with sign [sign], coefficient [c] and
    exponent [e]. *)
Definition fix_finite (sign : bool) (c : N) (e : Z) : result Decimal :=
  if (c =? 0)%N then
    Value (Finite sign 0 (Z.min (Z.max e Etiny) Emax))
  else
    let len := ndigits c in
    let exp_min := len + e - prec in
    if exp_min >? Etop then Trap Overflow
    else
      let exp_min := Z.max exp_min Etiny in
      if e <? exp_min then
        let digits := len + e - exp_min in
        (* fewer than no digit left: the number is replaced by 1E(exp_min-1) *)
        let c1 := if digits <? 0 then 1%N else c in
        let len1 := if digits <? 0 then 1 else len in
        let digits := Z.max digits 0 in
        let drop := len1 - digits in
        let q := (c1 / pow10 drop)%N in
        let r := (c1 mod pow10 drop)%N in
        let half := (5 * pow10 (drop - 1))%N in
        (* half to even: up when more than half is dropped, or exactly half
           and the digit kept last is odd *)
        let up := (half <? r)%N || ((r =? half)%N && N.odd q) in
        let coeff := if up then (q + 1)%N else q in
        let carry := up && (prec <? ndigits coeff) in
        let coeff := if carry then (coeff / 10)%N else coeff in
        let exp_min := if carry then exp_min + 1 else exp_min in
        if exp_min >? Etop then Trap Overflow
        else Value (Finite sign coeff exp_min)
      else Value (Finite sign c e).

(** [_fix_nan]: a diagnostic longer than the precision loses its leading
    digits. *)
Definition fix_nan (sign signaling : bool) (payload : N) : Decimal :=
  if prec <? ndigits payload
  then NaN sign signaling (payload mod pow10 prec)%N
  else NaN sign signaling payload.

(** [_check_nans]: a signaling NaN is an invalid operation, a quiet one is
    the answer. *)
Definition check_nans (a b : Decimal) : option (result Decimal) :=
  match a, b with
  | NaN _ true _, _ => Some (Trap InvalidOperation)
  | _, NaN _ true _ => Some (Trap InvalidOperation)
  | NaN s false p, _ => Some (Value (fix_nan s false p))
  | _, NaN s false p => Some (Value (fix_nan s false p))
  | _, _ => None
  end.

(** The two operands of a sum of numbers that are not zero, brought to one
    exponent ([_normalize]): an operand too small to be seen at the
    precision is replaced by a small one that rounds the same way. *)
Definition normalize (c1 : N) (e1 : Z) (c2 : N) (e2 : Z) : N * N * Z :=
  let swap := e1 <? e2 in
  let tmp_c := if swap then c2 else c1 in
  let tmp_e := if swap then e2 else e1 in
  let other_c := if swap then c1 else c2 in
  let other_e := if swap then e1 else e2 in
  let exp := tmp_e + Z.min (-1) (ndigits tmp_c - prec - 2) in
  let small := ndigits other_c + other_e - 1 <? exp in
  let other_c := if small then 1%N else other_c in
  let other_e := if small then exp else other_e in
  let tmp_c := (tmp_c * pow10 (tmp_e - other_e))%N in
  if swap then (other_c, tmp_c, other_e) else (tmp_c, other_c, other_e).

(** [a + b] *)
Definition add (a b : Decimal) : result Decimal :=
  match check_nans a b with
  | Some r => r
  | None =>
    match a, b with
    | Infinity s1, Infinity s2 =>
      if Bool.eqb s1 s2 then Value a else Trap InvalidOperation
    | Infinity _, _ => Value a
    | _, Infinity _ => Value b
    | Finite s1 c1 e1, Finite s2 c2 e2 =>
      let exp := Z.min e1 e2 in
      if (c1 =? 0)%N && (c2 =? 0)%N then
        fix_finite (s1 && s2) 0 exp
      else if (c1 =? 0)%N then
        let exp := Z.max exp (e2 - prec - 1) in
        fix_finite s2 (c2 * pow10 (e2 - exp))%N exp
      else if (c2 =? 0)%N then
        let exp := Z.max exp (e1 - prec - 1) in
        fix_finite s1 (c1 * pow10 (e1 - exp))%N exp
      else
        let '(n1, n2, e) := normalize c1 e1 c2 e2 in
        if Bool.eqb s1 s2 then fix_finite s1 (n1 + n2)%N e
        else if (n1 =? n2)%N then fix_finite false 0 exp
        else if (n1 <? n2)%N then fix_finite s2 (n2 - n1)%N e
        else fix_finite s1 (n1 - n2)%N e
    | _, _ => Trap InvalidOperation
    end
  end.

(** [a * b] *)
Definition mul (a b : Decimal) : result Decimal :=
  match check_nans a b with
  | Some r => r
  | None =>
    match a, b with
    | Infinity s1, Infinity s2 => Value (Infinity (xorb s1 s2))
    | Infinity s1, Finite s2 c2 _ =>
      if (c2 =? 0)%N then Trap InvalidOperation
      else Value (Infinity (xorb s1 s2))
    | Finite s1 c1 _, Infinity s2 =>
      if (c1 =? 0)%N then Trap InvalidOperation
      else Value (Infinity (xorb s1 s2))
    | Finite s1 c1 e1, Finite s2 c2 e2 =>
      fix_finite (xorb s1 s2) (c1 * c2)%N (e1 + e2)
    | _, _ => Trap InvalidOperation
    end
  end.

(** [Decimal(n)] of an [int]. *)
Definition of_int (n : Z) : Decimal := Finite (n <? 0) (Z.abs_N n) 0.

End DecArith.

(* ================================================================== *)
(** ** models.py: the invoice *)

Module Invoice.

Import Models DecArith.

Local Open Scope Z_scope.

(** The dataclass [InvoiceData] ([ActData] has the same fields). *)
Record InvoiceData : Type := Build_InvoiceData {
  number : pystr;
  date : datetime;
  customer : pystr;
  customer_details : option pystr;
  services : list TransportService
}.

(** What [sum] returns: the [int] it starts from, or a [Decimal]. *)
Inductive number_t : Type :=
| NInt (z : Z)
| NDec (d : Dec.Decimal).

Definition as_number (r : result Dec.Decimal) : result number_t :=
  match r with
  | Value d => Value (NDec d)
  | Trap s => Trap s
  end.

(** One step of [sum]: [acc + amount].  For the [int] the sum starts from
    this is [amount.__radd__(acc)], the sum of [amount] and [Decimal(acc)]
    in that order. *)
Definition sum_step (acc : result number_t) (amount : Dec.Decimal)
  : result number_t :=
  match acc with
  | Trap s => Trap s
  | Value (NInt z) => as_number (add amount (of_int z))
  | Value (NDec a) => as_number (add a amount)
  end.

(** The property [total_amount]:
    [sum(service.amount for service in self.services)] *)
Definition total_amount (self : InvoiceData) : result number_t :=
  fold_left sum_step (map Models.amount (services self)) (Value (NInt 0)).

(** The property [services_count] *)
Definition services_count (self : InvoiceData) : Z :=
  Z.of_nat (List.length (services self)).

(** The value of a finite decimal in units of 10^-q: an integer when the
    decimal has at most [q] digits after the point. *)
Definition scaled (q : Z) (d : Dec.Decimal) : Z :=
  match d with
  | Dec.Finite s c e =>
    (if s then - Z.of_N c else Z.of_N c) * 10 ^ (e + q)
  | _ => 0
  end.

Definition number_scaled (q : Z) (n : number_t) : Z :=
  match n with
  | NInt z => z * 10 ^ q
  | NDec d => scaled q d
  end.

(** A finite decimal with at most [q] digits after the point and no
    positive exponent. *)
Definition plain (q : Z) (d : Dec.Decimal) : Prop :=
  match d with
  | Dec.Finite _ _ e => - q <= e <= 0
  | _ => False
  end.

Definition sumZ (l : list Z) : Z := fold_right Z.add 0 l.

End Invoice.

(* ================================================================== *)
(** ** gui/modern_ui.py: the edit of a quantity or a price *)

Module ModernUIEdit.

Import Models DecArith.

Definition with_quantity (service : TransportService) (quantity : Z)
  : TransportService :=
  Build_TransportService (date service) (driver_name service)
    (car_number service) (route service) quantity (unit service)
    (price service) (amount service) (_description service).

Definition with_price (service : TransportService) (price : Dec.Decimal)
  : TransportService :=
  Build_TransportService (date service) (driver_name service)
    (car_number service) (route service) (quantity service) (unit service)
    price (amount service) (_description service).

Definition with_amount (service : TransportService) (amount : Dec.Decimal)
  : TransportService :=
  Build_TransportService (date service) (driver_name service)
    (car_number service) (route service) (quantity service) (unit service)
    (price service) amount (_description service).

(** [service.amount = service.price * service.quantity]; a trapped signal
    leaves the method through a handler that returns [False], with the
    attributes assigned before it kept. *)
Definition recompute_amount (service : TransportService)
  : bool * TransportService :=
  match mul (price service) (of_int (quantity service)) with
  | Value amount => (true, with_amount service amount)
  | Trap _ => (false, service)
  end.

(** The branch [col == 2] of [ModernTableModel.setData]: what the method
    returns and the service of the edited row afterwards.  [int_value] is
    [int(value)], [None] when it raises [ValueError] or [TypeError]. *)
Definition setData_quantity (service : TransportService)
    (int_value : option Z) : bool * TransportService :=
  match int_value with
  | None => (false, service)
  | Some quantity => recompute_amount (with_quantity service quantity)
  end.

(** The branch [col == 4]: the price is [Decimal(str(value))], [text] being
    [str(value)]. *)
Definition setData_price (service : TransportService) (text : pystr)
  : bool * TransportService :=
  match Dec.of_str text with
  | None => (false, service)
  | Some price => recompute_amount (with_price service price)
  end.

(** What [recompute_amount] leaves as it was. *)
Definition same_but_amount (a b : TransportService) : Prop :=
  date b = date a /\ driver_name b = driver_name a
  /\ car_number b = car_number a /\ route b = route a
  /\ quantity b = quantity a /\ unit b = unit a /\ price b = price a
  /\ _description b = _description a.

(** The text of [description] before " маршрут": the part that is not read
    back. *)
Definition before_route (service : TransportService) : pystr :=
  (u "Транспортные услуги" ++ 32 :: strftime_dmY (date service)
    ++ 32 :: u "водит." ++ 32 :: driver_name service
    ++ 44 :: [] ++ 32 :: u "а/м Газель" ++ 32 :: car_number service
    ++ [44])%N.

End ModernUIEdit.

(* ================================================================== *)
(** ** A sample invoice *)

Module InvoiceSample.

Import Models.

(** Two services: 1234.50 and a refund of 100. *)
Definition invoice : Invoice.InvoiceData :=
  Invoice.Build_InvoiceData (u "17") Sample.march15 (u "ООО Ромашка") None
    [Sample.service_klin; Sample.service_refund].

End InvoiceSample.

(* ================================================================== *)
(** ** A sample table without the column of the amounts *)

Module SampleCut.

Import Models Frame DataProcessor.

Definition header : list label :=
  [LStr (u "дата рейса"); LStr (u "Водитель"); LStr (u "Авто");
   LStr (u "Адрес выгрузки")].

Definition cut : DataFrame :=
  Build_DataFrame header
    [(IInt 0, [CStr (u "15.03.2024"); CStr (u "Иванов И.И., вод. удост. 5001");
               CStr (u "Газель А123ВС"); CStr (u "г. Клин")])].

(** A world with one readable file, [cut.csv], in UTF-8. *)
Definition env : Env :=
  Build_Env
    (fun _ => None)
    (fun file_path encoding =>
       if str_eqb encoding (u "utf-8") && str_eqb file_path (u "cut.csv")
       then Some cut else None)
    (Datetime 2026 1 12 9 30 0)
    (fun _ _ => None).

End SampleCut.

(* ================================================================== *)
(** ** Labels that name no required column *)

Module Columns.

Import Frame.

(** No label of [cols] has the required name [col] in it, in any case of
    the letters. *)
Definition names_nothing (col : pystr) (cols : list label) : Prop :=
  Forall (fun l => match l with
                   | LStr s => contains (lower col) (lower s) = false
                   | LOther => True
                   end) cols.

End Columns.

(* ================================================================== *)
(** ** Amounts as they are written *)

Module AmountText.

Local Open Scope N_scope.

(** A run of ASCII digits and spaces (U+0020): the digits of a number with
    spaces between its groups. *)
Definition written (s : pystr) : bool :=
  forallb (fun c => Dec.is_digit c || (c =? 32)) s.

(** The digits of such a run. *)
Definition digits_of (s : pystr) : pystr := filter Dec.is_digit s.

End AmountText.

(* ================================================================== *)
(** ** Sample row labels *)

Module SampleLabels.

Import Frame.

(** The label of a row that is labelled by a text: [index + 1] raises
    [TypeError] with this message (code point 34 is the double quote). *)
Definition name : index :=
  IOther (u "can only concatenate str (not " ++ [34%N] ++ u "int"
            ++ [34%N] ++ u ") to str").

(** The label 1.5: [index + 1] is 2.5. *)
Definition half : index := INum (u "2.5").

End SampleLabels.

(* ================================================================== *)
(** ** The cities of one priority *)

Module Ranked.

Import DataProcessor.

(** The entries of the dictionary that have the priority [p], in the order
    of the dictionary. *)
Definition at_rank (p : Z) (locations : locations_t) : locations_t :=
  filter (fun kv => (snd kv =? p)%Z) locations.

End Ranked.

(* ================================================================== *)
(** * Properties *)

Import Models Frame DataProcessor.

Local Open Scope Z_scope.

(** Closed statements are settled by evaluation, one conjunct at a time. *)
Ltac conjuncts := repeat match goal with |- _ /\ _ => split end.
Ltac evaluate :=
  cbv zeta; conjuncts;
  first [ vm_compute; reflexivity | vm_compute; discriminate
        | vm_compute; tauto ].

(** ** Strings and the dictionary *)

Lemma str_eqb_eq (a b : pystr) : str_eqb a b = true <-> a = b.
Proof.
  revert b; induction a as [|x a IH]; intros [|y b]; simpl; split;
    try discriminate; try reflexivity.
  - intros H. apply andb_true_iff in H as [Hx Hab].
    apply N.eqb_eq in Hx. apply IH in Hab. now subst.
  - intros H. injection H as -> ->.
    apply andb_true_iff. split; [apply N.eqb_refl | now apply IH].
Qed.

Lemma str_eqb_refl (a : pystr) : str_eqb a a = true.
Proof. now apply str_eqb_eq. Qed.

Lemma str_eqb_neq (a b : pystr) : str_eqb a b = false <-> a <> b.
Proof.
  split.
  - intros H E. apply str_eqb_eq in E. congruence.
  - intros H. destruct (str_eqb a b) eqn:E; [|reflexivity].
    apply str_eqb_eq in E. contradiction.
Qed.

Lemma dict_get_set_same (k : pystr) (v : Z) (d : locations_t) :
  dict_get k (dict_set k v d) = Some v.
Proof.
  induction d as [|[k' v'] d IH]; simpl.
  - now rewrite str_eqb_refl.
  - destruct (str_eqb k' k) eqn:E; simpl; rewrite E; [reflexivity | exact IH].
Qed.

Lemma dict_get_set_other (k k' : pystr) (v : Z) (d : locations_t) :
  k <> k' -> dict_get k' (dict_set k v d) = dict_get k' d.
Proof.
  intros Hne. induction d as [|[k0 v0] d IH]; simpl.
  - apply str_eqb_neq in Hne. now rewrite Hne.
  - destruct (str_eqb k0 k) eqn:E; simpl.
    + apply str_eqb_eq in E. subst k0.
      apply str_eqb_neq in Hne. now rewrite Hne.
    + destruct (str_eqb k0 k'); [reflexivity | exact IH].
Qed.

Lemma dict_get_In (k : pystr) (v : Z) (d : locations_t) :
  dict_get k d = Some v -> In (k, v) d.
Proof.
  induction d as [|[k0 v0] d IH]; simpl; [discriminate|].
  destruct (str_eqb k0 k) eqn:E.
  - apply str_eqb_eq in E. intros [= ->]. left. now subst.
  - intros H. right. now apply IH.
Qed.

(** ** The route extractor *)

Lemma top3_length (l : list pystr) : (List.length (top3 l) <= 3)%nat.
Proof. unfold top3. rewrite length_firstn. apply Nat.le_min_l. Qed.

(** What a route that is returned looks like: the origin, then one to three
    destinations. *)
Lemma extract_route_shape (address_text : cell) (row_index : index)
    (self self' : self_) (route : list pystr) :
  _extract_route address_text row_index self = (Ok route, self') ->
  exists dests, route = u "Дмитров" :: dests
                /\ (1 <= List.length dests <= 3)%nat.
Proof.
  unfold _extract_route, warn_row, row_number, bind, ret, raise, warn.
  destruct (isna address_text || negb (truthy address_text)).
  - destruct row_index; intros [= <- _];
      (exists [u "Неизвестный пункт"]; split; [reflexivity | simpl; lia]).
  - destruct (_parse_addresses (str address_text)) as [|c l] eqn:E.
    + destruct row_index; intros [= <- _];
        (exists [u "Неизвестный пункт"]; split; [reflexivity | simpl; lia]).
    + intros [= <- _]. exists (top3 (c :: l)). split; [reflexivity|].
      split; [simpl; lia | apply top3_length].
Qed.

Lemma bind_ok_inv {A B} (m : M A) (f : A -> M B) (s s' : self_) (b : B) :
  bind m f s = (Ok b, s') ->
  exists a s1, m s = (Ok a, s1) /\ f a s1 = (Ok b, s').
Proof.
  unfold bind. destruct (m s) as [[a|e] s1]; [|discriminate].
  intros H. now exists a, s1.
Qed.

(** C2.  The route of the service built from a row starts with the origin
    "Дмитров" and has at most three destinations after it, four entries at
    most. *)
Theorem route_starts_with_origin (env : Env) (cols : list label)
    (row : list cell) (index : index) (self self' : self_)
    (service : TransportService) :
  _process_row env cols row index self = (Ok (Some service), self') ->
  hd_error (route service) = Some (u "Дмитров")
  /\ (List.length (tl (route service)) <= 3)%nat
  /\ (List.length (route service) <= 4)%nat.
Proof.
  unfold _process_row. intros H.
  apply bind_ok_inv in H as ([date|] & s1 & _ & H); [|discriminate].
  apply bind_ok_inv in H as (driver_name & s2 & _ & H).
  apply bind_ok_inv in H as (car_number & s3 & _ & H).
  apply bind_ok_inv in H as (route & s4 & Hroute & H).
  apply bind_ok_inv in H as (amount & s5 & _ & H).
  injection H as <- _.
  apply extract_route_shape in Hroute as (dests & -> & Hlen).
  unfold new_TransportService; simpl Models.route.
  split; [reflexivity|]. simpl List.length. simpl tl. lia.
Qed.

Lemma route_starts_with_origin_witness :
  hd_error (route Sample.service_klin) = Some (u "Дмитров")
  /\ (List.length (tl (route Sample.service_klin)) <= 3)%nat
  /\ (List.length (route Sample.service_klin) <= 4)%nat.
Proof.
  apply (@route_starts_with_origin Sample.env Sample.header Sample.row_klin
           (IInt 0) __init__ __init__ Sample.service_klin).
  vm_compute. reflexivity.
Defined.



(** C9.  Resolving the same address twice gives the same route: the answer
    of the route extractor, and of the address parser it calls, depends on
    the text alone, not on what the instance has accumulated, and a second
    call on the instance the first call left behind answers the same. *)
Theorem address_resolution_is_repeatable (address_text : cell)
    (row_index : index) (i : Z) (self other : self_) :
  fst (_extract_route address_text row_index self)
  = fst (_extract_route address_text row_index other)
  /\ fst (_extract_route address_text row_index
            (snd (_extract_route address_text row_index self)))
     = fst (_extract_route address_text row_index self)
  /\ fst (_extract_route address_text (IInt i) self)
     = Ok (match (if isna address_text || negb (truthy address_text)
                  then [] else _parse_addresses (str address_text)) with
           | [] => [u "Дмитров"; u "Неизвестный пункт"]
           | locations => u "Дмитров" :: firstn 3 locations
           end).
Proof.
  assert (Hfst : forall z s,
    fst (_extract_route address_text (IInt z) s)
    = Ok (match (if isna address_text || negb (truthy address_text)
                 then [] else _parse_addresses (str address_text)) with
          | [] => [u "Дмитров"; u "Неизвестный пункт"]
          | locations => u "Дмитров" :: firstn 3 locations
          end)).
  { intros z s.
    unfold _extract_route, warn_row, row_number, bind, ret, warn.
    destruct (isna address_text || negb (truthy address_text));
      [reflexivity|].
    destruct (_parse_addresses (str address_text)); reflexivity. }
  assert (Hany : forall s s',
    fst (_extract_route address_text row_index s)
    = fst (_extract_route address_text row_index s')).
  { intros s s'. destruct row_index as [z|n|e]; [now rewrite !Hfst| |];
      unfold _extract_route, warn_row, row_number, bind, ret, raise, warn;
      (destruct (isna address_text || negb (truthy address_text));
         [reflexivity|]);
      destruct (_parse_addresses (str address_text)); reflexivity. }
  split; [apply Hany|]. split; [apply Hany|apply Hfst].
Qed.

(** ** The amount parser *)

Lemma replace_twice_spec (s : pystr) :
  replace_char 32 [] (replace_char 44 (u ".") s)
  = filter (fun c => negb (c =? 32)%N)
      (map (fun c => if (c =? 44)%N then 46%N else c) s).
Proof.
  unfold replace_char.
  induction s as [|c s IH]; [reflexivity|].
  cbn [flat_map map]. rewrite flat_map_app, IH.
  destruct (c =? 44)%N eqn:E44; [reflexivity|].
  cbn [flat_map filter app].
  destruct (c =? 32)%N; reflexivity.
Qed.

Lemma clean_amount_spec (amount_str : cell) :
  clean_amount amount_str
  = filter (fun c => negb (c =? 32)%N)
      (map (fun c => if (c =? 44)%N then 46%N else c) (str amount_str)).
Proof. apply replace_twice_spec. Qed.



(** ** The file *)

(** What [process_file] does is the same on every instance: it reads none
    of the attributes it finds. *)
Lemma process_file_forgets (env : Env) (file_path : pystr)
    (self other : self_) :
  process_file env file_path self = process_file env file_path other.
Proof. unfold process_file. reflexivity. Qed.

(** C8.  A call of [process_file] on an instance that an earlier call has
    used returns what the same call returns on a new instance: the two lists
    of the instance are emptied at the start of each call. *)
Theorem runs_do_not_leak (env : Env) (f1 f2 : pystr) (self : self_) :
  fst (process_file env f2 (snd (process_file env f1 self)))
  = fst (process_file env f2 __init__).
Proof.
  generalize (snd (process_file env f1 self)). intros used.
  now rewrite (process_file_forgets env f2 used __init__).
Qed.

(** The instance a run leaves behind does hold the warnings of that run;
    the next run starts without them. *)
Example warnings_stay_in_their_run :
  let used := snd (process_file Sample.env (u "gaps.csv") __init__) in
  warnings used = [u "Строка 1: сумма не указана"]
  /\ Models.warnings (fst (process_file Sample.env (u "trips.csv") used)) = []
  /\ warnings (snd (process_file Sample.env (u "trips.csv") used)) = [].
Proof. evaluate. Qed.

Lemma process_file_cases (env : Env) (file_path : pystr) (self : self_) :
  let r := fst (process_file env file_path self) in
  (success r = true /\ data r <> None /\ Models.errors r = [])
  \/ (success r = false /\ data r = None /\ Models.errors r <> []
      /\ Models.warnings r = []).
Proof.
  unfold process_file, _load_data, _validate_structure, _process_data,
    bind, ret, error.
  destruct (read_excel env file_path) as [df|];
    [|destruct (first_csv env file_path encodings) as [df|]].
  3: { right. cbn. repeat split. discriminate. }
  all: destruct (check_columns required_columns (columns df) [])
         as [cols [|m ms]];
       [ cbn [negb];
         destruct (process_rows env _ (rows _) [] (Build_self [] []))
           as [[services|e] s1];
         [ left; cbn; repeat split; discriminate
         | right; cbn; repeat split;
           destruct (errors s1); discriminate ]
       | right; cbn; repeat split; discriminate ].
Qed.

Lemma first_csv_none (env : Env) (file_path : pystr) (encs : list pystr) :
  (forall encoding, In encoding encs ->
                    read_csv env file_path encoding = None) ->
  first_csv env file_path encs = None.
Proof.
  induction encs as [|e encs IH]; intros H; [reflexivity|].
  simpl. rewrite (H e (or_introl eq_refl)).
  apply IH. intros e' He'. apply H. now right.
Qed.

(** C7.  [process_file] is total: whatever the file, the outcome is a
    [ProcessingResult], also when the body raises.  A result that is no
    success carries no list of services.  A file that no reader can load,
    and a table that lacks required columns after the partial matching of
    the labels, give such a result, with the error recorded. *)
Theorem failures_are_results (env : Env) (file_path : pystr) (self : self_) :
  let r := fst (process_file env file_path self) in
  (success r = false -> data r = None)
  /\ (read_excel env file_path = None ->
      (forall encoding, In encoding encodings ->
                        read_csv env file_path encoding = None) ->
      success r = false /\ data r = None
      /\ Models.errors r
         = [u "Не удалось загрузить файл ни в одном из поддерживаемых форматов"])
  /\ (forall df missing,
        read_excel env file_path = Some df
        \/ (read_excel env file_path = None
            /\ first_csv env file_path encodings = Some df) ->
        snd (check_columns required_columns (columns df) []) = missing ->
        missing <> [] ->
        success r = false /\ data r = None
        /\ Models.errors r
           = [u "Отсутствуют необходимые колонки: " ++ join (u ", ") missing]).
Proof.
  cbv zeta. split; [|split].
  - destruct (process_file_cases env file_path self) as [(Hs & _)|(_ & Hd & _)].
    + intros H. rewrite H in Hs. discriminate.
    + intros _. exact Hd.
  - intros Hx Hc. apply first_csv_none in Hc.
    unfold process_file, _load_data, bind, ret, error.
    rewrite Hx, Hc. cbn. repeat split.
  - intros df missing Hload Hcheck Hne.
    assert (Hdf : _load_data env file_path (Build_self [] [])
                  = (Ok (Some df), Build_self [] [])).
    { unfold _load_data, ret.
      destruct Hload as [->|[-> ->]]; reflexivity. }
    unfold process_file, bind. rewrite Hdf.
    unfold _validate_structure, bind, ret, error.
    destruct (check_columns required_columns (columns df) []) as [cols ms].
    simpl in Hcheck. subst ms.
    destruct missing as [|m ms]; [contradiction|].
    cbn. repeat split.
Qed.

(** The handler of [process_file] at work: the rows of this table are
    labelled by their first column, so the message of the warning for the
    missing date cannot be built, nor can the one of the handler of
    [_process_data]; the exception ends in the result. *)
Example critical_error_is_a_result :
  let df := Build_DataFrame Sample.header
              [(IOther (u "can only concatenate str (not 'int') to str"),
                [CNa; CNa; CNa; CNa; CNa])] in
  let env := Build_Env (fun _ => Some df) (fun _ _ => None)
                       Sample.march15 (fun _ _ => None) in
  fst (process_file env (u "labelled.xlsx") __init__)
  = Build_ProcessingResult false
      (u "Критическая ошибка: can only concatenate str (not 'int') to str")
      None [u "can only concatenate str (not 'int') to str"] [].
Proof. vm_compute. reflexivity. Qed.

(** ** The address parser: the loop over the patterns *)

Lemma pattern_step_keeps (address : pystr) (locations : locations_t)
    (item : nat * Re.pattern) (city : pystr) (p : Z) :
  dict_get city locations = Some p ->
  exists p', dict_get city (pattern_step address locations item) = Some p'
             /\ p <= p'.
Proof.
  intros Hget. destruct item as [i pat]. unfold pattern_step.
  destruct (Re.search pat address true) as [g|]; [|exists p; split; [easy|lia]].
  destruct (negb _); [|exists p; split; [easy|lia]].
  destruct (str_eqb (strip g) city) eqn:E.
  - apply str_eqb_eq in E. rewrite E, Hget.
    destruct (p <? 3 - Z.of_nat i) eqn:Hlt.
    + rewrite dict_get_set_same. eexists; split; [reflexivity|].
      apply Z.ltb_lt in Hlt. lia.
    + exists p; split; [easy|lia].
  - apply str_eqb_neq in E.
    destruct (dict_get (strip g) locations) as [p0|].
    + destruct (p0 <? 3 - Z.of_nat i).
      * rewrite dict_get_set_other by exact E. exists p; split; [easy|lia].
      * exists p; split; [easy|lia].
    + rewrite dict_get_set_other by exact E. exists p; split; [easy|lia].
Qed.

Lemma pattern_steps_keep (address : pystr) (items : list (nat * Re.pattern))
    (locations : locations_t) (city : pystr) (p : Z) :
  dict_get city locations = Some p ->
  exists p', dict_get city (fold_left (pattern_step address) items locations)
             = Some p' /\ p <= p'.
Proof.
  revert locations p. induction items as [|item items IH]; intros locations p H.
  - exists p; split; [easy|lia].
  - simpl. destruct (@pattern_step_keeps address locations item city p H)
      as (p1 & H1 & Hle).
    destruct (IH _ _ H1) as (p2 & H2 & Hle2).
    exists p2; split; [easy|lia].
Qed.

Lemma pattern_step_records (address : pystr) (locations : locations_t)
    (i : nat) (pat : Re.pattern) (g : pystr) :
  Re.search pat address true = Some g ->
  lower (strip g) <> u "дмитров" ->
  exists p, dict_get (strip g) (pattern_step address locations (i, pat))
            = Some p /\ 3 - Z.of_nat i <= p.
Proof.
  intros Hs Hne. unfold pattern_step. rewrite Hs.
  apply str_eqb_neq in Hne. rewrite Hne. cbn [negb].
  destruct (dict_get (strip g) locations) as [p0|] eqn:Hget.
  - destruct (p0 <? 3 - Z.of_nat i) eqn:Hlt.
    + rewrite dict_get_set_same. eexists; split; [reflexivity|lia].
    + apply Z.ltb_ge in Hlt. exists p0; split; [easy|lia].
  - rewrite dict_get_set_same. eexists; split; [reflexivity|lia].
Qed.

Lemma pattern_loop_records (address : pystr) (pats : list Re.pattern) :
  forall (k j : nat) (locations : locations_t) (pat : Re.pattern) (g : pystr),
    nth_error pats j = Some pat ->
    Re.search pat address true = Some g ->
    lower (strip g) <> u "дмитров" ->
    exists p,
      dict_get (strip g)
        (fold_left (pattern_step address)
                   (combine (seq k (List.length pats)) pats) locations)
      = Some p
      /\ 3 - Z.of_nat (k + j) <= p.
Proof.
  induction pats as [|pat0 pats IH]; intros k j locations pat g Hnth Hs Hne.
  - destruct j; discriminate.
  - cbn [List.length seq combine fold_left]. destruct j as [|j].
    + injection Hnth as ->.
      destruct (@pattern_step_records address locations k pat g Hs Hne)
        as (p & Hp & Hle).
      destruct (@pattern_steps_keep address
                  (combine (seq (S k) (List.length pats)) pats) _ _ _ Hp)
        as (p' & Hp' & Hle').
      exists p'; split; [easy|]. rewrite Nat.add_0_r. lia.
    + destruct (IH (S k) j (pattern_step address locations (k, pat0)) pat g
                   Hnth Hs Hne) as (p & Hp & Hle).
      exists p; split; [easy|]. lia.
Qed.

(** C1, as the program has it.  Every pattern that matches a line records
    the city of its leftmost match, not only the first pattern that
    matches: unless that city is the origin, the city is in [locations]
    after the line, with the priority 3 - i of the pattern at index i or a
    higher one. *)
Theorem every_matching_pattern_contributes (locations : locations_t)
    (address : pystr) (i : nat) (pattern : Re.pattern) (group1 : pystr) :
  nth_error patterns i = Some pattern ->
  Re.search pattern (strip address) true = Some group1 ->
  lower (strip group1) <> u "дмитров" ->
  exists priority,
    dict_get (strip group1) (address_step locations address) = Some priority
    /\ 3 - Z.of_nat i <= priority.
Proof.
  intros Hnth Hs Hne. unfold address_step.
  destruct (strip address) as [|c rest] eqn:Estrip.
  - exfalso.
    destruct i as [|[|[|[|i]]]];
      [ | | | | destruct i; discriminate ];
      injection Hnth as <-; vm_compute in Hs; discriminate.
  - cbv zeta. unfold enumerate.
    destruct (@pattern_loop_records (c :: rest) patterns 0 i
                (fold_left (correction_step (c :: rest)) CITY_CORRECTIONS
                           locations) pattern group1 Hnth Hs Hne)
      as (p & Hp & Hle).
    exists p. split; [exact Hp | exact Hle].
Qed.

Lemma every_matching_pattern_contributes_witness :
  exists priority,
    dict_get (strip (u "Борки")) (address_step [] (u "г. Клин, д. Борки"))
    = Some priority
    /\ 3 - Z.of_nat 3 <= priority.
Proof.
  apply (@every_matching_pattern_contributes [] (u "г. Клин, д. Борки") 3
           (nth 3 patterns (Re.Pattern Re.Empty Re.Empty Re.Empty))
           (u "Борки")).
  - reflexivity.
  - vm_compute. reflexivity.
  - vm_compute. discriminate.
Defined.

(** C1, as it is worded, fails on the line "г. Клин, д. Борки".  No
    abbreviation of the dictionary matches the line; the first pattern finds
    "Клин" and the fourth finds "Борки", and both cities are recorded, where
    a loop that stops at the first match records "Клин" alone. *)
Lemma first_match_only_fails :
  let address := u "г. Клин, д. Борки" in
  fold_left (correction_step address) CITY_CORRECTIONS [] = []
  /\ Re.search (nth 0 patterns (Re.Pattern Re.Empty Re.Empty Re.Empty))
               address true = Some (u "Клин")
  /\ Re.search (nth 3 patterns (Re.Pattern Re.Empty Re.Empty Re.Empty))
               address true = Some (u "Борки")
  /\ address_step [] address = [(u "Клин", 3); (u "Борки", 0)]
  /\ Worded.first_match_only address [] (enumerate patterns)
     = [(u "Клин", 3)]
  /\ _parse_addresses address = [u "Клин"; u "Борки"]
  /\ fold_left (pattern_step address) (enumerate patterns) []
     <> Worded.first_match_only address [] (enumerate patterns).
Proof. evaluate. Qed.

(** ** The sign of an amount *)

Lemma lstrip_by_In (p : N -> bool) (x : N) (s : pystr) :
  In x (lstrip_by p s) -> In x s.
Proof.
  induction s as [|c s IH]; simpl; [easy|].
  destruct (p c); [intros H; right; now apply IH | easy].
Qed.

Lemma strip_In (x : N) (s : pystr) : In x (strip s) -> In x s.
Proof.
  unfold strip, strip_by. intros H.
  apply in_rev in H. apply lstrip_by_In in H.
  apply in_rev in H. now apply lstrip_by_In in H.
Qed.

Lemma take_sign_minus (v r : pystr) :
  Dec.take_sign v = (true, r) -> v = 45%N :: r.
Proof.
  unfold Dec.take_sign. destruct v as [|c v]; [discriminate|].
  destruct (c =? 45)%N eqn:E.
  - apply N.eqb_eq in E. now intros [= <-]; subst.
  - destruct (c =? 43)%N; discriminate.
Qed.

Lemma parse_number_sign (sign : bool) (r : pystr) (d : Dec.Decimal) :
  Dec.parse_number sign r = Dec.Number d ->
  exists c e, d = Dec.Finite sign c e.
Proof.
  unfold Dec.parse_number.
  destruct (Dec.take_digits r) as [ip r1].
  destruct (match r1 with
            | [] => ([], r1)
            | c :: r0 => if (c =? 46)%N then Dec.take_digits r0 else ([], r1)
            end) as [fp r2].
  destruct (ip ++ fp) as [|x l]; [discriminate|].
  destruct r2 as [|c r3].
  - intros [= <-]. eauto.
  - destruct (lower_char c =? 101)%N; [|discriminate].
    destruct (Dec.parse_exponent r3); [|discriminate].
    destruct (Dec.in_limits _ _); [|discriminate].
    intros [= <-]. eauto.
Qed.

Lemma parse_nan_sign (sign : bool) (r : pystr) (d : Dec.Decimal) :
  Dec.parse_nan sign r = Some d ->
  exists signaling payload, d = Dec.NaN sign signaling payload.
Proof.
  unfold Dec.parse_nan.
  destruct (match lower r with
            | [] => (false, lower r)
            | c :: r0 => if (c =? 115)%N then (true, r0) else (false, lower r)
            end) as [signaling r'].
  destruct (is_prefix (u "nan") r'); [|discriminate].
  destruct (Dec.take_digits (skipn 3 r')) as [ds [|]]; [|discriminate].
  intros [= <-]. eauto.
Qed.

(** A minus sign in the text as it is read was one in the text. *)
Lemma as_ascii_minus (s v : pystr) :
  Dec.as_ascii s = Some v -> In 45%N v -> In 45%N s.
Proof.
  revert v. induction s as [|c s IH]; intros v; cbn [Dec.as_ascii].
  - intros [= <-] [].
  - destruct (Dec.as_ascii s) as [r|]; [|discriminate].
    destruct ((0 <? c) && (c <=? 127))%N.
    + intros [= <-] [->|H]; [now left | right; now apply (IH r eq_refl)].
    + destruct (isspace c).
      * intros [= <-] [H|H]; [discriminate | right; now apply (IH r eq_refl)].
      * destruct (Dec.to_decimal c) as [d|]; [|discriminate].
        intros E Hin. assert (Ev : v = (48 + d)%N :: r) by congruence.
        rewrite Ev in Hin. destruct Hin as [H|H]; [lia|].
        right. now apply (IH r eq_refl).
Qed.

(** The sign of what [Decimal] reads is the sign that is written. *)
Lemma of_str_signed (s : pystr) (d : Dec.Decimal) :
  Dec.of_str s = Some d -> Dec.is_signed d = true -> In 45%N s.
Proof.
  unfold Dec.of_str, Dec.convert.
  destruct (Dec.as_ascii (filter (fun c => negb (c =? 95)%N) (strip s)))
    as [v|] eqn:Ev; [|discriminate].
  destruct (Dec.take_sign v) as [sign r] eqn:Esign.
  assert (Hsign : sign = true -> In 45%N s).
  { intros ->. apply take_sign_minus in Esign.
    apply strip_In.
    apply (proj1 (filter_In (fun c => negb (c =? 95)%N) 45%N (strip s))).
    apply (@as_ascii_minus _ _ Ev). rewrite Esign. now left. }
  destruct (Dec.parse_number sign r) as [d'| |] eqn:Enum.
  - intros [= <-] Hneg.
    apply parse_number_sign in Enum as (c & e & ->).
    now apply Hsign.
  - destruct (str_eqb (lower r) (u "inf") || str_eqb (lower r) (u "infinity")).
    + intros [= <-] Hneg. now apply Hsign.
    + destruct (Dec.parse_nan sign r) as [d'|] eqn:Enan; [|discriminate].
      intros [= <-] Hneg.
      apply parse_nan_sign in Enan as (sg & payload & ->).
      now apply Hsign.
  - discriminate.
Qed.

(** What is negative carries a minus sign. *)
Lemma is_negative_signed (d : Dec.Decimal) :
  Dec.is_negative d = true -> Dec.is_signed d = true.
Proof.
  destruct d as [s c e|s|s sg p]; cbn [Dec.is_negative Dec.is_signed].
  - now intros H%andb_true_iff.
  - easy.
  - discriminate.
Qed.

(** A negative decimal is written with a minus sign. *)
Lemma of_str_negative (s : pystr) (d : Dec.Decimal) :
  Dec.of_str s = Some d -> Dec.is_negative d = true -> In 45%N s.
Proof.
  intros Hd Hneg. apply (@of_str_signed _ _ Hd). now apply is_negative_signed.
Qed.

Lemma clean_amount_In_minus (amount_str : cell) :
  In 45%N (clean_amount amount_str) -> In 45%N (str amount_str).
Proof.
  rewrite clean_amount_spec. intros H.
  apply filter_In in H as [H _]. apply in_map_iff in H as (c & Hc & Hin).
  destruct (c =? 44)%N; [discriminate | now subst].
Qed.

Lemma warn_row_then_ret {A} (row_index : index) (what : pystr) (a r : A)
    (self self' : self_) :
  (warn_row row_index what ;;; ret a) self = (Ok r, self') -> r = a.
Proof.
  unfold warn_row, row_number, bind, ret, raise, warn.
  destruct row_index; intros [= <- _]; reflexivity.
Qed.

(** What the amount parser returns, when it returns: the decimal that the
    cleaned text of the cell is, 0.00 for a missing cell and for a text that
    is no decimal. *)
Lemma parse_amount_result (amount_str : cell) (row_index : index)
    (self self' : self_) (d : Dec.Decimal) :
  _parse_amount amount_str row_index self = (Ok d, self') ->
  d = match (if isna amount_str then None
             else Dec.of_str (clean_amount amount_str)) with
      | Some x => x
      | None => Dec.Finite false 0 (-2)
      end.
Proof.
  unfold _parse_amount.
  destruct (isna amount_str).
  - intros H. now apply warn_row_then_ret in H.
  - unfold try_except.
    destruct (Dec.of_str (clean_amount amount_str)) as [d'|].
    + unfold ret. now intros [= <- _].
    + unfold raise. cbv beta iota.
      intros H. now apply warn_row_then_ret in H.
Qed.

(** C3, as the program has it.  The price and the amount of the service
    built from a row are one and the same decimal, which the amount cell
    determines: the decimal that the cleaned text of the cell is, with the
    sign, the digits and the exponent it is written with, and 0.00 for a
    missing cell and for a text that is no decimal.  Nothing checks the
    sign and nothing rounds.  The amount carries a minus sign only when
    the text of the cell has one: without it the amount is a number that is
    not negative, the positive infinity or a NaN without sign. *)
Theorem amount_is_the_parsed_cell (env : Env) (cols : list label)
    (row : list cell) (index : index) (self self' : self_)
    (service : TransportService) :
  _process_row env cols row index self = (Ok (Some service), self') ->
  let amount_str := row_get cols row (u "Сумма за рейсы") in
  price service = amount service
  /\ amount service
     = match (if isna amount_str then None
              else Dec.of_str (clean_amount amount_str)) with
       | Some d => d
       | None => Dec.Finite false 0 (-2)
       end
  /\ (~ In 45%N (str amount_str) ->
      Dec.is_signed (amount service) = false
      /\ Dec.is_negative (amount service) = false).
Proof.
  unfold _process_row. intros H.
  apply bind_ok_inv in H as ([date|] & s1 & _ & H); [|discriminate].
  apply bind_ok_inv in H as (driver_name & s2 & _ & H).
  apply bind_ok_inv in H as (car_number & s3 & _ & H).
  apply bind_ok_inv in H as (route & s4 & _ & H).
  apply bind_ok_inv in H as (d & s5 & Hamount & H).
  injection H as <- _. cbv zeta.
  unfold new_TransportService; cbn [price amount].
  apply parse_amount_result in Hamount.
  split; [reflexivity|]. split; [exact Hamount|].
  intros Hno.
  assert (Hs : Dec.is_signed d = false).
  { destruct (Dec.is_signed d) eqn:Hsigned; [|reflexivity].
    exfalso. rewrite Hamount in Hsigned.
    destruct (isna (row_get cols row (u "Сумма за рейсы")));
      [discriminate|].
    destruct (Dec.of_str (clean_amount (row_get cols row (u "Сумма за рейсы"))))
      as [x|] eqn:Hof; [|discriminate].
    apply Hno, clean_amount_In_minus.
    exact (@of_str_signed _ _ Hof Hsigned). }
  split; [exact Hs|].
  destruct (Dec.is_negative d) eqn:Hneg; [|reflexivity].
  apply is_negative_signed in Hneg. congruence.
Qed.

Lemma amount_is_the_parsed_cell_witness :
  let amount_str := row_get Sample.header Sample.row_klin (u "Сумма за рейсы") in
  price Sample.service_klin = amount Sample.service_klin
  /\ amount Sample.service_klin
     = match (if isna amount_str then None
              else Dec.of_str (clean_amount amount_str)) with
       | Some d => d
       | None => Dec.Finite false 0 (-2)
       end
  /\ (~ In 45%N (str amount_str) ->
      Dec.is_signed (amount Sample.service_klin) = false
      /\ Dec.is_negative (amount Sample.service_klin) = false).
Proof.
  apply (@amount_is_the_parsed_cell Sample.env Sample.header Sample.row_klin
           (IInt 0) __init__ __init__ Sample.service_klin).
  vm_compute. reflexivity.
Defined.

(** C3, as it is worded, fails on a row whose amount cell reads "-100": the
    service gets the price and the amount -100.  Nor are two digits after
    the point kept: "1.234" comes back with its three.  And a cell that
    reads "nan" gives no number at all. *)
Lemma negative_amount_is_kept :
  _process_row Sample.env Sample.header Sample.row_refund (IInt 1) __init__
  = (Ok (Some Sample.service_refund), __init__)
  /\ amount Sample.service_refund = Dec.Finite true 100 0
  /\ price Sample.service_refund = Dec.Finite true 100 0
  /\ Dec.is_negative (amount Sample.service_refund) = true
  /\ _parse_amount (CInt (-100)) (IInt 1) __init__
     = (Ok (Dec.Finite true 100 0), __init__)
  /\ _parse_amount (CStr (u "1.234")) (IInt 1) __init__
     = (Ok (Dec.Finite false 1234 (-3)), __init__)
  /\ Dec.decimal_places (Dec.Finite false 1234 (-3)) = 3
  /\ _parse_amount (CStr (u "nan")) (IInt 1) __init__
     = (Ok (Dec.NaN false false 0), __init__).
Proof. evaluate. Qed.

(** ** The description of a service *)

Lemma description_ignores_the_attribute (service : TransportService)
    (value : pystr) :
  contains (u "маршрут") value = false ->
  description (ModernUI.setData_description service value)
  = description service.
Proof.
  intros H. unfold ModernUI.setData_description. rewrite H.
  unfold description. cbn [date driver_name car_number route]. reflexivity.
Qed.

(** C6 does not hold of the program.  The edit of a description cell sets
    the attribute [_description], which the property [description] never
    reads: after the edit the description is still the one computed from
    the date, the driver, the vehicle and the route. *)
Lemma description_edit_is_lost :
  let value := u "Доставка груза по договору" in
  let edited := ModernUI.setData_description Sample.service_klin value in
  _description edited = Some value
  /\ description edited = description Sample.service_klin
  /\ description edited
     = u "Транспортные услуги 15.03.2024 водит. Иванов И.И., а/м Газель А123ВС, маршрут Дмитров - Клин - Борки"
  /\ description edited <> value
  /\ ModernUI.data_description edited <> value.
Proof. evaluate. Qed.

(** ** The address parser: the order of the cities *)

Lemma insert_desc_In (x y : pystr * Z) (l : locations_t) :
  In y (insert_desc x l) <-> y = x \/ In y l.
Proof.
  induction l as [|z l IH]; simpl.
  - intuition congruence.
  - destruct (snd x <? snd z); simpl; [rewrite IH|]; intuition congruence.
Qed.

Lemma sorted_desc_In (y : pystr * Z) (l : locations_t) :
  In y (sorted_desc l) <-> In y l.
Proof.
  induction l as [|x l IH]; simpl; [tauto|].
  rewrite insert_desc_In, IH. intuition congruence.
Qed.

Lemma insert_desc_sorted (x : pystr * Z) (l : locations_t) :
  desc l -> desc (insert_desc x l).
Proof.
  unfold desc. induction l as [|z l IH]; intros Hs; simpl.
  - constructor; constructor.
  - inversion Hs as [|? ? Hl Hz]; subst.
    destruct (snd x <? snd z) eqn:E.
    + apply Z.ltb_lt in E. constructor; [now apply IH|].
      apply Forall_forall. intros y Hy.
      apply insert_desc_In in Hy as [->|Hy]; [lia|].
      now apply (proj1 (Forall_forall _ _) Hz).
    + apply Z.ltb_ge in E. constructor; [exact Hs|].
      constructor; [exact E|].
      apply Forall_forall. intros y Hy.
      pose proof (proj1 (Forall_forall _ _) Hz y Hy) as Hle.
      cbv beta in Hle. lia.
Qed.

Lemma sorted_desc_sorted (l : locations_t) : desc (sorted_desc l).
Proof.
  induction l as [|x l IH]; simpl;
    [constructor | now apply insert_desc_sorted].
Qed.

(** In a sorted list an entry comes before every entry of lower priority. *)
Lemma desc_precedes (l : locations_t) (a b : pystr) (pa pb : Z) :
  desc l -> In (a, pa) l -> In (b, pb) l -> pb < pa ->
  exists l1 l2 l3, l = l1 ++ (a, pa) :: l2 ++ (b, pb) :: l3.
Proof.
  unfold desc. induction l as [|x l IH]; intros Hs Ha Hb Hlt; [easy|].
  inversion Hs as [|? ? Hl Hx]; subst.
  destruct Ha as [->|Ha].
  - destruct Hb as [Hb|Hb]; [injection Hb as _ ->; lia|].
    apply in_split in Hb as (l2 & l3 & ->). now exists [], l2, l3.
  - destruct Hb as [->|Hb].
    + pose proof (proj1 (Forall_forall _ _) Hx _ Ha) as Hle.
      simpl in Hle. lia.
    + destruct (IH Hl Ha Hb Hlt) as (l1 & l2 & l3 & ->).
      now exists (x :: l1), l2, l3.
Qed.

(** The head of a sorted list has the highest priority. *)
Lemma desc_head (x : pystr * Z) (l : locations_t) (y : pystr * Z) :
  desc (x :: l) -> In y (x :: l) -> snd y <= snd x.
Proof.
  unfold desc. intros Hs [->|Hy]; [lia|].
  inversion Hs as [|? ? _ Hx]; subst.
  now apply (proj1 (Forall_forall _ _) Hx).
Qed.

(** A city recorded with the priority 3 keeps it. *)
Lemma correction_step_keeps_3 (address : pystr) (locations : locations_t)
    (item : pystr * pystr) (city : pystr) :
  dict_get city locations = Some 3 ->
  dict_get city (correction_step address locations item) = Some 3.
Proof.
  intros H. destruct item as [abbr full_city]. unfold correction_step.
  destruct (Re.search _ _ _); [|exact H].
  destruct (str_eqb full_city city) eqn:E.
  - apply str_eqb_eq in E. subst. apply dict_get_set_same.
  - apply str_eqb_neq in E. now rewrite dict_get_set_other.
Qed.

Lemma corrections_keep_3 (address : pystr) (items : list (pystr * pystr))
    (locations : locations_t) (city : pystr) :
  dict_get city locations = Some 3 ->
  dict_get city (fold_left (correction_step address) items locations)
  = Some 3.
Proof.
  revert locations. induction items as [|item items IH]; intros locations H;
    [exact H|].
  simpl. apply IH. now apply correction_step_keeps_3.
Qed.

Lemma corrections_record (address : pystr) (items : list (pystr * pystr))
    (locations : locations_t) (abbr city : pystr) :
  In (abbr, city) items ->
  Re.search (abbr_pattern abbr) (lower address) false <> None ->
  dict_get city (fold_left (correction_step address) items locations)
  = Some 3.
Proof.
  revert locations. induction items as [|item items IH];
    intros locations Hin Hm; [easy|].
  simpl. destruct Hin as [->|Hin]; [|now apply IH].
  apply corrections_keep_3. unfold correction_step.
  destruct (Re.search (abbr_pattern abbr) (lower address) false);
    [apply dict_get_set_same | congruence].
Qed.

Lemma pattern_step_keeps_3 (address : pystr) (locations : locations_t)
    (item : nat * Re.pattern) (city : pystr) :
  dict_get city locations = Some 3 ->
  dict_get city (pattern_step address locations item) = Some 3.
Proof.
  intros H. destruct item as [i pat]. unfold pattern_step.
  destruct (Re.search pat address true) as [g|]; [|exact H].
  destruct (negb _); [|exact H].
  destruct (str_eqb (strip g) city) eqn:E.
  - apply str_eqb_eq in E. rewrite E, H.
    destruct (3 <? 3 - Z.of_nat i) eqn:Hlt; [|exact H].
    apply Z.ltb_lt in Hlt. lia.
  - apply str_eqb_neq in E.
    destruct (dict_get (strip g) locations) as [p0|].
    + destruct (p0 <? 3 - Z.of_nat i); [|exact H].
      now rewrite dict_get_set_other.
    + now rewrite dict_get_set_other.
Qed.

Lemma patterns_keep_3 (address : pystr) (items : list (nat * Re.pattern))
    (locations : locations_t) (city : pystr) :
  dict_get city locations = Some 3 ->
  dict_get city (fold_left (pattern_step address) items locations) = Some 3.
Proof.
  revert locations. induction items as [|item items IH]; intros locations H;
    [exact H|].
  simpl. apply IH. now apply pattern_step_keeps_3.
Qed.

Lemma address_step_keeps_3 (locations : locations_t) (address city : pystr) :
  dict_get city locations = Some 3 ->
  dict_get city (address_step locations address) = Some 3.
Proof.
  intros H. unfold address_step.
  destruct (strip address); [exact H|]. cbv zeta.
  now apply patterns_keep_3, corrections_keep_3.
Qed.

Lemma address_steps_keep_3 (lines : list pystr) (locations : locations_t)
    (city : pystr) :
  dict_get city locations = Some 3 ->
  dict_get city (fold_left address_step lines locations) = Some 3.
Proof.
  revert locations. induction lines as [|l lines IH]; intros locations H;
    [exact H|].
  simpl. apply IH. now apply address_step_keeps_3.
Qed.

(** No abbreviation of the dictionary is found in an empty line. *)
Lemma no_abbreviation_in_empty_line (abbr city : pystr) :
  In (abbr, city) CITY_CORRECTIONS ->
  Re.search (abbr_pattern abbr) (lower []) false = None.
Proof.
  unfold CITY_CORRECTIONS. intros H.
  repeat (destruct H as [H|H]; [injection H as <- _; reflexivity|]).
  destruct H.
Qed.

Lemma address_steps_record (lines : list pystr) (locations : locations_t)
    (line abbr city : pystr) :
  In line lines ->
  In (abbr, city) CITY_CORRECTIONS ->
  Re.search (abbr_pattern abbr) (lower (strip line)) false <> None ->
  dict_get city (fold_left address_step lines locations) = Some 3.
Proof.
  revert locations. induction lines as [|l lines IH];
    intros locations Hin Habbr Hm; [easy|].
  simpl. destruct Hin as [->|Hin]; [|now apply IH].
  apply address_steps_keep_3. unfold address_step.
  destruct (strip line) as [|c rest] eqn:E.
  - exfalso. apply Hm. now apply no_abbreviation_in_empty_line with city.
  - cbv zeta. apply patterns_keep_3.
    now apply corrections_record with abbr.
Qed.

Lemma address_lines_empty : address_lines [] = [[]].
Proof. reflexivity. Qed.

(** *** The sort is stable *)

Lemma insert_desc_app (x : pystr * Z) (l1 l2 : locations_t) :
  Forall (fun y => snd x < snd y) l1 ->
  Forall (fun y => snd y <= snd x) l2 ->
  insert_desc x (l1 ++ l2) = l1 ++ x :: l2.
Proof.
  intros H1 H2. induction H1 as [|y l1 Hy _ IH].
  - cbn [app]. destruct H2 as [|y l2 Hy _]; [reflexivity|].
    cbn [insert_desc].
    destruct (Z.ltb_spec (snd x) (snd y)); [lia | reflexivity].
  - cbn [app insert_desc].
    destruct (Z.ltb_spec (snd x) (snd y)); [now rewrite IH | lia].
Qed.

Lemma at_rank_snd (p : Z) (l : locations_t) :
  Forall (fun y => snd y = p) (Ranked.at_rank p l).
Proof.
  apply Forall_forall. intros y Hy. unfold Ranked.at_rank in Hy.
  apply filter_In in Hy as [_ Hy]. now apply Z.eqb_eq.
Qed.

Lemma at_rank_cons (p : Z) (x : pystr * Z) (l : locations_t) :
  Ranked.at_rank p (x :: l)
  = if snd x =? p then x :: Ranked.at_rank p l else Ranked.at_rank p l.
Proof. reflexivity. Qed.

(** The sorted list has the entries of the priority 3, then those of the
    priorities 2, 1 and 0, each group in the order of the dictionary. *)
Lemma sorted_desc_ranked (l : locations_t) :
  Forall (fun kv => 0 <= snd kv <= 3) l ->
  sorted_desc l
  = Ranked.at_rank 3 l ++ Ranked.at_rank 2 l ++ Ranked.at_rank 1 l
      ++ Ranked.at_rank 0 l.
Proof.
  induction 1 as [|x l Hx _ IH]; [reflexivity|].
  cbn [sorted_desc fold_right]. fold (sorted_desc l). rewrite IH.
  pose proof (at_rank_snd 3 l) as H3. pose proof (at_rank_snd 2 l) as H2.
  pose proof (at_rank_snd 1 l) as H1. pose proof (at_rank_snd 0 l) as H0.
  assert (Hp : snd x = 3 \/ snd x = 2 \/ snd x = 1 \/ snd x = 0) by lia.
  rewrite !at_rank_cons.
  destruct Hp as [E|[E|[E|E]]]; rewrite E; cbn [Z.eqb Pos.eqb].
  - apply (@insert_desc_app x []); [constructor|].
    rewrite !Forall_app. repeat split;
      (eapply Forall_impl; [|eassumption]); cbv beta; lia.
  - rewrite (@insert_desc_app x (Ranked.at_rank 3 l)); [reflexivity| |].
    + eapply Forall_impl; [|exact H3]. cbv beta. lia.
    + rewrite !Forall_app. repeat split;
        (eapply Forall_impl; [|eassumption]); cbv beta; lia.
  - rewrite app_assoc.
    rewrite (@insert_desc_app x (Ranked.at_rank 3 l ++ Ranked.at_rank 2 l)).
    + now rewrite <- app_assoc.
    + rewrite Forall_app. split;
        (eapply Forall_impl; [|eassumption]); cbv beta; lia.
    + rewrite Forall_app. split;
        (eapply Forall_impl; [|eassumption]); cbv beta; lia.
  - rewrite !app_assoc.
    rewrite (@insert_desc_app x ((Ranked.at_rank 3 l ++ Ranked.at_rank 2 l)
                                   ++ Ranked.at_rank 1 l)).
    + reflexivity.
    + rewrite !Forall_app. repeat split;
        (eapply Forall_impl; [|eassumption]); cbv beta; lia.
    + eapply Forall_impl; [|exact H0]. cbv beta. lia.
Qed.

(** ** Matches and the texts they consume *)

Section MatcherSound.

Variable ic : bool.

Lemma rep_greedy_sound (R : Type) (a : Re.atom) (s : pystr) :
  forall (min : nat) (prev : option N) (k : Re.cont R) (x : R),
    Re.rep_greedy ic a min prev s k = Some x ->
    exists m rest prev',
      s = m ++ rest /\ (min <= List.length m)%nat
      /\ Forall (fun c => Re.atom_matches ic a c = true) m
      /\ k prev' rest = Some x.
Proof.
  induction s as [|c s IH]; intros min prev k x H; simpl in H.
  - destruct min; [|discriminate].
    exists [], [], prev. repeat split; [lia | constructor | exact H].
  - assert (Hstop : match min with O => k prev (c :: s) | S _ => None end
                    = Some x ->
                    exists m rest prev',
                      c :: s = m ++ rest /\ (min <= List.length m)%nat
                      /\ Forall (fun c => Re.atom_matches ic a c = true) m
                      /\ k prev' rest = Some x).
    { destruct min; [|discriminate]. intros Hk.
      exists [], (c :: s), prev. repeat split; [lia | constructor | exact Hk]. }
    destruct (Re.atom_matches ic a c) eqn:Ec; [|now apply Hstop].
    destruct (Re.rep_greedy ic a (Nat.pred min) (Some c) s k) as [r|] eqn:Er;
      [|now apply Hstop].
    injection H as ->.
    apply IH in Er as (m & rest & prev' & -> & Hlen & Hall & Hk).
    exists (c :: m), rest, prev'. repeat split.
    + simpl. lia.
    + now constructor.
    + exact Hk.
Qed.

(** Whatever the matcher accepts, it accepts by consuming a text of the
    expression and handing the rest to its continuation. *)
Lemma rx_match_sound (R : Type) (r : Re.regex) :
  forall (prev : option N) (s : pystr) (k : Re.cont R) (x : R),
    Re.rx_match ic r prev s k = Some x ->
    exists m rest prev',
      s = m ++ rest /\ Lang.lang ic r m /\ k prev' rest = Some x.
Proof.
  induction r as [|a| | | |r1 IH1 r2 IH2|r1 IH1 r2 IH2|min a];
    intros prev s k x H; simpl in H.
  - exists [], s, prev. now repeat split.
  - destruct s as [|c s]; [discriminate|].
    destruct (Re.atom_matches ic a c) eqn:Ec; [|discriminate].
    exists [c], s, (Some c). repeat split; [|exact H]. now exists c.
  - destruct prev; [discriminate|]. exists [], s, None. now repeat split.
  - destruct s as [|c [|c' s]].
    + exists [], [], prev. now repeat split.
    + destruct (c =? 10)%N; [|discriminate].
      exists [], [c], prev. now repeat split.
    + discriminate.
  - destruct (xorb _ _); [|discriminate]. exists [], s, prev. now repeat split.
  - apply IH1 in H as (m1 & rest1 & p1 & -> & Hl1 & H).
    apply IH2 in H as (m2 & rest2 & p2 & -> & Hl2 & H).
    exists (m1 ++ m2), rest2, p2. repeat split; [now rewrite app_assoc| |exact H].
    now exists m1, m2.
  - destruct (Re.rx_match ic r1 prev s k) as [y|] eqn:E1.
    + injection H as ->.
      apply IH1 in E1 as (m & rest & p' & -> & Hl & Hk).
      exists m, rest, p'. repeat split; [now left | exact Hk].
    + apply IH2 in H as (m & rest & p' & -> & Hl & Hk).
      exists m, rest, p'. repeat split; [now right | exact Hk].
  - apply rep_greedy_sound in H as (m & rest & p' & -> & Hlen & Hall & Hk).
    exists m, rest, p'. now repeat split.
Qed.

Lemma match_at_sound (p : Re.pattern) (prev : option N) (s g : pystr) :
  Re.match_at ic p prev s = Some g ->
  exists m0 m2 rest,
    s = m0 ++ g ++ m2 ++ rest
    /\ Lang.lang ic (Re.pre p) m0 /\ Lang.lang ic (Re.grp p) g
    /\ Lang.lang ic (Re.post p) m2.
Proof.
  unfold Re.match_at. intros H.
  apply rx_match_sound in H as (m0 & s1 & p1 & -> & H0 & H).
  apply rx_match_sound in H as (m1 & s2 & p2 & -> & H1 & H).
  apply rx_match_sound in H as (m2 & s3 & p3 & -> & H2 & H).
  injection H as <-.
  rewrite !length_app.
  replace (List.length m1 + (List.length m2 + List.length s3)
           - (List.length m2 + List.length s3))%nat
    with (List.length m1 + 0)%nat by lia.
  rewrite firstn_app_2. cbn [firstn]. rewrite app_nil_r.
  exists m0, m2, s3. now repeat split.
Qed.

Lemma search_from_sound (p : Re.pattern) (s : pystr) :
  forall (prev : option N) (g : pystr),
    Re.search_from ic p prev s = Some g ->
    exists before m0 m2 rest,
      s = before ++ m0 ++ g ++ m2 ++ rest
      /\ Lang.lang ic (Re.pre p) m0 /\ Lang.lang ic (Re.grp p) g
      /\ Lang.lang ic (Re.post p) m2.
Proof.
  induction s as [|c s IH]; intros prev g H; simpl in H.
  - destruct (Re.match_at ic p prev []) as [g'|] eqn:E; [|discriminate].
    injection H as ->.
    apply match_at_sound in E as (m0 & m2 & rest & E & H0 & H1 & H2).
    exists [], m0, m2, rest. now repeat split.
  - destruct (Re.match_at ic p prev (c :: s)) as [g'|] eqn:E.
    + injection H as ->.
      apply match_at_sound in E as (m0 & m2 & rest & E & H0 & H1 & H2).
      exists [], m0, m2, rest. now repeat split.
    + apply IH in H as (before & m0 & m2 & rest & -> & H0 & H1 & H2).
      exists (c :: before), m0, m2, rest. now repeat split.
Qed.

End MatcherSound.

(** What [re.search] returns as group 1 is a text of the group, found in
    the subject between a text of what stands before the group and a text
    of what stands after it. *)
Lemma search_sound (p : Re.pattern) (s : pystr) (ic : bool) (g : pystr) :
  Re.search p s ic = Some g ->
  exists before m0 m2 rest,
    s = before ++ m0 ++ g ++ m2 ++ rest
    /\ Lang.lang ic (Re.pre p) m0 /\ Lang.lang ic (Re.grp p) g
    /\ Lang.lang ic (Re.post p) m2.
Proof. unfold Re.search. apply search_from_sound. Qed.

(** Without IGNORECASE a literal text consumes itself only. *)
Lemma lang_lit_exact (s m : pystr) : Lang.lang false (Re.lit s) m -> m = s.
Proof.
  revert m. induction s as [|c s IH]; intros m H; [exact H|].
  destruct s as [|c' s].
  - destruct H as (x & -> & Hx). simpl in Hx.
    apply N.eqb_eq in Hx. now subst.
  - destruct H as (m1 & m2 & -> & (x & -> & Hx) & H2). simpl in Hx.
    apply N.eqb_eq in Hx. subst x. apply IH in H2. now subst.
Qed.

Lemma lang_spaces (ic : bool) (min : nat) (m : pystr) :
  Lang.lang ic (Re.Rep min Re.space) m ->
  (min <= List.length m)%nat /\ Forall (fun c => isspace c = true) m.
Proof.
  intros [Hlen Hall]. split; [exact Hlen|].
  eapply Forall_impl; [|exact Hall].
  intros c Hc. simpl in Hc. now rewrite orb_false_r in Hc.
Qed.

(** ** The vehicle and the driver *)

(** X1.  The number of the vehicle is either "НЕ УКАЗАН", with one warning
    recorded, or a non-empty run of upper-case Cyrillic letters and digits
    that the cell has after the word "Газель" and at least one whitespace
    character, with nothing recorded. *)
Theorem car_number_is_a_plate (car_info : cell) (i : Z) (self : self_) :
  exists number self',
    _extract_car_number car_info (IInt i) self = (Ok number, self')
    /\ ((number = u "НЕ УКАЗАН"
         /\ errors self' = errors self
         /\ exists w, warnings self' = warnings self ++ [w])
        \/ (number <> []
            /\ forallb Lang.is_plate_char number = true
            /\ self' = self
            /\ exists before spaces rest,
                 str car_info
                 = before ++ u "Газель" ++ spaces ++ number ++ rest
                 /\ spaces <> []
                 /\ forallb isspace spaces = true)).
Proof.
  unfold _extract_car_number.
  destruct (isna car_info).
  - unfold warn_row, row_number, bind, ret, warn.
    eexists; eexists; split; [reflexivity|]. left.
    split; [reflexivity|]. split; [reflexivity|]. eexists; reflexivity.
  - destruct (Re.search car_pattern (str car_info) false) as [g|] eqn:E.
    + exists g, self. split; [reflexivity|]. right.
      apply search_sound in E
        as (before & m0 & m2 & rest & Etext & Hpre & Hgrp & Hpost).
      cbn [car_pattern Re.pre Re.grp Re.post] in Hpre, Hgrp, Hpost.
      destruct Hpre as (word & spaces & -> & Hword & Hsp).
      apply lang_lit_exact in Hword. subst word.
      apply lang_spaces in Hsp as [Hsplen Hspall].
      destruct Hgrp as [Hlen Hall]. cbn [Lang.lang] in Hpost. subst m2.
      split; [destruct g; [simpl in Hlen; lia | discriminate]|].
      split.
      { apply forallb_forall. intros c Hc.
        pose proof (proj1 (Forall_forall _ _) Hall c Hc) as Hm.
        simpl in Hm. rewrite orb_false_r in Hm. exact Hm. }
      split; [reflexivity|].
      exists before, spaces, rest. split; [|split].
      * rewrite Etext, <- !app_assoc. reflexivity.
      * destruct spaces; [simpl in Hsplen; lia | discriminate].
      * apply forallb_forall. intros c Hc.
        exact (proj1 (Forall_forall _ _) Hspall c Hc).
    + unfold warn_row, row_number, bind, ret, warn.
      eexists; eexists; split; [reflexivity|]. left.
      split; [reflexivity|]. split; [reflexivity|]. eexists; reflexivity.
Qed.

Lemma contains_comma (s : pystr) : contains (u ",") s = true <-> In 44%N s.
Proof.
  change (u ",") with [44%N].
  induction s as [|c s IH]; [split; [discriminate|intros []]|].
  cbn [contains is_prefix In]. rewrite andb_true_r, orb_true_iff, IH.
  rewrite N.eqb_eq. intuition congruence.
Qed.

(** The first piece of a text split at its commas is the text before the
    first comma. *)
Lemma split_comma_head (s : pystr) :
  forall cur : pystr,
    In 44%N s ->
    exists before after,
      s = before ++ 44%N :: after /\ ~ In 44%N before
      /\ hd [] (split_aux [44%N] 0 cur s) = rev cur ++ before.
Proof.
  induction s as [|c s IH]; intros cur Hin; [destruct Hin|].
  cbn [split_aux is_prefix]. rewrite andb_true_r.
  destruct (44 =? c)%N eqn:E.
  - apply N.eqb_eq in E. subst c.
    exists [], s. repeat split; [tauto|]. cbn [hd]. now rewrite app_nil_r.
  - apply N.eqb_neq in E. destruct Hin as [Hc|Hin]; [congruence|].
    destruct (IH (c :: cur) Hin) as (before & after & -> & Hno & Hhd).
    exists (c :: before), after. repeat split.
    + intros [H|H]; [congruence|contradiction].
    + rewrite Hhd. cbn [rev]. now rewrite <- app_assoc.
Qed.

Lemma lstrip_by_app_keep (p : N -> bool) (x : pystr) (h : N) :
  p h = false -> lstrip_by p (x ++ [h]) = lstrip_by p x ++ [h].
Proof.
  intros Hh. induction x as [|c x IH]; simpl; [now rewrite Hh|].
  destruct (p c); [exact IH | reflexivity].
Qed.

Lemma lstrip_by_head (p : N -> bool) (s : pystr) :
  lstrip_by p s = [] \/ exists h t, lstrip_by p s = h :: t /\ p h = false.
Proof.
  induction s as [|c s IH]; simpl; [now left|].
  destruct (p c) eqn:E; [exact IH|]. right. now exists c, s.
Qed.

Lemma lstrip_by_idempotent (p : N -> bool) (s : pystr) :
  lstrip_by p (lstrip_by p s) = lstrip_by p s.
Proof.
  induction s as [|c s IH]; [reflexivity|]. simpl.
  destruct (p c) eqn:E; [exact IH|]. simpl. now rewrite E.
Qed.

(** What [strip] returns has no character to strip at either end. *)
Lemma strip_by_idempotent (p : N -> bool) (s : pystr) :
  strip_by p (strip_by p s) = strip_by p s.
Proof.
  unfold strip_by.
  destruct (lstrip_by_head p s) as [->|(h & t & -> & Hh)]; [reflexivity|].
  cbn [rev]. rewrite lstrip_by_app_keep by exact Hh.
  set (r := lstrip_by p (rev t)).
  rewrite rev_app_distr. cbn [rev app lstrip_by]. rewrite Hh.
  cbn [rev]. rewrite rev_involutive.
  rewrite lstrip_by_app_keep by exact Hh.
  unfold r. rewrite lstrip_by_idempotent.
  rewrite rev_app_distr. reflexivity.
Qed.

(** X2.  The name of the driver never has a comma in it.  For a cell with
    a comma it is the text before the first comma, without the whitespace
    at its two ends, and nothing is recorded; a cell without one comes back
    whole and a missing cell as "НЕ УКАЗАН", each with one warning. *)
Theorem driver_name_has_no_comma (driver_info : cell) (i : Z) (self : self_) :
  exists name self',
    _extract_driver_name driver_info (IInt i) self = (Ok name, self')
    /\ ~ In 44%N name
    /\ ((isna driver_info = true /\ name = u "НЕ УКАЗАН"
         /\ exists w, warnings self' = warnings self ++ [w])
        \/ (isna driver_info = false
            /\ (exists before after,
                  str driver_info = before ++ 44%N :: after
                  /\ ~ In 44%N before /\ name = strip before)
            /\ strip name = name /\ self' = self)
        \/ (isna driver_info = false /\ ~ In 44%N (str driver_info)
            /\ name = str driver_info
            /\ exists w, warnings self' = warnings self ++ [w])).
Proof.
  unfold _extract_driver_name.
  destruct (isna driver_info).
  - unfold warn_row, row_number, bind, ret, warn.
    eexists; eexists; split; [reflexivity|]. split.
    + vm_compute. intuition discriminate.
    + left. split; [reflexivity|]. split; [reflexivity|].
      eexists; reflexivity.
  - destruct (contains (u ",") (str driver_info)) eqn:E.
    + apply contains_comma in E.
      change (u ",") with [44%N]. unfold split.
      destruct (@split_comma_head (str driver_info) [] E)
        as (before & after & Etext & Hno & Hhd).
      rewrite Hhd. cbn [rev app].
      exists (strip before), self. split; [reflexivity|]. split.
      * intros H. apply Hno. now apply strip_In.
      * right; left. split; [reflexivity|]. split.
        -- now exists before, after.
        -- split; [apply strip_by_idempotent | reflexivity].
    + assert (Hno : ~ In 44%N (str driver_info)).
      { intros H. apply contains_comma in H. congruence. }
      unfold warn_row, row_number, bind, ret, warn.
      eexists; eexists; split; [reflexivity|]. split; [exact Hno|].
      right; right. split; [reflexivity|]. split; [exact Hno|].
      split; [reflexivity|]. eexists; reflexivity.
Qed.

(** ** Characters *)

Lemma range_In (lo hi c : N) :
  In c (Re.range lo hi) <-> (lo <= c <= hi)%N.
Proof.
  unfold Re.range. rewrite in_map_iff. split.
  - intros (k & <- & Hk). apply in_seq in Hk. lia.
  - intros H. exists (N.to_nat (c - lo)). split; [lia|].
    apply in_seq. lia.
Qed.

Lemma isspace_small (c : N) : isspace c = true -> (c <= 12288)%N.
Proof.
  unfold isspace, between.
  rewrite !orb_true_iff, !andb_true_iff, !N.leb_le, !N.eqb_eq. lia.
Qed.

(** A whitespace character has no case. *)
Lemma isspace_lower (c : N) : isspace c = true -> lower_char c = c.
Proof.
  intros H.
  assert (Hall : forallb (fun c => if isspace c then (lower_char c =? c)%N
                                   else true)
                         (Re.range 0 12288) = true)
    by (vm_compute; reflexivity).
  assert (Hin : In c (Re.range 0 12288))
    by (apply range_In; pose proof (isspace_small c H); lia).
  pose proof (proj1 (forallb_forall _ _) Hall c Hin) as Hc.
  cbv beta in Hc. rewrite H in Hc. now apply N.eqb_eq.
Qed.

(** A whitespace character is in no group of letters. *)
Lemma isspace_case_fix (c : N) : isspace c = true -> case_fix c = c.
Proof.
  intros H.
  assert (Hall : forallb (fun c => if isspace c then (case_fix c =? c)%N
                                   else true)
                         (Re.range 0 12288) = true)
    by (vm_compute; reflexivity).
  assert (Hin : In c (Re.range 0 12288))
    by (apply range_In; pose proof (isspace_small c H); lia).
  pose proof (proj1 (forallb_forall _ _) Hall c Hin) as Hc.
  cbv beta in Hc. rewrite H in Hc. now apply N.eqb_eq.
Qed.

(** A character of the set [[А-Яа-я\-]], in either case, is no
    whitespace. *)
Lemma cyrillic_not_space (c : N) :
  Re.atom_matches true cyrillic c = true -> isspace c = false.
Proof.
  intros H. destruct (isspace c) eqn:Es; [|reflexivity].
  assert (Hall : forallb (fun c => if isspace c
                                   then negb (Re.atom_matches true cyrillic c)
                                   else true)
                         (Re.range 0 12288) = true)
    by (vm_compute; reflexivity).
  assert (Hin : In c (Re.range 0 12288))
    by (apply range_In; pose proof (isspace_small c Es); lia).
  pose proof (proj1 (forallb_forall _ _) Hall c Hin) as Hc.
  cbv beta in Hc. rewrite Es, H in Hc. discriminate.
Qed.

Lemma lstrip_by_keeps (p : N -> bool) (c : N) (s : pystr) :
  In c s -> p c = false -> In c (lstrip_by p s).
Proof.
  intros Hin Hc. induction s as [|x s IH]; [destruct Hin|].
  simpl. destruct (p x) eqn:Ex; [|exact Hin].
  destruct Hin as [->|Hin]; [congruence | now apply IH].
Qed.

(** A text with a character that is no whitespace is not stripped to
    nothing. *)
Lemma strip_nonempty (c : N) (s : pystr) :
  In c s -> isspace c = false -> strip s <> [].
Proof.
  intros Hin Hc. unfold strip, strip_by.
  assert (H : In c (rev (lstrip_by isspace (rev (lstrip_by isspace s))))).
  { apply -> in_rev. apply lstrip_by_keeps; [|exact Hc].
    apply -> in_rev. now apply lstrip_by_keeps. }
  intros E. rewrite E in H. destruct H.
Qed.

(** ** The dictionary [locations]: what every entry is *)

Lemma dict_get_none_keys (k : pystr) (d : locations_t) :
  dict_get k d = None -> ~ In k (map fst d).
Proof.
  induction d as [|[k0 v0] d IH]; simpl; [tauto|].
  destruct (str_eqb k0 k) eqn:E; [discriminate|].
  apply str_eqb_neq in E. intros H [H0|H0]; [contradiction | now apply IH].
Qed.

Lemma dict_set_keys_new (k : pystr) (v : Z) (d : locations_t) :
  ~ In k (map fst d) -> map fst (dict_set k v d) = map fst d ++ [k].
Proof.
  induction d as [|[k0 v0] d IH]; simpl; intros H; [reflexivity|].
  destruct (str_eqb k0 k) eqn:E.
  - apply str_eqb_eq in E. tauto.
  - simpl. f_equal. apply IH. tauto.
Qed.

Lemma dict_set_keys_old (k : pystr) (v : Z) (d : locations_t) :
  In k (map fst d) -> map fst (dict_set k v d) = map fst d.
Proof.
  induction d as [|[k0 v0] d IH]; simpl; intros H; [destruct H|].
  destruct (str_eqb k0 k) eqn:E; [reflexivity|].
  apply str_eqb_neq in E. simpl. f_equal. apply IH.
  destruct H; [contradiction | assumption].
Qed.

Lemma dict_set_entries (P : pystr * Z -> Prop) (k : pystr) (v : Z)
    (d : locations_t) :
  Forall P d -> P (k, v) -> Forall P (dict_set k v d).
Proof.
  intros Hd Hk. induction d as [|[k0 v0] d IH]; simpl.
  - now constructor.
  - inversion Hd as [|? ? H0 Hrest]; subst.
    destruct (str_eqb k0 k) eqn:E.
    + apply str_eqb_eq in E. subst k0. now constructor.
    + constructor; [exact H0 | now apply IH].
Qed.

Lemma dict_set_good (k : pystr) (v : Z) (d : locations_t) :
  Inv.good d -> Inv.good_entry (k, v) -> Inv.good (dict_set k v d).
Proof.
  intros [Hnd Hall] Hk. split; [|now apply dict_set_entries].
  destruct (in_dec (list_eq_dec N.eq_dec) k (map fst d)) as [Hin|Hout].
  - now rewrite dict_set_keys_old.
  - rewrite dict_set_keys_new by exact Hout.
    apply NoDup_app; [exact Hnd | repeat constructor; tauto |].
    intros x Hx [<-|[]]. contradiction.
Qed.

Lemma corrections_name_cities (abbr city : pystr) :
  In (abbr, city) CITY_CORRECTIONS -> Inv.good_entry (city, 3).
Proof.
  unfold CITY_CORRECTIONS. intros H.
  repeat (destruct H as [H|H];
          [injection H as _ <-; repeat split;
           try (vm_compute; discriminate); lia|]).
  destruct H.
Qed.

Lemma correction_steps_good (address : pystr) (items : list (pystr * pystr)) :
  (forall abbr city, In (abbr, city) items ->
                     In (abbr, city) CITY_CORRECTIONS) ->
  forall locations,
    Inv.good locations ->
    Inv.good (fold_left (correction_step address) items locations).
Proof.
  induction items as [|[abbr city] items IH]; intros Hsub locations Hg;
    [exact Hg|].
  simpl. apply IH; [intros a c Hin; apply Hsub; now right|].
  destruct (Re.search _ _ _); [|exact Hg].
  apply dict_set_good; [exact Hg|].
  apply corrections_name_cities with abbr. apply Hsub. now left.
Qed.

(** With IGNORECASE a literal text consumes a text of the same letters. *)
Lemma lang_lit_head (s m : pystr) :
  s <> [] ->
  Lang.lang true (Re.lit s) m ->
  exists x rest, m = x :: rest /\ Re.same_letter x (hd 0%N s) = true.
Proof.
  destruct s as [|c [|c' s]]; intros Hne; [contradiction| |].
  - intros (x & -> & Hx). cbn [Re.atom_matches] in Hx. now exists x, [].
  - intros (m1 & m2 & -> & (x & -> & Hx) & _). cbn [Re.atom_matches] in Hx.
    now exists x, m2.
Qed.

Lemma lang_alts (ic : bool) (rs : list Re.regex) (m : pystr) :
  rs <> [] -> Lang.lang ic (Re.alts rs) m ->
  exists r, In r rs /\ Lang.lang ic r m.
Proof.
  induction rs as [|r rs IH]; intros Hne H; [contradiction|].
  destruct rs as [|r' rs].
  - exists r. split; [now left | exact H].
  - destruct H as [H|H].
    + exists r. split; [now left | exact H].
    + destruct (IH ltac:(discriminate) H) as (r0 & Hin & H0).
      exists r0. split; [now right | exact H0].
Qed.

(** A text that begins, in either case, with a letter that is no
    whitespace is not stripped to nothing. *)
Lemma strip_letter_first (x c : N) (rest : pystr) :
  Re.same_letter x c = true -> isspace (case_fix (lower_char c)) = false ->
  strip (x :: rest) <> [].
Proof.
  intros E Hc. apply strip_nonempty with x; [now left|].
  destruct (isspace x) eqn:Es; [|reflexivity].
  unfold Re.same_letter in E. apply N.eqb_eq in E.
  rewrite <- E, (isspace_lower x Es), (isspace_case_fix x Es) in Hc.
  congruence.
Qed.

Lemma lit_city_nonempty (s m : pystr) :
  s <> [] -> isspace (case_fix (lower_char (hd 0%N s))) = false ->
  Lang.lang true (Re.lit s) m -> strip m <> [].
Proof.
  intros Hne Hsp H.
  apply lang_lit_head in H as (x & r & -> & Hx); [|exact Hne].
  exact (@strip_letter_first x (hd 0%N s) r Hx Hsp).
Qed.

(** The group of each pattern: a run of Cyrillic letters and hyphens, or
    one of the five names of the second pattern. *)
Lemma patterns_groups (i : nat) (pattern : Re.pattern) :
  nth_error patterns i = Some pattern ->
  Re.grp pattern = Re.Rep 1 cyrillic
  \/ Re.grp pattern
     = Re.alts [ Re.lit (u "Волоколамск");
                 Re.lit (u "Одинцово");
                 Re.seqs [Re.lit (u "Сергиев"); Re.Rep 0 Re.space;
                          Re.lit (u "Посад")];
                 Re.lit (u "Киржач");
                 Re.lit (u "Аленино") ].
Proof.
  intros H. destruct i as [|[|[|[|i]]]];
    [ | | | | destruct i; discriminate ];
    cbv [patterns nth_error] in H;
    match type of H with Some ?q = _ => assert (E : pattern = q) by congruence end;
    rewrite E; cbn [Re.grp]; tauto.
Qed.

(** The city a pattern finds is not empty, also once stripped. *)
Lemma pattern_city_nonempty (i : nat) (pattern : Re.pattern)
    (address group1 : pystr) :
  nth_error patterns i = Some pattern ->
  Re.search pattern address true = Some group1 ->
  strip group1 <> [].
Proof.
  intros Hnth Hs.
  apply search_sound in Hs as (before & m0 & m2 & rest & _ & _ & Hgrp & _).
  destruct (patterns_groups _ Hnth) as [E|E]; rewrite E in Hgrp; clear E.
  - destruct Hgrp as [Hlen Hall].
    destruct group1 as [|c g]; [simpl in Hlen; lia|].
    apply strip_nonempty with c; [now left|].
    apply cyrillic_not_space. now inversion Hall.
  - apply lang_alts in Hgrp as (r & Hin & Hr); [|discriminate].
    destruct Hin as [<-|[<-|[<-|[<-|[<-|[]]]]]].
    + revert Hr.
      apply lit_city_nonempty; vm_compute; first [reflexivity|discriminate].
    + revert Hr.
      apply lit_city_nonempty; vm_compute; first [reflexivity|discriminate].
    + cbn [Re.seqs] in Hr. destruct Hr as (m1 & m2' & -> & H1 & _).
      apply lang_lit_head in H1 as (x & r & -> & Hx);
        [|vm_compute; discriminate].
      cbn [app]. apply (@strip_letter_first x _ _ Hx). vm_compute. reflexivity.
    + revert Hr.
      apply lit_city_nonempty; vm_compute; first [reflexivity|discriminate].
    + revert Hr.
      apply lit_city_nonempty; vm_compute; first [reflexivity|discriminate].
Qed.

Lemma enumerate_In {A} (l : list A) :
  forall (k i : nat) (x : A),
    In (i, x) (combine (seq k (List.length l)) l) ->
    exists j, i = (k + j)%nat /\ nth_error l j = Some x.
Proof.
  induction l as [|y l IH]; intros k i x H; [destruct H|].
  cbn [List.length seq combine] in H. destruct H as [H|H].
  - injection H as <- <-. exists 0%nat. split; [lia | reflexivity].
  - apply IH in H as (j & -> & Hj). exists (S j). split; [lia | exact Hj].
Qed.

Lemma pattern_step_good (address : pystr) (locations : locations_t)
    (i : nat) (pattern : Re.pattern) :
  nth_error patterns i = Some pattern ->
  Inv.good locations ->
  Inv.good (pattern_step address locations (i, pattern)).
Proof.
  intros Hnth Hg. unfold pattern_step.
  destruct (Re.search pattern address true) as [g|] eqn:Es; [|exact Hg].
  destruct (str_eqb (lower (strip g)) (u "дмитров")) eqn:Eo;
    cbn [negb]; [exact Hg|].
  assert (Hi : (i < 4)%nat).
  { change 4%nat with (List.length patterns).
    apply nth_error_Some. congruence. }
  assert (Hentry : Inv.good_entry (strip g, 3 - Z.of_nat i)).
  { repeat split; cbn [fst snd].
    - exact (pattern_city_nonempty _ _ Hnth Es).
    - now apply str_eqb_neq.
    - lia.
    - lia. }
  destruct (dict_get (strip g) locations) as [p0|].
  - destruct (p0 <? 3 - Z.of_nat i); [|exact Hg].
    now apply dict_set_good.
  - now apply dict_set_good.
Qed.

Lemma pattern_steps_good (address : pystr) (items : list (nat * Re.pattern)) :
  (forall i pattern, In (i, pattern) items ->
                     nth_error patterns i = Some pattern) ->
  forall locations,
    Inv.good locations ->
    Inv.good (fold_left (pattern_step address) items locations).
Proof.
  induction items as [|[i pattern] items IH]; intros Hsub locations Hg;
    [exact Hg|].
  simpl. apply IH; [intros j q Hin; apply Hsub; now right|].
  apply pattern_step_good; [|exact Hg]. apply Hsub. now left.
Qed.

Lemma address_step_good (locations : locations_t) (address : pystr) :
  Inv.good locations -> Inv.good (address_step locations address).
Proof.
  intros Hg. unfold address_step.
  destruct (strip address) as [|c rest]; [exact Hg|]. cbv zeta.
  apply pattern_steps_good.
  - intros i pattern Hin. unfold enumerate in Hin.
    apply enumerate_In in Hin as (j & -> & Hj). exact Hj.
  - apply correction_steps_good; [tauto | exact Hg].
Qed.

Lemma locations_of_good (address_text : pystr) :
  Inv.good (locations_of address_text).
Proof.
  unfold locations_of.
  assert (H : forall lines locations,
             Inv.good locations ->
             Inv.good (fold_left address_step lines locations)).
  { induction lines as [|l lines IH]; intros locations Hg; [exact Hg|].
    simpl. apply IH. now apply address_step_good. }
  apply H. split; constructor.
Qed.

Lemma insert_desc_perm (x : pystr * Z) (l : locations_t) :
  Permutation (insert_desc x l) (x :: l).
Proof.
  induction l as [|y l IH]; simpl; [reflexivity|].
  destruct (snd x <? snd y); [|reflexivity].
  rewrite IH. apply perm_swap.
Qed.

Lemma sorted_desc_perm (l : locations_t) : Permutation (sorted_desc l) l.
Proof.
  induction l as [|x l IH]; simpl; [reflexivity|].
  rewrite insert_desc_perm. now constructor.
Qed.

Lemma sorted_desc_good (l : locations_t) :
  Inv.good l -> Inv.good (sorted_desc l).
Proof.
  intros [Hnd Hall]. pose proof (sorted_desc_perm l) as Hp. split.
  - apply Permutation_NoDup with (map fst l); [|exact Hnd].
    apply Permutation_map. now symmetry.
  - apply Forall_forall. intros kv Hkv.
    apply (proj1 (Forall_forall _ _) Hall).
    now apply (Permutation_in _ Hp).
Qed.

(** ** The address parser: the place of a city in the result *)

Lemma dict_set_keys_extend (k : pystr) (v : Z) (d : locations_t) :
  exists added, map fst (dict_set k v d) = map fst d ++ added.
Proof.
  destruct (in_dec (list_eq_dec N.eq_dec) k (map fst d)) as [Hin|Hout].
  - exists []. now rewrite dict_set_keys_old, app_nil_r.
  - exists [k]. now apply dict_set_keys_new.
Qed.

Lemma keys_extend_refl (d : locations_t) :
  exists added, map fst d = map fst d ++ added.
Proof. exists []. now rewrite app_nil_r. Qed.

Lemma fold_keys_extend {A} (f : locations_t -> A -> locations_t) :
  (forall d x, exists added, map fst (f d x) = map fst d ++ added) ->
  forall items d,
    exists added, map fst (fold_left f items d) = map fst d ++ added.
Proof.
  intros Hf. induction items as [|x items IH]; intros d;
    [apply keys_extend_refl|].
  cbn [fold_left]. destruct (IH (f d x)) as [a2 E2].
  destruct (Hf d x) as [a1 E1].
  exists (a1 ++ a2). now rewrite E2, E1, app_assoc.
Qed.

(** A city that is in the dictionary keeps its place: a line only adds
    cities at the end. *)
Lemma address_step_keys (locations : locations_t) (address : pystr) :
  exists added,
    map fst (address_step locations address) = map fst locations ++ added.
Proof.
  unfold address_step. destruct (strip address) as [|c t];
    [apply keys_extend_refl|]. cbv zeta.
  destruct (@fold_keys_extend _ (correction_step (c :: t)))
    with (items := CITY_CORRECTIONS) (d := locations) as [a1 E1].
  { intros d [abbr full_city]. unfold correction_step.
    destruct (Re.search _ _ _);
      [apply dict_set_keys_extend | apply keys_extend_refl]. }
  destruct (@fold_keys_extend _ (pattern_step (c :: t)))
    with (items := enumerate patterns)
         (d := fold_left (correction_step (c :: t)) CITY_CORRECTIONS locations)
    as [a2 E2].
  { intros d [i pattern]. unfold pattern_step.
    destruct (Re.search _ _ _); [|apply keys_extend_refl].
    destruct (negb _); [|apply keys_extend_refl].
    destruct (dict_get _ d) as [p0|]; [|apply dict_set_keys_extend].
    destruct (p0 <? _); [apply dict_set_keys_extend | apply keys_extend_refl]. }
  exists (a1 ++ a2). now rewrite E2, E1, app_assoc.
Qed.

Lemma address_steps_keys (lines : list pystr) (locations : locations_t) :
  exists added,
    map fst (fold_left address_step lines locations)
    = map fst locations ++ added.
Proof.
  apply fold_keys_extend. apply address_step_keys.
Qed.

(** C4, as the program has it.  When a line of the address has an
    abbreviation of the dictionary that stands for "Сергиев Посад", that
    city is recorded with the priority 3.  The result of the address
    parser has the cities of the priority 3, then those of the priorities
    2, 1 and 0, and within one priority the cities in the order of the
    dictionary, which is the order in which they entered it: what the lines
    read so far have recorded stays at the front, whatever follows.  So
    "Сергиев Посад" comes after the cities of the priority 3 that are
    before it in the dictionary, and only after them: before the other
    cities of the priority 3 and before every city of a lower priority.  It
    is the first destination when no other city has the priority 3.  The
    route, under every row label, is the origin and the first three cities
    of the result. *)
Theorem abbreviation_outranks_lower_priority (address_text line abbr : pystr) :
  In line (address_lines address_text) ->
  In (abbr, u "Сергиев Посад") CITY_CORRECTIONS ->
  Re.search (abbr_pattern abbr) (lower (strip line)) false <> None ->
  let locations := locations_of address_text in
  let ranked p := map fst (Ranked.at_rank p locations) in
  dict_get (u "Сергиев Посад") locations = Some 3
  /\ _parse_addresses address_text
     = ranked 3 ++ ranked 2 ++ ranked 1 ++ ranked 0
  /\ (exists before after,
        locations = before ++ (u "Сергиев Посад", 3) :: after
        /\ _parse_addresses address_text
           = map fst (Ranked.at_rank 3 before)
               ++ u "Сергиев Посад" :: map fst (Ranked.at_rank 3 after)
               ++ ranked 2 ++ ranked 1 ++ ranked 0)
  /\ (forall lines1 lines2,
        address_lines address_text = lines1 ++ lines2 ->
        exists added,
          map fst locations
          = map fst (fold_left address_step lines1 []) ++ added)
  /\ (forall city p,
        In (city, p) locations -> p < 3 ->
        exists l1 l2 l3,
          _parse_addresses address_text
          = l1 ++ u "Сергиев Посад" :: l2 ++ city :: l3)
  /\ (forall row_index self,
        _extract_route (CStr address_text) row_index self
        = (Ok (u "Дмитров" :: firstn 3 (_parse_addresses address_text)),
           self))
  /\ ((forall city p,
         In (city, p) locations -> city <> u "Сергиев Посад" -> p < 3) ->
      exists rest,
        _parse_addresses address_text = u "Сергиев Посад" :: rest).
Proof.
  intros Hline Habbr Hmatch. cbv zeta.
  assert (Hsp : dict_get (u "Сергиев Посад") (locations_of address_text)
                = Some 3).
  { unfold locations_of. now apply address_steps_record with line abbr. }
  pose proof (dict_get_In _ _ Hsp) as Hin.
  assert (Hranks : Forall (fun kv : pystr * Z => 0 <= snd kv <= 3)
                          (locations_of address_text)).
  { destruct (locations_of_good address_text) as [_ Hall].
    eapply Forall_impl; [|exact Hall]. intros kv (_ & _ & Hp). exact Hp. }
  assert (Hall : _parse_addresses address_text
                 = map fst (Ranked.at_rank 3 (locations_of address_text))
                   ++ map fst (Ranked.at_rank 2 (locations_of address_text))
                   ++ map fst (Ranked.at_rank 1 (locations_of address_text))
                   ++ map fst (Ranked.at_rank 0 (locations_of address_text))).
  { unfold _parse_addresses. rewrite (sorted_desc_ranked Hranks).
    now rewrite !map_app. }
  split; [exact Hsp|]. split; [exact Hall|]. split.
  { apply in_split in Hin as (before & after & E).
    exists before, after. split; [exact E|].
    rewrite Hall. rewrite E at 1. unfold Ranked.at_rank at 1.
    rewrite filter_app. cbn [filter snd Z.eqb Pos.eqb].
    rewrite map_app. cbn [map fst]. now rewrite <- app_assoc. }
  split.
  { intros lines1 lines2 E. unfold locations_of. rewrite E, fold_left_app.
    apply address_steps_keys. }
  split.
  { intros city p Hcity Hlt. unfold _parse_addresses.
    destruct (@desc_precedes (sorted_desc (locations_of address_text))
                (u "Сергиев Посад") city 3 p)
      as (l1 & l2 & l3 & E).
    + apply sorted_desc_sorted.
    + now apply sorted_desc_In.
    + now apply sorted_desc_In.
    + exact Hlt.
    + exists (map fst l1), (map fst l2), (map fst l3).
      rewrite E, map_app. cbn [map fst]. rewrite map_app. reflexivity. }
  split.
  { intros row_index self.
    assert (Htext : address_text <> []).
    { intros ->. rewrite address_lines_empty in Hline.
      destruct Hline as [<-|[]]. apply Hmatch.
      now apply no_abbreviation_in_empty_line with (u "Сергиев Посад"). }
    assert (Hne : _parse_addresses address_text <> []).
    { unfold _parse_addresses. intros E. apply map_eq_nil in E.
      apply sorted_desc_In in Hin. rewrite E in Hin. destruct Hin. }
    unfold _extract_route. cbn [isna truthy str orb].
    destruct address_text as [|c t]; [contradiction|]. cbn [negb].
    destruct (_parse_addresses (c :: t)) as [|c0 l]; [contradiction|].
    reflexivity. }
  intros Honly. unfold _parse_addresses.
  pose proof (sorted_desc_sorted (locations_of address_text)) as Hs.
  apply sorted_desc_In in Hin.
  destruct (sorted_desc (locations_of address_text)) as [|[c0 p0] l] eqn:E;
    [destruct Hin|].
  exists (map fst l). cbn [map fst]. f_equal.
  destruct (str_eqb c0 (u "Сергиев Посад")) eqn:Ec;
    [now apply str_eqb_eq|].
  apply str_eqb_neq in Ec. exfalso.
  assert (Hc0 : In (c0, p0) (locations_of address_text)).
  { apply sorted_desc_In. rewrite E. now left. }
  pose proof (Honly _ _ Hc0 Ec) as Hlt.
  pose proof (desc_head Hs Hin) as Hle. simpl in Hle. lia.
Qed.

Lemma abbreviation_outranks_lower_priority_witness :
  let address_text := u "г. Клин, д. Борки" ++ [10%N] ++ u "сергиев" in
  _parse_addresses address_text = [u "Клин"; u "Сергиев Посад"; u "Борки"]
  /\ exists before after,
       locations_of address_text
       = before ++ (u "Сергиев Посад", 3) :: after
       /\ _parse_addresses address_text
          = map fst (Ranked.at_rank 3 before)
              ++ u "Сергиев Посад" :: map fst (Ranked.at_rank 3 after)
              ++ map fst (Ranked.at_rank 2 (locations_of address_text))
              ++ map fst (Ranked.at_rank 1 (locations_of address_text))
              ++ map fst (Ranked.at_rank 0 (locations_of address_text)).
Proof.
  destruct (@abbreviation_outranks_lower_priority
              (u "г. Клин, д. Борки" ++ [10%N] ++ u "сергиев")
              (u "сергиев") (u "сергиев"))
    as (_ & Hall & Hplace & _).
  - vm_compute. right. left. reflexivity.
  - vm_compute. tauto.
  - vm_compute. discriminate.
  - split; [|exact Hplace]. vm_compute. reflexivity.
Defined.

(** C4, as it is worded, fails on an address of two lines,
    "г. Клин, д. Борки" and "сергиев".  The second line has an abbreviation
    that stands for "Сергиев Посад"; the first has a match of the fourth
    pattern for another city, "Борки", of priority 0; but "Клин", recorded
    first with the priority 3, stays ahead.  After three such cities
    "Сергиев Посад" is not in the route at all. *)
Lemma abbreviation_city_not_first :
  let address_text := u "г. Клин, д. Борки" ++ [10%N] ++ u "сергиев" in
  let crowded :=
    u "г. Клин" ++ [10%N] ++ u "г. Тверь" ++ [10%N] ++ u "г. Руза"
      ++ [10%N] ++ u "сергиев, д. Борки" in
  address_lines address_text = [u "г. Клин, д. Борки"; u "сергиев"]
  /\ In (u "сергиев", u "Сергиев Посад") CITY_CORRECTIONS
  /\ Re.search (abbr_pattern (u "сергиев")) (lower (strip (u "сергиев")))
               false = Some (u "сергиев")
  /\ locations_of address_text
     = [(u "Клин", 3); (u "Борки", 0); (u "Сергиев Посад", 3)]
  /\ _extract_route (CStr address_text) (IInt 0) __init__
     = (Ok [u "Дмитров"; u "Клин"; u "Сергиев Посад"; u "Борки"], __init__)
  /\ locations_of crowded
     = [(u "Клин", 3); (u "Тверь", 3); (u "Руза", 3);
        (u "Сергиев Посад", 3); (u "Борки", 0)]
  /\ _extract_route (CStr crowded) (IInt 0) __init__
     = (Ok [u "Дмитров"; u "Клин"; u "Тверь"; u "Руза"], __init__).
Proof. evaluate. Qed.

(** ** The address parser: what every result is *)

(** X3.  The address parser never returns a city twice, never an empty
    name and never the origin "Дмитров", in whatever case it is written. *)
Theorem parsed_cities_are_distinct_destinations (address_text : pystr) :
  NoDup (_parse_addresses address_text)
  /\ Forall (fun city => city <> [] /\ lower city <> u "дмитров")
            (_parse_addresses address_text).
Proof.
  unfold _parse_addresses.
  destruct (sorted_desc_good (locations_of_good address_text)) as [Hnd Hall].
  split; [exact Hnd|].
  apply Forall_forall. intros city Hin.
  apply in_map_iff in Hin as ([k v] & <- & Hkv).
  destruct (proj1 (Forall_forall _ _) Hall _ Hkv) as (Hne & Ho & _).
  split; assumption.
Qed.

Lemma firstn_NoDup {A} (n : nat) (l : list A) : NoDup l -> NoDup (firstn n l).
Proof.
  intros H. rewrite <- (firstn_skipn n l) in H.
  now apply NoDup_app_remove_r in H.
Qed.

Lemma firstn_In {A} (n : nat) (l : list A) (x : A) :
  In x (firstn n l) -> In x l.
Proof.
  intros H. rewrite <- (firstn_skipn n l). apply in_or_app. now left.
Qed.

(** X4.  A route never names a place twice and never has an empty name:
    the origin does not come back among the destinations, and no
    destination is repeated. *)
Theorem route_has_no_repeats (address_text : cell) (i : Z) (self : self_) :
  exists route self',
    _extract_route address_text (IInt i) self = (Ok route, self')
    /\ NoDup route
    /\ Forall (fun place => place <> []) route.
Proof.
  assert (Hunknown : NoDup unknown_route
                     /\ Forall (fun place : pystr => place <> []) unknown_route).
  { split.
    - constructor; [|constructor; [intros []|constructor]].
      intros [H|[]]. vm_compute in H. discriminate.
    - repeat constructor; vm_compute; discriminate. }
  unfold _extract_route, warn_row, row_number, bind, ret, warn.
  destruct (isna address_text || negb (truthy address_text)).
  - eexists; eexists; split; [reflexivity | exact Hunknown].
  - destruct (_parse_addresses (str address_text)) as [|c l] eqn:E.
    + eexists; eexists; split; [reflexivity | exact Hunknown].
    + eexists; eexists; split; [reflexivity|].
      pose proof (locations_of_good (str address_text)) as Hg.
      apply sorted_desc_good in Hg as [Hnd Hall].
      fold (map fst (sorted_desc (locations_of (str address_text)))) in Hnd.
      change (map fst (sorted_desc (locations_of (str address_text))))
        with (_parse_addresses (str address_text)) in Hnd.
      assert (Hcity : forall city,
                 In city (_parse_addresses (str address_text)) ->
                 city <> [] /\ lower city <> u "дмитров").
      { intros city Hin. unfold _parse_addresses in Hin.
        apply in_map_iff in Hin as ([k v] & <- & Hkv).
        destruct (proj1 (Forall_forall _ _) Hall _ Hkv) as (Hne & Ho & _).
        now split. }
      rewrite E in Hnd, Hcity. cbn [app]. split.
      * constructor; [|now apply firstn_NoDup].
        intros Hin. apply firstn_In in Hin.
        destruct (Hcity _ Hin) as [_ Ho]. apply Ho.
        vm_compute. reflexivity.
      * constructor; [vm_compute; discriminate|].
        apply Forall_forall. intros place Hin. apply firstn_In in Hin.
        now destruct (Hcity _ Hin).
Qed.

(** ** Blank addresses *)

Lemma split_aux_chars (sep : pystr) (s : pystr) :
  forall (skip : nat) (cur line : pystr) (c : N),
    In line (split_aux sep skip cur s) -> In c line -> In c cur \/ In c s.
Proof.
  induction s as [|x s IH]; intros skip cur line c Hline Hc.
  - destruct Hline as [<-|[]]. left. now apply in_rev.
  - cbn [split_aux] in Hline. destruct skip as [|k].
    + destruct (is_prefix sep (x :: s)).
      * destruct Hline as [<-|Hline].
        -- left. now apply in_rev.
        -- destruct (IH _ _ _ _ Hline Hc) as [[]|H]. right. now right.
      * destruct (IH _ _ _ _ Hline Hc) as [[<-|H]|H].
        -- right. now left.
        -- now left.
        -- right. now right.
    + destruct (IH _ _ _ _ Hline Hc) as [H|H]; [now left | right; now right].
Qed.

Lemma strip_by_In (p : N -> bool) (x : N) (s : pystr) :
  In x (strip_by p s) -> In x s.
Proof.
  unfold strip_by. intros H.
  apply in_rev in H. apply lstrip_by_In in H.
  apply in_rev in H. now apply lstrip_by_In in H.
Qed.

Lemma lstrip_by_all (p : N -> bool) (s : pystr) :
  (forall c, In c s -> p c = true) -> lstrip_by p s = [].
Proof.
  induction s as [|x s IH]; intros H; [reflexivity|].
  simpl. rewrite (H x (or_introl eq_refl)). apply IH.
  intros c Hc. apply H. now right.
Qed.

Lemma strip_all_space (s : pystr) :
  (forall c, In c s -> isspace c = true) -> strip s = [].
Proof.
  intros H. unfold strip, strip_by. now rewrite (lstrip_by_all _ _ H).
Qed.

Lemma blank_lines_record_nothing (lines : list pystr)
    (locations : locations_t) :
  (forall line, In line lines -> strip line = []) ->
  fold_left address_step lines locations = locations.
Proof.
  revert locations. induction lines as [|l lines IH]; intros locations H;
    [reflexivity|].
  simpl. unfold address_step at 2. rewrite (H l (or_introl eq_refl)).
  apply IH. intros line Hin. apply H. now right.
Qed.

Lemma blank_text_has_no_city (address_text : pystr) :
  forallb isspace address_text = true -> _parse_addresses address_text = [].
Proof.
  intros H. unfold _parse_addresses, locations_of.
  rewrite blank_lines_record_nothing; [reflexivity|].
  intros line Hline. apply strip_all_space. intros c Hc.
  unfold address_lines, split in Hline.
  destruct (split_aux_chars _ _ _ _ _ c Hline Hc) as [[]|Hin].
  apply strip_by_In in Hin.
  exact (proj1 (forallb_forall _ _) H c Hin).
Qed.

(** X5.  An address of nothing but whitespace gives the route
    ["Дмитров", "Неизвестный пункт"] and exactly one warning: "адрес не
    указан" for the empty text, "не удалось извлечь маршрут" otherwise. *)
Theorem blank_address_falls_back (address_text : pystr) (i : Z)
    (self : self_) :
  forallb isspace address_text = true ->
  _extract_route (CStr address_text) (IInt i) self
  = (Ok [u "Дмитров"; u "Неизвестный пункт"],
     Build_self (errors self)
       (warnings self
        ++ [u "Строка " ++ str_of_Z (i + 1) ++ u ": "
            ++ (match address_text with
                | [] => u "адрес не указан"
                | _ :: _ => u "не удалось извлечь маршрут"
                end)])).
Proof.
  intros H. unfold _extract_route. cbn [isna truthy str orb].
  destruct address_text as [|c t]; [reflexivity|]. cbn [negb].
  rewrite (blank_text_has_no_city _ H). reflexivity.
Qed.

Lemma blank_address_falls_back_witness :
  _extract_route (CStr [32; 10; 9]%N) (IInt 4) __init__
  = (Ok [u "Дмитров"; u "Неизвестный пункт"],
     Build_self []
       ([] ++ [u "Строка " ++ str_of_Z (4 + 1) ++ u ": "
               ++ u "не удалось извлечь маршрут"])).
Proof.
  apply (@blank_address_falls_back [32; 10; 9]%N 4 __init__).
  reflexivity.
Defined.

(** ** The structure check *)

Lemma label_is_eq (col : pystr) (l : label) :
  label_is col l = true <-> l = LStr col.
Proof.
  destruct l as [s|]; simpl; [|split; discriminate].
  rewrite str_eqb_eq. split; congruence.
Qed.

Lemma has_column_In (col : pystr) (cols : list label) :
  has_column col cols = true <-> In (LStr col) cols.
Proof.
  unfold has_column. rewrite existsb_exists. split.
  - intros (l & Hin & Hl). apply label_is_eq in Hl. now subst.
  - intros H. exists (LStr col). split; [exact H | now apply label_is_eq].
Qed.

Lemma rename_keeps (old new col : pystr) (cols : list label) :
  In (LStr col) cols -> col <> old -> In (LStr col) (rename old new cols).
Proof.
  intros Hin Hne. unfold rename. apply in_map_iff.
  exists (LStr col). split; [|exact Hin].
  simpl. apply str_eqb_neq in Hne. now rewrite Hne.
Qed.

Lemma rename_gives (old new : pystr) (cols : list label) :
  In (LStr old) cols -> In (LStr new) (rename old new cols).
Proof.
  intros Hin. unfold rename. apply in_map_iff.
  exists (LStr old). split; [|exact Hin].
  simpl. now rewrite str_eqb_refl.
Qed.

Lemma find_partial_found (col actual_col : pystr) (cols : list label) :
  find_partial col cols = Some actual_col ->
  In (LStr actual_col) cols
  /\ contains (lower col) (lower actual_col) = true.
Proof.
  induction cols as [|[s|] cols IH]; simpl; [discriminate| |].
  - destruct (contains (lower col) (lower s)) eqn:E.
    + intros [= <-]. split; [now left | exact E].
    + intros H. apply IH in H as [Hin Hc]. split; [now right | exact Hc].
  - intros H. apply IH in H as [Hin Hc]. split; [now right | exact Hc].
Qed.

(** No required label is found inside another one. *)
Lemma required_not_nested (a b : pystr) :
  In a required_columns -> In b required_columns -> a <> b ->
  contains (lower b) (lower a) = false.
Proof.
  intros Ha Hb Hne.
  assert (Hall : forallb (fun a =>
                   forallb (fun b => str_eqb a b
                                     || negb (contains (lower b) (lower a)))
                           required_columns)
                         required_columns = true)
    by (vm_compute; reflexivity).
  pose proof (proj1 (forallb_forall _ _) Hall a Ha) as H1. cbv beta in H1.
  pose proof (proj1 (forallb_forall _ _) H1 b Hb) as H2. cbv beta in H2.
  apply str_eqb_neq in Hne. rewrite Hne in H2. cbn [orb] in H2.
  now apply negb_true_iff in H2.
Qed.

(** The loop over the required columns: the columns found stay found, each
    column of the list is found in the end or reported, and nothing else is
    reported. *)
Lemma check_columns_spec (required : list pystr) :
  forall (cols : list label) (missing found : list pystr),
    incl required required_columns ->
    incl found required_columns ->
    (forall a, In a found -> In (LStr a) cols) ->
    exists cols' added,
      check_columns required cols missing = (cols', missing ++ added)
      /\ List.length cols' = List.length cols
      /\ (forall a, In a found -> In (LStr a) cols')
      /\ (forall b, In b required -> In b added \/ In (LStr b) cols')
      /\ incl added required.
Proof.
  induction required as [|col required IH];
    intros cols missing found Hreq Hfound Hinv.
  - exists cols, []. rewrite app_nil_r. repeat split; try assumption.
    + intros b [].
    + intros b [].
  - assert (Hreq' : incl required required_columns)
      by (intros x Hx; apply Hreq; now right).
    assert (Hcol : In col required_columns) by (apply Hreq; now left).
    cbn [check_columns].
    destruct (has_column col cols) eqn:Ehas.
    + apply has_column_In in Ehas.
      destruct (IH cols missing (col :: found) Hreq')
        as (cols' & added & E & Hlen & Hkeep & Hall & Hincl).
      * intros x [<-|Hx]; [exact Hcol | now apply Hfound].
      * intros a [<-|Ha]; [exact Ehas | now apply Hinv].
      * exists cols', added. rewrite E. repeat split.
        -- exact Hlen.
        -- intros a Ha. apply Hkeep. now right.
        -- intros b [<-|Hb]; [right; apply Hkeep; now left | now apply Hall].
        -- intros x Hx. right. now apply Hincl.
    + destruct (find_partial col cols) as [actual_col|] eqn:Efind.
      * apply find_partial_found in Efind as [Hactual Hcontains].
        destruct (IH (rename actual_col col cols) missing (col :: found) Hreq')
          as (cols' & added & E & Hlen & Hkeep & Hall & Hincl).
        -- intros x [<-|Hx]; [exact Hcol | now apply Hfound].
        -- intros a [<-|Ha]; [now apply rename_gives|].
           apply rename_keeps; [now apply Hinv|].
           intros ->.
           assert (Hne : actual_col <> col).
           { intros ->. apply has_column_In in Hactual. congruence. }
           rewrite (required_not_nested (Hfound _ Ha) Hcol Hne) in Hcontains.
           discriminate.
        -- exists cols', added. rewrite E. repeat split.
           ++ rewrite Hlen. unfold rename. apply length_map.
           ++ intros a Ha. apply Hkeep. now right.
           ++ intros b [<-|Hb];
                [right; apply Hkeep; now left | now apply Hall].
           ++ intros x Hx. right. now apply Hincl.
      * destruct (IH cols (missing ++ [col]) found Hreq' Hfound Hinv)
          as (cols' & added & E & Hlen & Hkeep & Hall & Hincl).
        exists cols', (col :: added). rewrite E, <- app_assoc.
        repeat split.
        -- exact Hlen.
        -- exact Hkeep.
        -- intros b [<-|Hb]; [left; now left|].
           destruct (Hall b Hb) as [H|H]; [left; now right | now right].
        -- intros x [<-|Hx]; [now left | right; now apply Hincl].
Qed.

Lemma check_columns_exact (required : list pystr) (cols : list label)
    (missing : list pystr) :
  (forall col, In col required -> has_column col cols = true) ->
  check_columns required cols missing = (cols, missing).
Proof.
  induction required as [|col required IH]; intros H; [reflexivity|].
  cbn [check_columns]. rewrite (H col (or_introl eq_refl)).
  apply IH. intros c Hc. apply H. now right.
Qed.

(** X6.  The structure check leaves the rows and the number of columns as
    they are.  When it accepts the table, each of the five required labels
    is a column of the table afterwards, and nothing is recorded; a table
    that has the five labels already is not touched.  When it rejects the
    table, one error is recorded that lists required labels, and only
    such. *)
Theorem structure_check_outcome (df : DataFrame) (self : self_) :
  exists ok df' self',
    _validate_structure df self = (Ok (ok, df'), self')
    /\ rows df' = rows df
    /\ List.length (columns df') = List.length (columns df)
    /\ (if ok : bool
        then self' = self
             /\ Forall (fun col => has_column col (columns df') = true)
                       required_columns
        else exists missing,
               missing <> [] /\ incl missing required_columns
               /\ warnings self' = warnings self
               /\ errors self'
                  = errors self
                    ++ [u "Отсутствуют необходимые колонки: "
                        ++ join (u ", ") missing])
    /\ (Forall (fun col => has_column col (columns df) = true)
               required_columns ->
        ok = true /\ df' = df).
Proof.
  unfold _validate_structure.
  destruct (@check_columns_spec required_columns (columns df) [] [])
    as (cols' & added & E & Hlen & _ & Hall & Hincl).
  { intros x Hx. exact Hx. }
  { intros x []. }
  { intros a []. }
  cbn [app] in E. rewrite E.
  destruct added as [|m ms].
  - exists true, (Build_DataFrame cols' (rows df)), self.
    split; [reflexivity|]. split; [reflexivity|]. split; [exact Hlen|].
    split.
    + split; [reflexivity|]. apply Forall_forall. intros col Hcol.
      apply has_column_In. destruct (Hall col Hcol) as [[]|H]. exact H.
    + intros Hexact.
      rewrite check_columns_exact in E
        by (intros col Hcol; exact (proj1 (Forall_forall _ _) Hexact col Hcol)).
      injection E as <-. split; [reflexivity|]. now destruct df.
  - unfold bind, error, ret.
    eexists false, (Build_DataFrame cols' (rows df)), _.
    split; [reflexivity|]. split; [reflexivity|]. split; [exact Hlen|].
    split.
    + exists (m :: ms). repeat split; [discriminate | exact Hincl].
    + intros Hexact.
      rewrite check_columns_exact in E
        by (intros col Hcol; exact (proj1 (Forall_forall _ _) Hexact col Hcol)).
      discriminate.
Qed.

(** ** Rows with a number: every extractor answers *)

Lemma appends_refl (n : nat) (self : self_) : Effect.appends n self self.
Proof.
  split; [reflexivity|]. exists []. rewrite app_nil_r. split; [easy|simpl; lia].
Qed.

Lemma appends_trans (n m : nat) (s0 s1 s2 : self_) :
  Effect.appends n s0 s1 -> Effect.appends m s1 s2 ->
  Effect.appends (n + m) s0 s2.
Proof.
  intros [He1 (w1 & Hw1 & Hl1)] [He2 (w2 & Hw2 & Hl2)]. split; [congruence|].
  exists (w1 ++ w2). split.
  - rewrite Hw2, Hw1. now rewrite app_assoc.
  - rewrite length_app. lia.
Qed.

Lemma warn_row_numbered {A} (i : Z) (what : pystr) (a : A) (s : self_) :
  exists s', (warn_row (IInt i) what ;;; ret a) s = (Ok a, s')
             /\ Effect.appends 1 s s'.
Proof.
  unfold warn_row, row_number, bind, ret, warn.
  eexists. split; [reflexivity|]. split; [reflexivity|].
  eexists. split; [reflexivity | simpl; lia].
Qed.

Lemma parse_date_numbered (env : Env) (date_str : cell) (i : Z) :
  exists d, forall s,
    exists s', _parse_date env date_str (IInt i) s = (Ok (Some d), s')
               /\ Effect.appends 1 s s'.
Proof.
  unfold _parse_date.
  destruct date_str as [|t|z|b|nz t|d0 t]; cbn [isna].
  1: { exists (now env). intros s. apply warn_row_numbered. }
  5: { exists d0. intros s. exists s.
       split; [reflexivity | apply appends_refl]. }
  all: destruct (first_format env _ date_formats) as [d|];
    [ exists d; intros s; exists s;
      split; [reflexivity | apply appends_refl]
    | exists (now env); intros s; unfold try_except;
      match goal with
      | |- context [bind (warn_row (IInt ?j) ?what) _] =>
        destruct (warn_row_numbered j what (Some (now env)) s)
          as (s' & E & Ha)
      end;
      rewrite E; exists s'; split; [reflexivity | exact Ha] ].
Qed.

Lemma extract_driver_numbered (driver_info : cell) (i : Z) :
  exists name, forall s,
    exists s', _extract_driver_name driver_info (IInt i) s = (Ok name, s')
               /\ Effect.appends 1 s s'.
Proof.
  unfold _extract_driver_name. destruct (isna driver_info).
  - eexists. intros s. apply warn_row_numbered.
  - destruct (contains (u ",") (str driver_info)).
    + eexists. intros s. exists s. split; [reflexivity | apply appends_refl].
    + eexists. intros s. apply warn_row_numbered.
Qed.

Lemma extract_car_numbered (car_info : cell) (i : Z) :
  exists number, forall s,
    exists s', _extract_car_number car_info (IInt i) s = (Ok number, s')
               /\ Effect.appends 1 s s'.
Proof.
  unfold _extract_car_number. destruct (isna car_info).
  - eexists. intros s. apply warn_row_numbered.
  - destruct (Re.search car_pattern (str car_info) false) as [g|].
    + exists g. intros s. exists s. split; [reflexivity | apply appends_refl].
    + eexists. intros s. apply warn_row_numbered.
Qed.

Lemma extract_route_numbered (address_text : cell) (i : Z) :
  exists route, forall s,
    exists s', _extract_route address_text (IInt i) s = (Ok route, s')
               /\ Effect.appends 1 s s'.
Proof.
  unfold _extract_route.
  destruct (isna address_text || negb (truthy address_text)).
  - eexists. intros s. apply warn_row_numbered.
  - destruct (_parse_addresses (str address_text)) as [|c l].
    + eexists. intros s. apply warn_row_numbered.
    + eexists. intros s. exists s. split; [reflexivity | apply appends_refl].
Qed.

Lemma parse_amount_numbered (amount_str : cell) (i : Z) :
  exists d, forall s,
    exists s', _parse_amount amount_str (IInt i) s = (Ok d, s')
               /\ Effect.appends 1 s s'.
Proof.
  unfold _parse_amount. destruct (isna amount_str).
  - eexists. intros s. apply warn_row_numbered.
  - unfold try_except.
    destruct (Dec.of_str (clean_amount amount_str)) as [d|].
    + exists d. intros s. exists s. split; [reflexivity | apply appends_refl].
    + exists Dec.zero_00. intros s. unfold raise. cbv beta iota.
      apply warn_row_numbered.
Qed.

Lemma process_row_numbered (env : Env) (cols : list label) (row : list cell)
    (i : Z) :
  exists service, forall s,
    exists s', _process_row env cols row (IInt i) s = (Ok (Some service), s')
               /\ Effect.appends 5 s s'.
Proof.
  destruct (parse_date_numbered env (row_get cols row (u "Дата")) i)
    as (d & Hd).
  destruct (extract_driver_numbered (row_get cols row (u "Водитель")) i)
    as (name & Hname).
  destruct (extract_car_numbered (row_get cols row (u "Авто")) i)
    as (number & Hnumber).
  destruct (extract_route_numbered (row_get cols row (u "Адрес выгрузки")) i)
    as (route & Hroute).
  destruct (parse_amount_numbered (row_get cols row (u "Сумма за рейсы")) i)
    as (amount & Hamount).
  exists (new_TransportService d name number route amount amount).
  intros s0.
  destruct (Hd s0) as (s1 & E1 & A1).
  destruct (Hname s1) as (s2 & E2 & A2).
  destruct (Hnumber s2) as (s3 & E3 & A3).
  destruct (Hroute s3) as (s4 & E4 & A4).
  destruct (Hamount s4) as (s5 & E5 & A5).
  exists s5. split.
  - unfold _process_row, bind at 1. rewrite E1.
    unfold bind at 1. rewrite E2.
    unfold bind at 1. rewrite E3.
    unfold bind at 1. rewrite E4.
    unfold bind at 1. rewrite E5. reflexivity.
  - exact (appends_trans (appends_trans (appends_trans
             (appends_trans A1 A2) A3) A4) A5).
Qed.

Lemma row_service_numbered (env : Env) (cols : list label) (row : list cell)
    (i : Z) (service : TransportService) :
  (forall s, exists s',
      _process_row env cols row (IInt i) s = (Ok (Some service), s')
      /\ Effect.appends 5 s s') ->
  Effect.row_service env cols (IInt i, row) = Some service.
Proof.
  intros H. unfold Effect.row_service. cbn [fst snd].
  destruct (H __init__) as (s' & E & _). now rewrite E.
Qed.

Lemma process_rows_numbered (env : Env) (cols : list label)
    (rs : list (index * list cell)) :
  Forall Effect.numbered rs ->
  forall (services : list TransportService) (s : self_),
    exists out s',
      process_rows env cols rs services s = (Ok out, s')
      /\ map Some out = map Some services ++ map (Effect.row_service env cols) rs
      /\ Effect.appends (5 * List.length rs) s s'.
Proof.
  induction 1 as [|[index row] rs [z Hz] _ IH]; intros services s.
  - exists services, s. cbn [map]. rewrite app_nil_r.
    split; [reflexivity|]. split; [reflexivity | apply appends_refl].
  - cbn [fst] in Hz. subst index.
    destruct (process_row_numbered env cols row z) as (service & Hrow).
    pose proof (@row_service_numbered env cols row z service Hrow)
      as Hservice.
    destruct (Hrow s) as (s1 & E1 & A1).
    destruct (IH (services ++ [service]) s1) as (out & s' & E & Hout & A).
    exists out, s'. split; [|split].
    + cbn [process_rows]. unfold bind at 1, try_except, bind at 1.
      rewrite E1. unfold ret at 1. exact E.
    + rewrite Hout, map_app. cbn [map]. rewrite Hservice, <- app_assoc.
      reflexivity.
    + replace (5 * List.length ((IInt z, row) :: rs))%nat
        with (5 + 5 * List.length rs)%nat by (cbn [List.length]; lia).
      exact (appends_trans A1 A).
Qed.

(** ** Tables with numbered rows *)

(** X7.  When the rows of a table are numbered, [_process_data] never
    raises and drops no row: its result has, in the order of the rows, the
    service of each row.  It leaves the errors of the instance as they are
    and appends at most five warnings for each row. *)
Theorem every_numbered_row_gives_a_service (env : Env) (df : DataFrame)
    (self : self_) :
  Forall Effect.numbered (rows df) ->
  exists services self',
    _process_data env df self = (Ok services, self')
    /\ map Some services = map (Effect.row_service env (columns df)) (rows df)
    /\ List.length services = List.length (rows df)
    /\ Effect.appends (5 * List.length (rows df)) self self'.
Proof.
  intros H. unfold _process_data.
  destruct (process_rows_numbered env (columns df) H [] self)
    as (out & s' & E & Hout & A).
  exists out, s'. cbn [map app] in Hout. repeat split; try assumption.
  - rewrite <- (length_map Some out), Hout. apply length_map.
  - apply A.
  - apply A.
Qed.

Lemma every_numbered_row_gives_a_service_witness :
  exists services self',
    _process_data Sample.env Sample.trips __init__ = (Ok services, self')
    /\ map Some services
       = map (Effect.row_service Sample.env (columns Sample.trips))
             (rows Sample.trips)
    /\ List.length services = List.length (rows Sample.trips)
    /\ Effect.appends (5 * List.length (rows Sample.trips)) __init__ self'.
Proof.
  apply (@every_numbered_row_gives_a_service Sample.env Sample.trips __init__).
  repeat constructor; eexists; reflexivity.
Defined.

(** X8.  A file that a reader loads as a table with the required columns
    (after the partial matching of the labels) and numbered rows is always a
    success: the result has no error, one service for each row in the order
    of the rows, the count of the rows in its message and at most five
    warnings for each row. *)
Theorem numbered_table_is_processed (env : Env) (file_path : pystr)
    (self : self_) (df : DataFrame) (cols' : list label) :
  read_excel env file_path = Some df
  \/ (read_excel env file_path = None
      /\ first_csv env file_path encodings = Some df) ->
  check_columns required_columns (columns df) [] = (cols', []) ->
  Forall Effect.numbered (rows df) ->
  let r := fst (process_file env file_path self) in
  success r = true
  /\ Models.errors r = []
  /\ (exists services,
        data r = Some services
        /\ map Some services = map (Effect.row_service env cols') (rows df))
  /\ message r
     = u "Обработано " ++ str_of_Z (Z.of_nat (List.length (rows df)))
         ++ u " записей"
  /\ (List.length (Models.warnings r) <= 5 * List.length (rows df))%nat.
Proof.
  intros Hload Hcheck Hrows. cbv zeta.
  assert (Hdf : _load_data env file_path (Build_self [] [])
                = (Ok (Some df), Build_self [] [])).
  { unfold _load_data, ret.
    destruct Hload as [->|[-> ->]]; reflexivity. }
  destruct (process_rows_numbered env cols' Hrows [] (Build_self [] []))
    as (out & s' & E & Hout & (_ & ws & Hws & Hlen)).
  cbn [map app] in Hout. cbn [warnings] in Hws.
  assert (Hcount : List.length out = List.length (rows df)).
  { rewrite <- (length_map Some out), Hout. apply length_map. }
  unfold process_file, bind. rewrite Hdf.
  unfold _validate_structure. rewrite Hcheck. unfold ret.
  cbv beta iota. cbn [negb]. unfold _process_data, bind.
  cbn [columns rows]. rewrite E. cbv beta iota.
  cbn [fst success Models.errors data message Models.warnings].
  rewrite Hcount, Hws.
  repeat split; try reflexivity.
  - exists out. split; [reflexivity | exact Hout].
  - exact Hlen.
Qed.

Lemma numbered_table_is_processed_witness :
  let r := fst (process_file Sample.env (u "trips.csv") __init__) in
  success r = true
  /\ Models.errors r = []
  /\ (exists services,
        data r = Some services
        /\ map Some services
           = map (Effect.row_service Sample.env Sample.header)
                 (rows Sample.trips))
  /\ message r
     = u "Обработано "
         ++ str_of_Z (Z.of_nat (List.length (rows Sample.trips)))
         ++ u " записей"
  /\ (List.length (Models.warnings r)
      <= 5 * List.length (rows Sample.trips))%nat.
Proof.
  apply (@numbered_table_is_processed Sample.env (u "trips.csv") __init__
           Sample.trips Sample.header).
  - right. split; vm_compute; reflexivity.
  - vm_compute. reflexivity.
  - repeat constructor; eexists; reflexivity.
Defined.

(** ** Decimal arithmetic: sums that need no rounding *)

Lemma ndigits_fuel_bound (fuel : nat) :
  forall (c : N) (k : Z),
    (c < 2 ^ N.of_nat fuel)%N -> Z.of_N c < 10 ^ k -> 1 <= k ->
    1 <= DecArith.ndigits_fuel fuel c <= k.
Proof.
  induction fuel as [|fuel IH]; intros c k Hc Hk H1; cbn [DecArith.ndigits_fuel].
  - lia.
  - destruct (c <? 10)%N eqn:E; [lia|].
    apply N.ltb_ge in E.
    assert (Hk2 : 2 <= k).
    { destruct (Z.eq_dec k 1) as [->|]; [|lia]. change (10 ^ 1) with 10 in Hk. lia. }
    assert (Hdiv : (c / 10 < 2 ^ N.of_nat fuel)%N).
    { apply N.Div0.div_lt_upper_bound.
      rewrite Nat2N.inj_succ, N.pow_succ_r' in Hc. lia. }
    assert (HdivZ : Z.of_N (c / 10) < 10 ^ (k - 1)).
    { rewrite N2Z.inj_div. change (Z.of_N 10) with 10.
      apply Z.div_lt_upper_bound; [lia|].
      rewrite <- Z.pow_succ_r by lia.
      now replace (Z.succ (k - 1)) with k by lia. }
    destruct (IH (c / 10)%N (k - 1) Hdiv HdivZ) as [Hlo Hhi]; lia.
Qed.

(** A coefficient below 10^k has at most k digits. *)
Lemma ndigits_bound (c : N) (k : Z) :
  Z.of_N c < 10 ^ k -> 1 <= k -> 1 <= DecArith.ndigits c <= k.
Proof.
  intros Hk H1. unfold DecArith.ndigits.
  apply ndigits_fuel_bound; [|exact Hk|exact H1].
  rewrite N2Nat.id. apply N.size_gt.
Qed.

Lemma ndigits_positive (c : N) : 1 <= DecArith.ndigits c.
Proof.
  unfold DecArith.ndigits.
  generalize (N.to_nat (N.size c)). intros fuel. revert c.
  induction fuel as [|fuel IH]; intros c; cbn [DecArith.ndigits_fuel]; [lia|].
  destruct (c <? 10)%N; [lia|]. specialize (IH (c / 10)%N). lia.
Qed.

Lemma pow10_Z (k : Z) : 0 <= k -> Z.of_N (DecArith.pow10 k) = 10 ^ k.
Proof.
  intros H. unfold DecArith.pow10. apply Z2N.id. apply Z.pow_nonneg. lia.
Qed.

Lemma pow10_ge_1 (k : Z) : 0 <= k -> 1 <= 10 ^ k.
Proof.
  intros H. change 1 with (10 ^ 0). apply Z.pow_le_mono_r; lia.
Qed.

(** A number that fits the precision and has a moderate exponent is not
    changed by [_fix]. *)
Lemma fix_finite_plain (sign : bool) (c : N) (e : Z) :
  Z.of_N c < 10 ^ 28 -> -1000 <= e <= 1000 ->
  DecArith.fix_finite sign c e = DecArith.Value (Dec.Finite sign c e).
Proof.
  intros Hc He. unfold DecArith.fix_finite.
  destruct (c =? 0)%N eqn:E0.
  - apply N.eqb_eq in E0. subst c. do 2 f_equal.
    unfold DecArith.Etiny, DecArith.Emin, DecArith.Emax, DecArith.prec. lia.
  - cbv zeta.
    destruct (ndigits_bound c Hc ltac:(lia)) as [Hlo Hhi].
    unfold DecArith.Etop, DecArith.Etiny, DecArith.Emin, DecArith.Emax,
      DecArith.prec.
    destruct (DecArith.ndigits c + e - 28 >? 999999 - 28 + 1) eqn:E1.
    { apply Z.gtb_lt in E1. lia. }
    destruct (e <? Z.max (DecArith.ndigits c + e - 28) (-999999 - 28 + 1))
      eqn:E2.
    { apply Z.ltb_lt in E2. lia. }
    reflexivity.
Qed.

(** A coefficient whose multiple by 10^a is below 10^28. *)
Lemma coeff_bound (c : N) (a : Z) :
  (c <> 0)%N -> 0 <= a -> Z.of_N c * 10 ^ a < 10 ^ 28 ->
  a <= 27 /\ Z.of_N c < 10 ^ (28 - a).
Proof.
  intros Hc Ha H.
  assert (Hc1 : 1 <= Z.of_N c) by lia.
  assert (Ha27 : a <= 27).
  { destruct (Z_le_gt_dec a 27) as [|Hgt]; [assumption|exfalso].
    assert (10 ^ 28 <= 10 ^ a) by (apply Z.pow_le_mono_r; lia).
    assert (10 ^ a <= Z.of_N c * 10 ^ a) by nia.
    lia. }
  split; [exact Ha27|].
  replace (10 ^ 28) with (10 ^ (28 - a) * 10 ^ a) in H
    by (rewrite <- Z.pow_add_r by lia; f_equal; lia).
  pose proof (pow10_ge_1 Ha) as Hp.
  apply Z.mul_lt_mono_pos_r with (p := 10 ^ a); [lia | exact H].
Qed.

Lemma normalize_plain (q : Z) (c1 : N) (e1 : Z) (c2 : N) (e2 : Z) :
  (c1 <> 0)%N -> (c2 <> 0)%N ->
  - q <= e1 -> - q <= e2 ->
  Z.of_N c1 * 10 ^ (e1 + q) < 10 ^ 28 ->
  Z.of_N c2 * 10 ^ (e2 + q) < 10 ^ 28 ->
  DecArith.normalize c1 e1 c2 e2
  = ((c1 * DecArith.pow10 (e1 - Z.min e1 e2))%N,
     (c2 * DecArith.pow10 (e2 - Z.min e1 e2))%N,
     Z.min e1 e2).
Proof.
  intros H1 H2 Hq1 Hq2 Hb1 Hb2.
  destruct (@coeff_bound c1 (e1 + q) H1 ltac:(lia) Hb1) as [Ha1 Hc1].
  destruct (@coeff_bound c2 (e2 + q) H2 ltac:(lia) Hb2) as [Ha2 Hc2].
  destruct (ndigits_bound c1 Hc1 ltac:(lia)) as [Hl1 Hh1].
  destruct (ndigits_bound c2 Hc2 ltac:(lia)) as [Hl2 Hh2].
  unfold DecArith.normalize, DecArith.prec.
  destruct (e1 <? e2) eqn:Esw; cbv zeta.
  - apply Z.ltb_lt in Esw.
    destruct (DecArith.ndigits c1 + e1 - 1
              <? e2 + Z.min (-1) (DecArith.ndigits c2 - 28 - 2)) eqn:Es.
    { apply Z.ltb_lt in Es. lia. }
    replace (Z.min e1 e2) with e1 by lia.
    replace (e1 - e1) with 0 by lia.
    change (DecArith.pow10 0) with 1%N. now rewrite N.mul_1_r.
  - apply Z.ltb_ge in Esw.
    destruct (DecArith.ndigits c2 + e2 - 1
              <? e1 + Z.min (-1) (DecArith.ndigits c1 - 28 - 2)) eqn:Es.
    { apply Z.ltb_lt in Es. lia. }
    replace (Z.min e1 e2) with e2 by lia.
    replace (e2 - e2) with 0 by lia.
    change (DecArith.pow10 0) with 1%N. now rewrite N.mul_1_r.
Qed.

Lemma scale_split (c : N) (e e0 q : Z) :
  e0 <= e -> - q <= e0 ->
  Z.of_N (c * DecArith.pow10 (e - e0)) * 10 ^ (e0 + q)
  = Z.of_N c * 10 ^ (e + q).
Proof.
  intros H1 H2. rewrite N2Z.inj_mul, pow10_Z by lia.
  rewrite <- Z.mul_assoc, <- Z.pow_add_r by lia.
  do 2 f_equal. lia.
Qed.

(** The sum of two decimals with at most [q] digits after the point, when
    it fits the precision: nothing is rounded. *)
Lemma add_plain (q : Z) (s1 : bool) (c1 : N) (e1 : Z) (s2 : bool) (c2 : N)
    (e2 : Z) :
  0 <= q <= 1000 -> - q <= e1 <= 0 -> - q <= e2 <= 0 ->
  Z.of_N c1 * 10 ^ (e1 + q) + Z.of_N c2 * 10 ^ (e2 + q) < 10 ^ 28 ->
  exists s c,
    DecArith.add (Dec.Finite s1 c1 e1) (Dec.Finite s2 c2 e2)
    = DecArith.Value (Dec.Finite s c (Z.min e1 e2))
    /\ Invoice.scaled q (Dec.Finite s c (Z.min e1 e2))
       = Invoice.scaled q (Dec.Finite s1 c1 e1)
         + Invoice.scaled q (Dec.Finite s2 c2 e2).
Proof.
  intros Hq He1 He2 Hb.
  set (e := Z.min e1 e2).
  assert (Hee : - q <= e <= 0 /\ e <= e1 /\ e <= e2) by (unfold e; lia).
  destruct Hee as (Heq & Hle1 & Hle2).
  pose proof (pow10_ge_1 (k := e + q) ltac:(lia)) as HP.
  pose proof (pow10_ge_1 (k := e1 + q) ltac:(lia)) as HP1.
  pose proof (pow10_ge_1 (k := e2 + q) ltac:(lia)) as HP2.
  pose proof (@scale_split c1 e1 e q Hle1 ltac:(lia)) as Hs1.
  pose proof (@scale_split c2 e2 e q Hle2 ltac:(lia)) as Hs2.
  set (n1 := (c1 * DecArith.pow10 (e1 - e))%N) in *.
  set (n2 := (c2 * DecArith.pow10 (e2 - e))%N) in *.
  assert (Hn : Z.of_N n1 * 10 ^ (e + q) + Z.of_N n2 * 10 ^ (e + q) < 10 ^ 28)
    by lia.
  assert (Hn1 : Z.of_N n1 < 10 ^ 28) by nia.
  assert (Hn2 : Z.of_N n2 < 10 ^ 28) by nia.
  assert (Hn12 : Z.of_N n1 + Z.of_N n2 < 10 ^ 28) by nia.
  unfold DecArith.add. cbn [DecArith.check_nans].
  fold e. cbv zeta.
  destruct (c1 =? 0)%N eqn:E1; destruct (c2 =? 0)%N eqn:E2; cbn [andb].
  - apply N.eqb_eq in E1, E2. subst c1 c2.
    exists (s1 && s2), 0%N.
    rewrite fix_finite_plain by (change (Z.of_N 0) with 0; lia). split; [reflexivity|].
    unfold Invoice.scaled. destruct s1, s2; cbn [andb]; lia.
  - apply N.eqb_eq in E1. apply N.eqb_neq in E2. subst c1.
    destruct (@coeff_bound c2 (e2 + q) E2 ltac:(lia) ltac:(lia)) as [Ha2 _].
    replace (Z.max e (e2 - DecArith.prec - 1)) with e
      by (unfold DecArith.prec; lia).
    fold n2. exists s2, n2.
    rewrite fix_finite_plain by lia. split; [reflexivity|].
    unfold Invoice.scaled. destruct s1, s2; lia.
  - apply N.eqb_neq in E1. apply N.eqb_eq in E2. subst c2.
    destruct (@coeff_bound c1 (e1 + q) E1 ltac:(lia) ltac:(lia)) as [Ha1 _].
    replace (Z.max e (e1 - DecArith.prec - 1)) with e
      by (unfold DecArith.prec; lia).
    fold n1. exists s1, n1.
    rewrite fix_finite_plain by lia. split; [reflexivity|].
    unfold Invoice.scaled. destruct s1, s2; lia.
  - apply N.eqb_neq in E1, E2.
    rewrite (@normalize_plain q c1 e1 c2 e2 E1 E2) by lia.
    fold e. fold n1. fold n2.
    destruct (Bool.eqb s1 s2) eqn:Es.
    + apply Bool.eqb_prop in Es. subst s2.
      exists s1, (n1 + n2)%N.
      rewrite fix_finite_plain by lia. split; [reflexivity|].
      unfold Invoice.scaled. rewrite N2Z.inj_add. destruct s1; lia.
    + assert (Hs : s2 = negb s1) by (destruct s1, s2; easy).
      subst s2.
      destruct (n1 =? n2)%N eqn:En.
      * apply N.eqb_eq in En.
        exists false, 0%N.
        rewrite fix_finite_plain by (change (Z.of_N 0) with 0; lia). split; [reflexivity|].
        unfold Invoice.scaled. rewrite En in Hs1. destruct s1; cbn [negb]; lia.
      * apply N.eqb_neq in En. destruct (n1 <? n2)%N eqn:El.
        -- apply N.ltb_lt in El.
           exists (negb s1), (n2 - n1)%N.
           rewrite fix_finite_plain by lia. split; [reflexivity|].
           unfold Invoice.scaled. rewrite N2Z.inj_sub by lia.
           destruct s1; cbn [negb]; lia.
        -- apply N.ltb_ge in El.
           exists s1, (n1 - n2)%N.
           rewrite fix_finite_plain by lia. split; [reflexivity|].
           unfold Invoice.scaled. rewrite N2Z.inj_sub by lia.
           destruct s1; cbn [negb]; lia.
Qed.

Lemma scaled_abs (q : Z) (s : bool) (c : N) (e : Z) :
  - q <= e ->
  Z.abs (Invoice.scaled q (Dec.Finite s c e)) = Z.of_N c * 10 ^ (e + q).
Proof.
  intro He. pose proof (pow10_ge_1 (k := e + q) ltac:(lia)) as HP.
  unfold Invoice.scaled. destruct s; nia.
Qed.

Lemma add_plain_decimals (q : Z) (a b : Dec.Decimal) :
  0 <= q <= 1000 -> Invoice.plain q a -> Invoice.plain q b ->
  Z.abs (Invoice.scaled q a) + Z.abs (Invoice.scaled q b) < 10 ^ 28 ->
  exists d,
    DecArith.add a b = DecArith.Value d /\ Invoice.plain q d
    /\ Invoice.scaled q d = Invoice.scaled q a + Invoice.scaled q b.
Proof.
  intros Hq Ha Hb Hbound.
  destruct a as [s1 c1 e1| |]; try contradiction.
  destruct b as [s2 c2 e2| |]; try contradiction.
  cbn [Invoice.plain] in Ha, Hb.
  rewrite !scaled_abs in Hbound by lia.
  destruct (@add_plain q s1 c1 e1 s2 c2 e2 Hq Ha Hb Hbound)
    as (s & c & Hadd & Hval).
  exists (Dec.Finite s c (Z.min e1 e2)).
  split; [exact Hadd|]. split; [cbn [Invoice.plain]; lia | exact Hval].
Qed.

(** [sum] over amounts once the running total is a [Decimal]. *)
Lemma sum_from_decimal (q : Z) (l : list Dec.Decimal) :
  0 <= q <= 1000 -> Forall (Invoice.plain q) l ->
  forall acc : Dec.Decimal,
    Invoice.plain q acc ->
    Z.abs (Invoice.scaled q acc)
    + Invoice.sumZ (map (fun d => Z.abs (Invoice.scaled q d)) l) < 10 ^ 28 ->
    exists d,
      fold_left Invoice.sum_step l (DecArith.Value (Invoice.NDec acc))
      = DecArith.Value (Invoice.NDec d)
      /\ Invoice.plain q d
      /\ Invoice.scaled q d
         = Invoice.scaled q acc + Invoice.sumZ (map (Invoice.scaled q) l).
Proof.
  intros Hq Hl. induction Hl as [|x l Hx Hl IH]; intros acc Hacc Hbound.
  - exists acc. cbn [fold_left map Invoice.sumZ fold_right].
    split; [reflexivity|]. split; [exact Hacc | lia].
  - cbn [map Invoice.sumZ fold_right] in Hbound |- *.
    fold (Invoice.sumZ (map (fun d => Z.abs (Invoice.scaled q d)) l))
      in Hbound.
    fold (Invoice.sumZ (map (Invoice.scaled q) l)).
    assert (Hpos : 0 <= Invoice.sumZ
                          (map (fun d => Z.abs (Invoice.scaled q d)) l)).
    { clear. induction l as [|y l IHl]; cbn [map Invoice.sumZ fold_right];
        [lia|]. fold (Invoice.sumZ
                        (map (fun d => Z.abs (Invoice.scaled q d)) l)). lia. }
    destruct (@add_plain_decimals q acc x Hq Hacc Hx ltac:(lia))
      as (d & Hadd & Hd & Hval).
    cbn [fold_left Invoice.sum_step]. rewrite Hadd.
    cbn [Invoice.as_number].
    destruct (IH d Hd) as (d' & Hfold & Hd' & Hval').
    { pose proof (Z.abs_triangle (Invoice.scaled q acc) (Invoice.scaled q x)).
      lia. }
    exists d'. split; [exact Hfold|]. split; [exact Hd' | lia].
Qed.

Lemma map_map_amount (f : Dec.Decimal -> Z) (l : list TransportService) :
  map f (map amount l) = map (fun svc => f (amount svc)) l.
Proof. apply map_map. Qed.

(** X9 ([InvoiceData.total_amount], core/models.py): the total of an
    invoice whose amounts are finite decimals with at most [q] digits after
    the point, and small enough for the sum of their absolute values to fit
    the 28 digits of the default context, is exact: [sum] raises nothing
    and its result is worth, in units of 10^-q, the integer sum of the
    amounts.  The result is the [int] 0 for an invoice without services
    and otherwise a [Decimal] with at most [q] digits after the point. *)
Theorem total_amount_is_exact (q : Z) (inv : Invoice.InvoiceData) :
  0 <= q <= 1000 ->
  Forall (fun svc => Invoice.plain q (amount svc)) (Invoice.services inv) ->
  Invoice.sumZ (map (fun svc => Z.abs (Invoice.scaled q (amount svc)))
                    (Invoice.services inv)) < 10 ^ 28 ->
  exists n,
    Invoice.total_amount inv = DecArith.Value n
    /\ Invoice.number_scaled q n
       = Invoice.sumZ (map (fun svc => Invoice.scaled q (amount svc))
                           (Invoice.services inv))
    /\ (Invoice.services inv = [] -> n = Invoice.NInt 0)
    /\ (Invoice.services inv <> [] ->
        exists d, n = Invoice.NDec d /\ Invoice.plain q d).
Proof.
  intros Hq Hplain Hbound. unfold Invoice.total_amount.
  destruct (Invoice.services inv) as [|svc rest].
  - exists (Invoice.NInt 0). cbn [fold_left map Invoice.sumZ fold_right
      Invoice.number_scaled].
    split; [reflexivity|]. split; [lia|]. split; [reflexivity|congruence].
  - inversion Hplain as [|? ? Hsvc Hrest]; subst.
    cbn [map Invoice.sumZ fold_right] in Hbound |- *.
    fold (Invoice.sumZ (map (fun s => Z.abs (Invoice.scaled q (amount s)))
                            rest)) in Hbound.
    fold (Invoice.sumZ (map (fun s => Invoice.scaled q (amount s)) rest)).
    assert (Hpos : 0 <= Invoice.sumZ
                     (map (fun s => Z.abs (Invoice.scaled q (amount s)))
                          rest)).
    { clear. induction rest as [|y l IHl]; cbn [map Invoice.sumZ fold_right];
        [lia|]. fold (Invoice.sumZ
                   (map (fun s => Z.abs (Invoice.scaled q (amount s))) l)).
      lia. }
    assert (Hzero : Invoice.plain q (DecArith.of_int 0))
      by (cbn; lia).
    destruct (@add_plain_decimals q (amount svc) (DecArith.of_int 0) Hq Hsvc
                Hzero) as (d & Hadd & Hd & Hval).
    { change (Invoice.scaled q (DecArith.of_int 0)) with (0 * 10 ^ (0 + q)).
      lia. }
    cbn [fold_left Invoice.sum_step]. rewrite Hadd. cbn [Invoice.as_number].
    destruct (@sum_from_decimal q (map amount rest) Hq) with (acc := d)
      as (d' & Hfold & Hd' & Hval').
    { apply Forall_map. exact Hrest. }
    { exact Hd. }
    { rewrite map_map_amount. rewrite Hval.
      change (Invoice.scaled q (DecArith.of_int 0)) with (0 * 10 ^ (0 + q)).
      lia. }
    exists (Invoice.NDec d'). split; [exact Hfold|].
    split.
    { cbn [Invoice.number_scaled]. rewrite Hval', Hval, map_map_amount.
      change (Invoice.scaled q (DecArith.of_int 0)) with (0 * 10 ^ (0 + q)).
      lia. }
    split; [discriminate|]. intros _. exists d'. split; [reflexivity|exact Hd'].
Qed.

Lemma total_amount_is_exact_witness :
  exists n,
    Invoice.total_amount InvoiceSample.invoice = DecArith.Value n
    /\ Invoice.number_scaled 2 n = 113450.
Proof.
  destruct (@total_amount_is_exact 2 InvoiceSample.invoice)
    as (n & Htotal & Hvalue & _).
  - lia.
  - repeat constructor; vm_compute; discriminate.
  - vm_compute. reflexivity.
  - exists n. split; [exact Htotal | exact Hvalue].
Defined.

(* ------------------------------------------------------------------ *)
(** ** The edit of a quantity or a price *)

(** A product of a decimal and an [int] that fits the precision is not
    rounded. *)
Lemma mul_of_int_plain (s : bool) (c : N) (e k : Z) :
  Z.of_N c * Z.abs k < 10 ^ 28 -> -1000 <= e <= 1000 ->
  DecArith.mul (Dec.Finite s c e) (DecArith.of_int k)
  = DecArith.Value (Dec.Finite (xorb s (k <? 0)) (c * Z.abs_N k) e).
Proof.
  intros Hc He. unfold DecArith.mul, DecArith.of_int.
  cbn [DecArith.check_nans]. rewrite Z.add_0_r.
  apply fix_finite_plain; [|exact He].
  rewrite N2Z.inj_mul, N2Z.inj_abs_N. exact Hc.
Qed.

Lemma scaled_product (q : Z) (s : bool) (c : N) (e k : Z) :
  Invoice.scaled q (Dec.Finite (xorb s (k <? 0)) (c * Z.abs_N k) e)
  = k * Invoice.scaled q (Dec.Finite s c e).
Proof.
  unfold Invoice.scaled. rewrite N2Z.inj_mul, N2Z.inj_abs_N.
  destruct (Z.ltb_spec k 0); destruct s; cbn [xorb]; nia.
Qed.

Lemma recompute_amount_exact (service : TransportService) (s : bool) (c : N)
    (e : Z) :
  price service = Dec.Finite s c e -> -1000 <= e <= 1000 ->
  Z.of_N c * Z.abs (quantity service) < 10 ^ 28 ->
  exists service',
    ModernUIEdit.recompute_amount service = (true, service')
    /\ ModernUIEdit.same_but_amount service service'
    /\ amount service'
       = Dec.Finite (xorb s (quantity service <? 0))
                    (c * Z.abs_N (quantity service)) e.
Proof.
  intros Hp He Hc. unfold ModernUIEdit.recompute_amount.
  rewrite Hp, mul_of_int_plain by assumption.
  eexists. split; [reflexivity|]. split; [|reflexivity].
  unfold ModernUIEdit.same_but_amount, ModernUIEdit.with_amount. cbn. tauto.
Qed.

(** X10 ([ModernTableModel.setData], the column of the quantity,
    gui/modern_ui.py): an edit of the quantity to the integer [k], on a
    service whose price is a finite decimal of coefficient [c] and exponent
    [e] with [c * |k|] below 10^28, is accepted; the quantity is [k], the
    amount is the exact product of the price and [k] at the exponent of the
    price (nothing is rounded), and the date, the driver, the car, the
    route, the unit, the price and the edited description are as before. *)
Theorem quantity_edit_recomputes_amount (service : TransportService) (k : Z)
    (s : bool) (c : N) (e : Z) :
  price service = Dec.Finite s c e -> -1000 <= e <= 1000 ->
  Z.of_N c * Z.abs k < 10 ^ 28 ->
  exists service',
    ModernUIEdit.setData_quantity service (Some k) = (true, service')
    /\ quantity service' = k
    /\ amount service' = Dec.Finite (xorb s (k <? 0)) (c * Z.abs_N k) e
    /\ (forall q, Invoice.scaled q (amount service')
                  = k * Invoice.scaled q (price service))
    /\ date service' = date service
    /\ driver_name service' = driver_name service
    /\ car_number service' = car_number service
    /\ route service' = route service
    /\ unit service' = unit service
    /\ price service' = price service
    /\ _description service' = _description service.
Proof.
  intros Hp He Hc. unfold ModernUIEdit.setData_quantity.
  destruct (@recompute_amount_exact (ModernUIEdit.with_quantity service k)
              s c e Hp He Hc)
    as (service' & Hrun & Hsame & Hamount).
  exists service'. split; [exact Hrun|].
  destruct Hsame as (Hd & Hn & Hcar & Hr & Hq & Hu & Hpr & Hdesc).
  cbn [ModernUIEdit.with_quantity quantity date driver_name car_number route
       unit price _description] in *.
  split; [exact Hq|]. split; [exact Hamount|].
  split.
  { intro q. rewrite Hamount, Hp. apply scaled_product. }
  tauto.
Qed.

Lemma quantity_edit_recomputes_amount_witness :
  exists service',
    ModernUIEdit.setData_quantity Sample.service_klin (Some 3)
    = (true, service')
    /\ quantity service' = 3
    /\ amount service' = Dec.Finite false 370350 (-2).
Proof.
  destruct (@quantity_edit_recomputes_amount Sample.service_klin 3 false
              123450 (-2))
    as (service' & Hrun & Hq & Hamount & _).
  - reflexivity.
  - lia.
  - vm_compute. reflexivity.
  - exists service'. split; [exact Hrun|]. split; [exact Hq|exact Hamount].
Defined.

(** X11 ([ModernTableModel.setData], the column of the price,
    gui/modern_ui.py): an edit of the price to a text that [Decimal] reads
    as a finite number of coefficient [c] and exponent [e], on a service of
    quantity [n] with [c * |n|] below 10^28, is accepted; the price is the
    number read, the amount is the exact product of it and the quantity,
    and the other attributes are as before. *)
Theorem price_edit_recomputes_amount (service : TransportService)
    (text : pystr) (s : bool) (c : N) (e : Z) :
  Dec.of_str text = Some (Dec.Finite s c e) -> -1000 <= e <= 1000 ->
  Z.of_N c * Z.abs (quantity service) < 10 ^ 28 ->
  exists service',
    ModernUIEdit.setData_price service text = (true, service')
    /\ price service' = Dec.Finite s c e
    /\ amount service'
       = Dec.Finite (xorb s (quantity service <? 0))
                    (c * Z.abs_N (quantity service)) e
    /\ (forall q, Invoice.scaled q (amount service')
                  = quantity service * Invoice.scaled q (price service'))
    /\ date service' = date service
    /\ driver_name service' = driver_name service
    /\ car_number service' = car_number service
    /\ route service' = route service
    /\ quantity service' = quantity service
    /\ unit service' = unit service
    /\ _description service' = _description service.
Proof.
  intros Hp He Hc. unfold ModernUIEdit.setData_price. rewrite Hp.
  destruct (@recompute_amount_exact
              (ModernUIEdit.with_price service (Dec.Finite s c e)) s c e
              eq_refl He Hc)
    as (service' & Hrun & Hsame & Hamount).
  exists service'. split; [exact Hrun|].
  destruct Hsame as (Hd & Hn & Hcar & Hr & Hq & Hu & Hpr & Hdesc).
  cbn [ModernUIEdit.with_price quantity date driver_name car_number route
       unit price _description] in *.
  split; [exact Hpr|]. split; [exact Hamount|].
  split.
  { intro q. rewrite Hamount, Hpr. apply scaled_product. }
  tauto.
Qed.

Lemma price_edit_recomputes_amount_witness :
  exists service',
    ModernUIEdit.setData_price Sample.service_klin (u "1500.5")
    = (true, service')
    /\ price service' = Dec.Finite false 15005 (-1)
    /\ amount service' = Dec.Finite false 15005 (-1).
Proof.
  destruct (@price_edit_recomputes_amount Sample.service_klin (u "1500.5")
              false 15005 (-1))
    as (service' & Hrun & Hp & Hamount & _).
  - vm_compute. reflexivity.
  - lia.
  - vm_compute. reflexivity.
  - exists service'. split; [exact Hrun|]. split; [exact Hp|exact Hamount].
Defined.

(* ------------------------------------------------------------------ *)
(** ** The route read back from a description *)

Local Open Scope N_scope.

Lemma is_prefix_self (w rest : pystr) : is_prefix w (w ++ rest) = true.
Proof.
  induction w as [|x w IH]; [reflexivity|].
  cbn [app is_prefix]. now rewrite N.eqb_refl.
Qed.

(** A word does not reach over a character it does not have. *)
Lemma is_prefix_sep (c : N) (w : pystr) :
  ~ In c w ->
  forall x rest : pystr, is_prefix w (x ++ c :: rest) = is_prefix w x.
Proof.
  induction w as [|a w IH]; intros Hc x rest; [now destruct x|].
  destruct x as [|y x]; cbn [app is_prefix].
  - destruct (N.eqb_spec a c) as [->|_]; [|reflexivity].
    exfalso. apply Hc. now left.
  - rewrite IH; [reflexivity|]. intros H. apply Hc. now right.
Qed.

Lemma contains_app_sep (c : N) (w a b : pystr) :
  ~ In c w -> w <> [] ->
  contains w (a ++ c :: b) = contains w a || contains w b.
Proof.
  intros Hc Hw. induction a as [|y a IH].
  - cbn [app contains]. destruct w as [|x w]; [congruence|].
    cbn [is_prefix].
    destruct (N.eqb_spec x c) as [->|_]; [|reflexivity].
    exfalso. apply Hc. now left.
  - change ((y :: a) ++ c :: b) with (y :: (a ++ c :: b)).
    cbn [contains]. rewrite IH.
    change (y :: (a ++ c :: b)) with ((y :: a) ++ c :: b).
    rewrite (@is_prefix_sep _ _ Hc). now rewrite orb_assoc.
Qed.

Lemma contains_intro (w a b : pystr) : contains w (a ++ w ++ b) = true.
Proof.
  induction a as [|y a IH].
  - cbn [app]. destruct (w ++ b) eqn:E; cbn [contains]; rewrite <- E;
      now rewrite is_prefix_self.
  - cbn [app contains]. rewrite IH. apply orb_true_r.
Qed.

Lemma contains_needs_head (x : N) (w s : pystr) :
  ~ In x s -> contains (x :: w) s = false.
Proof.
  induction s as [|y s IH]; intros H; [reflexivity|].
  cbn [contains is_prefix].
  destruct (N.eqb_spec x y) as [->|_]; [exfalso; apply H; now left|].
  cbn [andb orb]. apply IH. intros Hin. apply H. now right.
Qed.

Lemma contains_char (c : N) (s : pystr) :
  contains [c] s = false <-> ~ In c s.
Proof.
  induction s as [|y s IH]; [cbn; tauto|].
  cbn [contains is_prefix In]. rewrite andb_true_r, orb_false_iff, IH.
  rewrite N.eqb_neq. intuition congruence.
Qed.

(** *** [split] around the first separator *)

Lemma split_aux_skip (sep x : pystr) :
  forall cur rest : pystr,
    split_aux sep (List.length x) cur (x ++ rest) = split_aux sep 0 cur rest.
Proof.
  induction x as [|y x IH]; intros cur rest; [reflexivity|].
  cbn [List.length app split_aux]. apply IH.
Qed.

Lemma split_aux_here (sep : pystr) (cur rest : pystr) :
  sep <> [] ->
  split_aux sep 0 cur (sep ++ rest) = rev cur :: split_aux sep 0 [] rest.
Proof.
  intros Hsep. destruct sep as [|x sep]; [congruence|].
  change ((x :: sep) ++ rest) with (x :: (sep ++ rest)).
  cbn [split_aux].
  change (x :: (sep ++ rest)) with ((x :: sep) ++ rest).
  rewrite is_prefix_self. f_equal.
  replace (List.length (x :: sep) - 1)%nat with (List.length sep)
    by (cbn [List.length]; lia).
  apply split_aux_skip.
Qed.

(** Text before a character the separator does not have, with no separator
    in it, is passed over. *)
Lemma split_aux_pass (sep a : pystr) (c : N) (rest : pystr) :
  ~ In c sep -> sep <> [] -> contains sep a = false ->
  forall cur : pystr,
    split_aux sep 0 cur (a ++ c :: rest)
    = split_aux sep 0 (c :: rev a ++ cur) rest.
Proof.
  intros Hc Hsep. induction a as [|y a IH]; intros Ha cur.
  - cbn [app rev split_aux]. destruct sep as [|x sep]; [congruence|].
    cbn [is_prefix].
    destruct (N.eqb_spec x c) as [->|_]; [|reflexivity].
    exfalso. apply Hc. now left.
  - cbn [contains] in Ha. apply orb_false_iff in Ha. destruct Ha as [Hp Ha].
    change ((y :: a) ++ c :: rest) with (y :: (a ++ c :: rest)).
    cbn [split_aux].
    change (y :: (a ++ c :: rest)) with ((y :: a) ++ c :: rest).
    rewrite (@is_prefix_sep _ _ Hc), Hp. rewrite IH by exact Ha.
    cbn [rev]. now rewrite <- app_assoc.
Qed.

Lemma split_aux_none (sep s : pystr) :
  contains sep s = false ->
  forall cur : pystr, split_aux sep 0 cur s = [rev cur ++ s].
Proof.
  induction s as [|y s IH]; intros Hs cur.
  - cbn [split_aux]. now rewrite app_nil_r.
  - cbn [contains] in Hs. apply orb_false_iff in Hs. destruct Hs as [Hp Hs].
    cbn [split_aux]. rewrite Hp, IH by exact Hs.
    cbn [rev]. now rewrite <- app_assoc.
Qed.

(** A text of the form [a c sep rest], [c] being a character the separator
    does not have: the first two pieces. *)
Lemma split_first_separator (sep a : pystr) (c : N) (rest : pystr) :
  ~ In c sep -> sep <> [] -> contains sep a = false ->
  contains sep rest = false ->
  split sep ((a ++ [c]) ++ sep ++ rest) = [a ++ [c]; rest].
Proof.
  intros Hc Hsep Ha Hrest. unfold split.
  rewrite <- app_assoc. cbn [app].
  rewrite split_aux_pass by assumption.
  rewrite split_aux_here by exact Hsep.
  rewrite split_aux_none by exact Hrest.
  rewrite app_nil_r. cbn [rev app]. rewrite rev_involutive.
  reflexivity.
Qed.

(** *** [strip] and padding *)

Lemma lstrip_by_app_all (p : N -> bool) (a x : pystr) :
  (forall c, In c a -> p c = true) ->
  lstrip_by p (a ++ x) = lstrip_by p x.
Proof.
  induction a as [|y a IH]; intros H; [reflexivity|].
  cbn [app lstrip_by]. rewrite (H y (or_introl eq_refl)).
  apply IH. intros c Hc. apply H. now right.
Qed.

Lemma lstrip_by_app (p : N -> bool) (e b : pystr) :
  lstrip_by p (e ++ b)
  = match lstrip_by p e with
    | [] => lstrip_by p b
    | _ :: _ => lstrip_by p e ++ b
    end.
Proof.
  induction e as [|y e IH]; [cbn; now destruct (lstrip_by p b)|].
  cbn [app lstrip_by]. destruct (p y); [exact IH | reflexivity].
Qed.

Lemma strip_by_pad (p : N -> bool) (a e b : pystr) :
  (forall c, In c a -> p c = true) -> (forall c, In c b -> p c = true) ->
  strip_by p (a ++ e ++ b) = strip_by p e.
Proof.
  intros Ha Hb. unfold strip_by.
  rewrite lstrip_by_app_all by exact Ha. rewrite lstrip_by_app.
  destruct (lstrip_by p e) as [|h t] eqn:E.
  - now rewrite (lstrip_by_all _ _ Hb).
  - rewrite rev_app_distr. rewrite lstrip_by_app_all; [reflexivity|].
    intros c Hc. apply Hb. now apply in_rev.
Qed.

Lemma lstrip_by_length (p : N -> bool) (s : pystr) :
  (List.length (lstrip_by p s) <= List.length s)%nat.
Proof.
  induction s as [|y s IH]; [cbn; lia|].
  cbn [lstrip_by]. destruct (p y); cbn [List.length]; lia.
Qed.

Lemma lstrip_by_same_length (p : N -> bool) (s : pystr) :
  List.length (lstrip_by p s) = List.length s -> lstrip_by p s = s.
Proof.
  destruct s as [|y s]; [reflexivity|].
  cbn [lstrip_by]. destruct (p y); [|reflexivity].
  pose proof (lstrip_by_length p s). cbn [List.length]. lia.
Qed.

(** A text that [strip] leaves alone has nothing to strip at either end. *)
Lemma strip_by_fixed (p : N -> bool) (s : pystr) :
  strip_by p s = s <->
  lstrip_by p s = s /\ lstrip_by p (rev s) = rev s.
Proof.
  unfold strip_by. split.
  - intros H.
    assert (Hl : lstrip_by p s = s).
    { apply lstrip_by_same_length.
      pose proof (lstrip_by_length p s).
      pose proof (lstrip_by_length p (rev (lstrip_by p s))).
      apply (f_equal (@List.length N)) in H.
      rewrite length_rev in H. rewrite length_rev in *. lia. }
    split; [exact Hl|]. rewrite Hl in H.
    apply (f_equal (@rev N)) in H. now rewrite rev_involutive in H.
  - intros [Hl Hr]. now rewrite Hl, Hr, rev_involutive.
Qed.

Lemma join_head (sep e : pystr) (rest : list pystr) :
  exists x, join sep (e :: rest) = e ++ x.
Proof.
  destruct rest as [|e2 rest]; cbn [join].
  - exists []. now rewrite app_nil_r.
  - now eexists.
Qed.

Lemma join_last (sep : pystr) (parts : list pystr) (e : pystr) :
  exists x, join sep (parts ++ [e]) = x ++ e.
Proof.
  induction parts as [|y parts IH].
  - now exists [].
  - destruct IH as [x Hx]. cbn [app].
    destruct (parts ++ [e]) as [|z l] eqn:E.
    + now destruct parts.
    + cbn [join]. cbn [join] in Hx. exists (y ++ sep ++ x).
      rewrite <- !app_assoc. do 2 f_equal.
      destruct l; exact Hx.
Qed.

Lemma lstrip_by_kept_app (p : N -> bool) (e x : pystr) :
  e <> [] -> lstrip_by p e = e -> lstrip_by p (e ++ x) = e ++ x.
Proof.
  intros He Hl. rewrite lstrip_by_app, Hl. now destruct e.
Qed.

(** Names that [strip] leaves alone, joined: [strip] leaves the whole
    alone. *)
Lemma join_stripped (sep : pystr) (parts : list pystr) :
  Forall (fun e => e <> [] /\ strip e = e) parts ->
  strip (join sep parts) = join sep parts.
Proof.
  intros H. destruct parts as [|e rest]; [reflexivity|].
  apply strip_by_fixed. split.
  - destruct (join_head sep e rest) as [x ->].
    inversion H as [|? ? [He Hs] _]; subst.
    apply strip_by_fixed in Hs. now apply lstrip_by_kept_app.
  - destruct (@exists_last _ (e :: rest)) as (parts & l & E); [discriminate|].
    rewrite E in *. destruct (join_last sep parts l) as [x ->].
    apply Forall_app in H. destruct H as [_ H].
    inversion H as [|? ? [He Hs] _]; subst.
    apply strip_by_fixed in Hs. rewrite rev_app_distr.
    apply lstrip_by_kept_app; [|tauto].
    intros Hr. apply He. apply (f_equal (@rev N)) in Hr.
    now rewrite rev_involutive in Hr.
Qed.

(** The names of a route written with " - " between them are read back by
    [split("-")] and [strip], when no name has a hyphen. *)
Lemma route_of_joined (parts : list pystr) :
  parts <> [] ->
  Forall (fun e => strip e = e /\ ~ In 45 e) parts ->
  forall pad : pystr,
    (forall c, In c pad -> isspace c = true) ->
    map strip (split_aux [45] 0 [] (pad ++ join (u " - ") parts)) = parts.
Proof.
  change (u " - ") with [32; 45; 32].
  induction parts as [|e rest IH]; intros Hne H pad Hpad; [congruence|].
  inversion H as [|? ? [Hs Hh] Hrest]; subst.
  assert (Hpad45 : ~ In 45 pad).
  { intros Hin. apply Hpad in Hin. discriminate. }
  destruct rest as [|e2 rest].
  - cbn [join]. rewrite split_aux_none.
    + cbn [rev app map]. f_equal.
      rewrite <- (app_nil_r e) at 1. unfold strip.
      rewrite strip_by_pad; [exact Hs | exact Hpad | intros c []].
    + apply contains_char. rewrite in_app_iff. tauto.
  - change (join [32; 45; 32] (e :: e2 :: rest))
      with (e ++ [32; 45; 32] ++ join [32; 45; 32] (e2 :: rest)).
    replace (pad ++ e ++ [32; 45; 32] ++ join [32; 45; 32] (e2 :: rest))
      with ((pad ++ e) ++ 32 :: ([45] ++ [32] ++ join [32; 45; 32] (e2 :: rest)))
      by (rewrite <- app_assoc; reflexivity).
    rewrite split_aux_pass.
    + rewrite split_aux_here by discriminate.
      cbn [map]. f_equal.
      * cbn [rev]. rewrite app_nil_r, rev_involutive.
        rewrite <- app_assoc. unfold strip.
        rewrite strip_by_pad; [exact Hs | exact Hpad |].
        intros c [<-|[]]. reflexivity.
      * apply IH; [discriminate | exact Hrest |].
        intros c [<-|[]]. reflexivity.
    + intros [E|[]]. discriminate.
    + discriminate.
    + apply contains_char. rewrite in_app_iff. tauto.
Qed.

(** *** The text of a description *)

Lemma bytes_of_small (s : string) (c : N) : In c (bytes_of s) -> c < 256.
Proof.
  induction s as [|a s IH]; [intros []|].
  intros [<-|H]; [apply N_ascii_bounded | now apply IH].
Qed.

Lemma strftime_small (d : datetime) (c : N) :
  In c (strftime_dmY d) -> c < 256.
Proof.
  assert (Hpad : forall n, In c (pad2 n) -> c < 256).
  { intros n. unfold pad2. destruct (n <? 10)%Z.
    - intros [<-|H]; [reflexivity | now apply bytes_of_small in H].
    - apply bytes_of_small. }
  unfold strftime_dmY. change (u ".") with [46].
  rewrite !in_app_iff. intros [H|[[<-|[]]|[H|[[<-|[]]|H]]]];
    try reflexivity; try (now apply Hpad in H).
  now apply bytes_of_small in H.
Qed.

Lemma route_word_letters (c : N) :
  c = 32 \/ c = 44 \/ c = 45 -> ~ In c (u "маршрут").
Proof.
  intros [-> | [-> | ->]]; vm_compute; intuition discriminate.
Qed.

Lemma description_shape (service : TransportService) :
  description service
  = (ModernUIEdit.before_route service ++ [32]) ++ u "маршрут"
      ++ 32 :: join (u " - ") (route service).
Proof.
  unfold description, ModernUIEdit.before_route. cbv zeta.
  change (u "Транспортные услуги ") with (u "Транспортные услуги" ++ [32]).
  change (u " водит. ") with (32 :: u "водит." ++ [32]).
  change (u ", ") with [44; 32].
  change (u "а/м Газель ") with (u "а/м Газель" ++ [32]).
  change (u ", маршрут ") with ([44; 32] ++ u "маршрут" ++ [32]).
  repeat first [rewrite <- app_assoc | rewrite <- app_comm_cons].
  reflexivity.
Qed.

Lemma before_route_clean (service : TransportService) :
  contains (u "маршрут") (driver_name service) = false ->
  contains (u "маршрут") (car_number service) = false ->
  contains (u "маршрут") (ModernUIEdit.before_route service) = false.
Proof.
  intros Hd Hc. unfold ModernUIEdit.before_route.
  assert (Hw : u "маршрут" <> []) by discriminate.
  assert (H32 : ~ In 32 (u "маршрут")) by (apply route_word_letters; tauto).
  assert (H44 : ~ In 44 (u "маршрут")) by (apply route_word_letters; tauto).
  assert (Hdate : contains (u "маршрут") (strftime_dmY (date service))
                  = false).
  { change (u "маршрут") with (1084 :: u "аршрут").
    apply contains_needs_head. intros H. apply strftime_small in H.
    discriminate. }
  repeat first [rewrite (@contains_app_sep _ _ _ _ H32 Hw)
               |rewrite (@contains_app_sep _ _ _ _ H44 Hw)].
  rewrite Hd, Hc, Hdate. vm_compute. reflexivity.
Qed.

Lemma joined_route_clean (parts : list pystr) :
  Forall (fun e => contains (u "маршрут") e = false) parts ->
  contains (u "маршрут") (join (u " - ") parts) = false.
Proof.
  assert (Hw : u "маршрут" <> []) by discriminate.
  assert (H32 : ~ In 32 (u "маршрут")) by (apply route_word_letters; tauto).
  change (u " - ") with [32; 45; 32].
  induction parts as [|e rest IH]; intros H; [reflexivity|].
  inversion H as [|? ? He Hrest]; subst.
  destruct rest as [|e2 rest]; [exact He|].
  change (join [32; 45; 32] (e :: e2 :: rest))
    with (e ++ 32 :: ([45] ++ 32 :: join [32; 45; 32] (e2 :: rest))).
  rewrite !(@contains_app_sep _ _ _ _ H32 Hw), He, (IH Hrest).
  reflexivity.
Qed.

(** X12 ([ModernTableModel.setData], the column of the description, with
    [TransportService.description], core/models.py): the text that the
    table offers for the edit of a description, given back unchanged, is
    stored as the edited description and leaves the route as it is, and
    every other attribute too, when the word "маршрут" is neither in the
    name of the driver, nor in the number of the car, nor in a place of the
    route, and every place of the route is a non-empty name without a
    hyphen that [strip] leaves alone. *)
Theorem reopened_description_keeps_route (service : TransportService) :
  contains (u "маршрут") (driver_name service) = false ->
  contains (u "маршрут") (car_number service) = false ->
  Forall (fun place => place <> [] /\ strip place = place
                       /\ ~ In 45 place
                       /\ contains (u "маршрут") place = false)
         (route service) ->
  ModernUI.setData_description service (description service)
  = Build_TransportService (date service) (driver_name service)
      (car_number service) (route service) (quantity service)
      (unit service) (price service) (amount service)
      (Some (description service)).
Proof.
  intros Hd Hc Hroute.
  pose proof (description_shape service) as Hshape.
  set (text := description service) in *.
  assert (Hclean : contains (u "маршрут") (ModernUIEdit.before_route service)
                   = false) by now apply before_route_clean.
  assert (Hrest : contains (u "маршрут")
                    (32 :: join (u " - ") (route service)) = false).
  { change (32 :: join (u " - ") (route service))
      with ([] ++ 32 :: join (u " - ") (route service)).
    rewrite contains_app_sep;
      [|apply route_word_letters; tauto|discriminate].
    rewrite joined_route_clean; [reflexivity|].
    eapply Forall_impl; [|exact Hroute]. cbv beta. tauto. }
  assert (Hparts : split (u "маршрут") text
                   = [ModernUIEdit.before_route service ++ [32];
                      32 :: join (u " - ") (route service)]).
  { rewrite Hshape. apply split_first_separator;
      [apply route_word_letters; tauto | discriminate | exact Hclean
      | exact Hrest]. }
  assert (Hin : contains (u "маршрут") text = true).
  { rewrite Hshape. apply contains_intro. }
  assert (Hstrip : strip (32 :: join (u " - ") (route service))
                   = join (u " - ") (route service)).
  { rewrite <- (@join_stripped (u " - ") (route service)) at 2.
    - change (32 :: join (u " - ") (route service))
        with ([32] ++ join (u " - ") (route service)).
      rewrite <- (app_nil_r (join (u " - ") (route service))) at 1.
      unfold strip. apply strip_by_pad; [|intros c []].
      intros c [<-|[]]. reflexivity.
    - eapply Forall_impl; [|exact Hroute]. cbv beta. tauto. }
  unfold ModernUI.setData_description.
  rewrite Hin, Hparts. cbn [List.length Nat.ltb Nat.leb nth].
  rewrite Hstrip.
  cbn [date driver_name car_number route quantity unit price amount
       _description].
  destruct (join (u " - ") (route service)) as [|c r] eqn:Ej.
  - destruct (route service) as [|e rest] eqn:Er; [reflexivity|].
    exfalso. inversion Hroute as [|? ? (He & _) _]; subst.
    destruct (join_head (u " - ") e rest) as [x Hx].
    rewrite Hx in Ej. destruct e; [congruence | discriminate].
  - rewrite <- Ej. f_equal. unfold ModernUI.route_of_text, split.
    apply (@route_of_joined (route service)) with (pad := []).
    + intros E. rewrite E in Ej. discriminate.
    + eapply Forall_impl; [|exact Hroute]. cbv beta. tauto.
    + intros ch [].
Qed.

Lemma reopened_description_keeps_route_witness :
  route (ModernUI.setData_description Sample.service_klin
           (description Sample.service_klin))
  = [u "Дмитров"; u "Клин"; u "Борки"].
Proof.
  rewrite (@reopened_description_keeps_route Sample.service_klin).
  - reflexivity.
  - vm_compute. reflexivity.
  - vm_compute. reflexivity.
  - repeat constructor; vm_compute; first [discriminate | intuition discriminate | reflexivity].
Defined.

(* ------------------------------------------------------------------ *)
(** ** A table without a required column *)

Lemma contains_self (w : pystr) : contains w w = true.
Proof.
  pose proof (contains_intro w [] []) as H. cbn [app] in H.
  now rewrite app_nil_r in H.
Qed.

Lemma names_nothing_rename (col actual_col new : pystr) (cols : list label) :
  Columns.names_nothing col cols -> contains (lower col) (lower new) = false ->
  Columns.names_nothing col (rename actual_col new cols).
Proof.
  intros H Hnew. unfold Columns.names_nothing, rename. apply Forall_map.
  eapply Forall_impl; [|exact H]. intros l Hl. cbv beta.
  destruct (label_is actual_col l); [exact Hnew | exact Hl].
Qed.

Lemma names_nothing_find (col : pystr) (cols : list label) :
  Columns.names_nothing col cols ->
  has_column col cols = false /\ find_partial col cols = None.
Proof.
  intros H. split.
  - destruct (has_column col cols) eqn:E; [|reflexivity].
    apply has_column_In in E.
    pose proof (proj1 (Forall_forall _ _) H _ E) as Hc. cbv beta iota in Hc.
    now rewrite contains_self in Hc.
  - destruct (find_partial col cols) as [actual_col|] eqn:E; [|reflexivity].
    apply find_partial_found in E. destruct E as [Hin Hc].
    pose proof (proj1 (Forall_forall _ _) H _ Hin) as Hc'.
    cbv beta iota in Hc'. congruence.
Qed.

(** A required column that no label names is reported. *)
Lemma check_columns_reports (col : pystr) (required : list pystr) :
  In col required_columns ->
  forall (cols : list label) (missing : list pystr),
    incl required required_columns ->
    Columns.names_nothing col cols ->
    In col required \/ In col missing ->
    In col (snd (check_columns required cols missing)).
Proof.
  intros Hcol. induction required as [|col0 required IH];
    intros cols missing Hreq Hcols Hin.
  - destruct Hin as [[]|Hin]. exact Hin.
  - assert (Hreq' : incl required required_columns)
      by (intros x Hx; apply Hreq; now right).
    assert (Hcol0 : In col0 required_columns) by (apply Hreq; now left).
    cbn [check_columns].
    destruct (list_eq_dec N.eq_dec col0 col) as [->|Hne].
    + destruct (names_nothing_find Hcols) as [-> ->].
      apply IH; [exact Hreq' | exact Hcols |].
      right. apply in_or_app. right. now left.
    + assert (Hin' : In col required \/ In col missing).
      { destruct Hin as [[E|Hin]|Hin]; [congruence | now left | now right]. }
      destruct (has_column col0 cols); [now apply IH|].
      destruct (find_partial col0 cols) as [actual_col|].
      * apply IH; [exact Hreq' | | exact Hin'].
        apply names_nothing_rename; [exact Hcols|].
        now apply required_not_nested.
      * apply IH; [exact Hreq' | exact Hcols |].
        destruct Hin' as [H|H]; [now left|].
        right. apply in_or_app. now left.
Qed.

(** X13 ([process_file] with [_validate_structure]): a file that a reader
    loads as a table in which no label has the required name [col] in it,
    in any case of the letters, is refused: the result is a failure with
    the message "Неверная структура файла", no data and no warning, and its
    one error lists the missing columns, [col] among them and required
    names only.  No row is looked at. *)
Theorem incomplete_table_is_refused (env : Env) (file_path : pystr)
    (self : self_) (df : DataFrame) (col : pystr) :
  read_excel env file_path = Some df
  \/ (read_excel env file_path = None
      /\ first_csv env file_path encodings = Some df) ->
  In col required_columns ->
  Columns.names_nothing col (columns df) ->
  let r := fst (process_file env file_path self) in
  success r = false
  /\ message r = u "Неверная структура файла"
  /\ data r = None
  /\ Models.warnings r = []
  /\ exists missing,
       In col missing /\ incl missing required_columns
       /\ Models.errors r
          = [u "Отсутствуют необходимые колонки: " ++ join (u ", ") missing].
Proof.
  intros Hload Hcol Hcols. cbv zeta.
  assert (Hdf : _load_data env file_path (Build_self [] [])
                = (Ok (Some df), Build_self [] [])).
  { unfold _load_data, ret.
    destruct Hload as [->|[-> ->]]; reflexivity. }
  pose proof (@check_columns_reports col required_columns Hcol (columns df) []
                (fun x Hx => Hx) Hcols (or_introl Hcol)) as Hin.
  destruct (@check_columns_spec required_columns (columns df) [] [])
    as (cols' & added & E & _ & _ & _ & Hincl).
  { intros x Hx. exact Hx. }
  { intros x []. }
  { intros a []. }
  cbn [app] in E. rewrite E in Hin. cbn [snd] in Hin.
  unfold process_file, bind. rewrite Hdf.
  unfold _validate_structure. rewrite E.
  destruct added as [|m ms]; [destruct Hin|].
  unfold bind, error, ret. cbv beta iota. cbn [negb errors app].
  cbn [fst success message data Models.warnings Models.errors].
  repeat split. exists (m :: ms). repeat split; [exact Hin | exact Hincl].
Qed.

Lemma incomplete_table_is_refused_witness :
  let r := fst (process_file SampleCut.env (u "cut.csv") __init__) in
  success r = false
  /\ message r = u "Неверная структура файла"
  /\ data r = None
  /\ Models.warnings r = []
  /\ exists missing,
       In (u "Сумма за рейсы") missing /\ incl missing required_columns
       /\ Models.errors r
          = [u "Отсутствуют необходимые колонки: " ++ join (u ", ") missing].
Proof.
  apply (@incomplete_table_is_refused SampleCut.env (u "cut.csv") __init__
           SampleCut.cut (u "Сумма за рейсы")).
  - right. split; vm_compute; reflexivity.
  - vm_compute. tauto.
  - repeat constructor; vm_compute; reflexivity.
Defined.

(* ------------------------------------------------------------------ *)
(** ** Amounts as they are written *)

Lemma digits_of_digits (s : pystr) :
  Forall (fun c => Dec.is_digit c = true) (AmountText.digits_of s).
Proof.
  apply Forall_forall. intros c H. now apply filter_In in H.
Qed.

(** A run of digits and spaces, cleaned, is its digits. *)
Lemma written_clean (s : pystr) :
  AmountText.written s = true ->
  filter (fun c => negb (c =? 32)) (map (fun c => if c =? 44 then 46 else c) s)
  = AmountText.digits_of s.
Proof.
  unfold AmountText.written, AmountText.digits_of.
  induction s as [|c s IH]; [reflexivity|].
  cbn [forallb map filter]. intros H.
  apply andb_true_iff in H. destruct H as [Hc Hs]. rewrite (IH Hs).
  destruct (Dec.is_digit c) eqn:Ed.
  - unfold Dec.is_digit, between in Ed.
    apply andb_true_iff in Ed. destruct Ed as [Hlo Hhi].
    apply N.leb_le in Hlo, Hhi.
    destruct (N.eqb_spec c 44) as [->|_]; [lia|].
    destruct (N.eqb_spec c 32) as [->|_]; [lia|].
    reflexivity.
  - cbn [orb] in Hc. apply N.eqb_eq in Hc. subst c. reflexivity.
Qed.

Lemma take_digits_all (ds : pystr) :
  Forall (fun c => Dec.is_digit c = true) ds ->
  Dec.take_digits ds = (ds, []).
Proof.
  induction 1 as [|c ds Hc _ IH]; [reflexivity|].
  cbn [Dec.take_digits]. now rewrite Hc, IH.
Qed.

Lemma take_digits_stop (ds : pystr) (c : N) (rest : pystr) :
  Forall (fun c => Dec.is_digit c = true) ds -> Dec.is_digit c = false ->
  Dec.take_digits (ds ++ c :: rest) = (ds, c :: rest).
Proof.
  intros Hds Hc. induction Hds as [|d ds Hd _ IH].
  - cbn [app Dec.take_digits]. now rewrite Hc.
  - cbn [app Dec.take_digits]. now rewrite Hd, IH.
Qed.

Lemma strip_no_space (s : pystr) :
  Forall (fun c => isspace c = false) s -> strip s = s.
Proof.
  intros H. apply strip_by_fixed. split.
  - destruct H as [|c s Hc _]; [reflexivity|]. cbn [lstrip_by]. now rewrite Hc.
  - apply Forall_rev in H. destruct H as [|c r Hc _]; [reflexivity|].
    cbn [lstrip_by]. now rewrite Hc.
Qed.

Lemma digit_facts (c : N) :
  Dec.is_digit c = true ->
  isspace c = false /\ (c =? 95) = false /\ (c =? 45) = false
  /\ (c =? 43) = false.
Proof.
  unfold Dec.is_digit, between. intros H.
  apply andb_true_iff in H. destruct H as [Hlo Hhi].
  apply N.leb_le in Hlo, Hhi.
  repeat split; try (apply N.eqb_neq; lia).
  destruct (isspace c) eqn:E; [|reflexivity].
  exfalso. unfold isspace, between in E.
  repeat (apply orb_true_iff in E; destruct E as [E|E]);
    repeat (apply andb_true_iff in E; destruct E as [E1 E2]);
    try apply N.leb_le in E1; try apply N.leb_le in E2;
    try apply N.eqb_eq in E; lia.
Qed.

Lemma filter_keeps_all (f : N -> bool) (s : pystr) :
  Forall (fun c => f c = true) s -> filter f s = s.
Proof.
  induction 1 as [|c s Hc _ IH]; [reflexivity|].
  cbn [filter]. now rewrite Hc, IH.
Qed.

Lemma as_ascii_plain (s : pystr) :
  Forall (fun c => Dec.is_digit c = true \/ c = 46) s ->
  Dec.as_ascii s = Some s.
Proof.
  induction 1 as [|c s Hc _ IH]; [reflexivity|].
  cbn [Dec.as_ascii]. rewrite IH.
  assert (E : ((0 <? c) && (c <=? 127)) = true).
  { destruct Hc as [Hc| ->]; [|reflexivity].
    unfold Dec.is_digit, between in Hc.
    apply andb_true_iff in Hc as [H1 H2]. apply N.leb_le in H1, H2.
    apply andb_true_iff. split; [apply N.ltb_lt | apply N.leb_le]; lia. }
  now rewrite E.
Qed.

Lemma plain_text_read (s : pystr) :
  Forall (fun c => Dec.is_digit c = true \/ c = 46) s ->
  Dec.as_ascii (filter (fun c => negb (c =? 95)) (strip s)) = Some s
  /\ Dec.take_sign s = (false, s).
Proof.
  intros H. rewrite strip_no_space.
  - rewrite filter_keeps_all.
    + split; [now apply as_ascii_plain|].
      destruct H as [|c s Hc _]; [reflexivity|]. cbn [Dec.take_sign].
      destruct Hc as [Hc| ->]; [|reflexivity].
      destruct (digit_facts _ Hc) as (_ & _ & -> & ->). reflexivity.
    + eapply Forall_impl; [|exact H]. cbv beta. intros c [Hc| ->].
      * destruct (digit_facts _ Hc) as (_ & -> & _). reflexivity.
      * reflexivity.
  - eapply Forall_impl; [|exact H]. cbv beta. intros c [Hc| ->].
    + now destruct (digit_facts _ Hc).
    + reflexivity.
Qed.

(** What [Decimal] makes of digits, a period and digits. *)
Lemma of_str_fraction (da db : pystr) :
  Forall (fun c => Dec.is_digit c = true) da ->
  Forall (fun c => Dec.is_digit c = true) db ->
  da ++ db <> [] ->
  Dec.of_str (da ++ 46 :: db)
  = Some (Dec.Finite false (Dec.digits_value (da ++ db))
                     (- Z.of_nat (List.length db))).
Proof.
  intros Ha Hb Hne. unfold Dec.of_str, Dec.convert.
  destruct (@plain_text_read (da ++ 46 :: db)) as [-> ->].
  - apply Forall_app. split.
    + eapply Forall_impl; [|exact Ha]. cbv beta. tauto.
    + constructor; [now right|].
      eapply Forall_impl; [|exact Hb]. cbv beta. tauto.
  - unfold Dec.parse_number.
    rewrite (@take_digits_stop da 46 db Ha eq_refl).
    cbn [N.eqb Pos.eqb]. rewrite (take_digits_all Hb).
    destruct (da ++ db); [congruence | reflexivity].
Qed.

(** What [Decimal] makes of digits alone. *)
Lemma of_str_digits (da : pystr) :
  Forall (fun c => Dec.is_digit c = true) da -> da <> [] ->
  Dec.of_str da = Some (Dec.Finite false (Dec.digits_value da) 0).
Proof.
  intros Ha Hne. unfold Dec.of_str, Dec.convert.
  destruct (@plain_text_read da) as [-> ->].
  - eapply Forall_impl; [|exact Ha]. cbv beta. tauto.
  - unfold Dec.parse_number. rewrite (take_digits_all Ha).
    rewrite app_nil_r. destruct da; [congruence | reflexivity].
Qed.

(** X14 ([_parse_amount]): an amount written as ASCII digits, with spaces
    anywhere among them, is read as the integer of its digits; with one
    comma or one period among them it is read as the number of all its
    digits with as many decimal places as there are digits after the comma
    or the period.  Nothing is recorded and the instance is left as it
    was: "1 234,50" is 123450E-2. *)
Theorem written_amount_is_read (amount_str : cell) (row_index : index)
    (self : self_) :
  isna amount_str = false ->
  (forall a : pystr,
      str amount_str = a -> AmountText.written a = true ->
      AmountText.digits_of a <> [] ->
      _parse_amount amount_str row_index self
      = (Ok (Dec.Finite false (Dec.digits_value (AmountText.digits_of a)) 0),
         self))
  /\ (forall (a : pystr) (sep : N) (b : pystr),
         str amount_str = a ++ sep :: b -> sep = 44%N \/ sep = 46%N ->
         AmountText.written a = true -> AmountText.written b = true ->
         AmountText.digits_of a ++ AmountText.digits_of b <> [] ->
         _parse_amount amount_str row_index self
         = (Ok (Dec.Finite false
                  (Dec.digits_value
                     (AmountText.digits_of a ++ AmountText.digits_of b))
                  (- Z.of_nat (List.length (AmountText.digits_of b)))),
            self)).
Proof.
  intros Hna. unfold _parse_amount, try_except, ret. rewrite Hna.
  rewrite clean_amount_spec. split.
  - intros a -> Ha Hne. rewrite (written_clean _ Ha).
    rewrite of_str_digits; [reflexivity | apply digits_of_digits | exact Hne].
  - intros a sep b -> Hsep Ha Hb Hne.
    rewrite map_app, filter_app. cbn [map filter].
    rewrite (written_clean _ Ha), (written_clean _ Hb).
    assert (E : (if negb ((if (sep =? 44)%N then 46%N else sep) =? 32)%N
                 then (if (sep =? 44)%N then 46%N else sep)
                      :: AmountText.digits_of b
                 else AmountText.digits_of b)
                = 46%N :: AmountText.digits_of b)
      by (destruct Hsep as [-> | ->]; reflexivity).
    rewrite E.
    rewrite of_str_fraction;
      [reflexivity | apply digits_of_digits | apply digits_of_digits
      | exact Hne].
Qed.

Lemma written_amount_is_read_witness :
  _parse_amount (CStr (u "1 234,50")) (IInt 0) __init__
  = (Ok (Dec.Finite false 123450 (-2)), __init__).
Proof.
  apply (proj2 (@written_amount_is_read (CStr (u "1 234,50")) (IInt 0)
                  __init__ eq_refl)
           (u "1 234") 44%N (u "50")).
  - reflexivity.
  - now left.
  - reflexivity.
  - reflexivity.
  - discriminate.
Defined.
